(** * HealScan AI: response normalisation and bounded history

    A shallow embedding of [src/gemini.ts] (the response parser of the
    analysis adapter) and of the history handling of [src/App.tsx]
    ([onAnalyze], [toAgeGroup], [saveHistory], [readHistory]), together with
    the part of the JavaScript platform these functions rest on: the
    coercions [Number], [String] and [Boolean], [Math.min]/[Math.max],
    [JSON.parse], [JSON.stringify] and the one regular expression of the
    parser.

    Conventions of the embedding.
    - A JS string is a [string]: the bytes of its UTF-8 form.  The program
      only tests strings for emptiness and equality, cuts them at the ASCII
      braces and hands them to the platform, which all agree with the
      UTF-16 view.
    - A JS number is a [number]: NaN, the two infinities, the two zeros, or a
      finite non-zero value kept exactly, as a decimal.  The program does no
      arithmetic on numbers: it reads them from text, compares them, clamps
      them and prints them.  The rounding of a numeral to the nearest
      binary64 value (and its overflow to an infinity) is not modelled; every
      binary64 value is a finite decimal, so the number type covers them all.
      Where a theorem observes a number that is read from a text, it is
      stated for the whole numbers up to [2^53], which are read without
      rounding.
    - A thrown exception is the [Throw] case of [outcome]. *)

From Stdlib Require Import ZArith List Bool Ascii String Lia Arith Sorted.
Import ListNotations.

Local Open Scope list_scope.
Local Open Scope Z_scope.

(** ** Exceptions *)

(** The errors of the analysis path, named as the specification names them.
    In the source they are [Error] objects told apart by their origin:
    [new Error('Missing VITE_GEMINI_API_KEY')] is [ConfigurationError], a
    rejected request is [AnalysisFailed] with its message,
    [new Error('Model returned no JSON')] is [NoJsonFound], the
    [SyntaxError] of [JSON.parse] is [MalformedResponse], [TypeError] is
    the platform's error for a coercion or an iteration that cannot be
    done, and [QuotaExceeded] is the one of [localStorage.setItem]. *)
Inductive error : Type :=
| ConfigurationError
| AnalysisFailed (cause : string)
| NoJsonFound
| MalformedResponse
| TypeError
| QuotaExceeded.

Inductive outcome (A : Type) : Type :=
| Ok (a : A)
| Throw (e : error).

Arguments Ok {A} a.
Arguments Throw {A} e.

Definition bind {A B : Type} (r : outcome A) (k : A -> outcome B) : outcome B :=
  match r with
  | Ok a => k a
  | Throw e => Throw e
  end.

Notation "x <- r ;; k" := (bind r (fun x => k))
  (at level 61, r at next level, right associativity).

Fixpoint mapM {A B : Type} (f : A -> outcome B) (l : list A) : outcome (list B) :=
  match l with
  | [] => Ok []
  | a :: l' => b <- f a ;; bs <- mapM f l' ;; Ok (b :: bs)
  end.

(** ** Text *)

Definition text := list ascii.

Definition chr (n : nat) : ascii := ascii_of_nat n.

(** The double quote. *)
Definition dquote : ascii := Ascii false true false false false true false false.

(** A text written with [']  where it has a double quote. *)
Definition dq (s : string) : string :=
  string_of_list_ascii
    (map (fun c => if Ascii.eqb c "'" then dquote else c) (list_ascii_of_string s)).
Definition code (c : ascii) : Z := Z.of_nat (nat_of_ascii c).

Definition str (t : text) : string := string_of_list_ascii t.
Definition chars (s : string) : text := list_ascii_of_string s.

Fixpoint textEqb (a b : text) : bool :=
  match a, b with
  | [], [] => true
  | x :: a', y :: b' => Ascii.eqb x y && textEqb a' b'
  | _, _ => false
  end.

Definition isDigit (c : ascii) : bool := (48 <=? code c) && (code c <=? 57).

Definition digitVal (c : ascii) : Z := code c - 48.

Definition digitChar (d : Z) : ascii := ascii_of_nat (Z.to_nat (48 + d)).

(** The longest prefix of decimal digits, and what follows it. *)
Fixpoint spanDigits (t : text) : text * text :=
  match t with
  | c :: t' =>
      if isDigit c then let (ds, r) := spanDigits t' in (c :: ds, r)
      else ([], t)
  | [] => ([], [])
  end.

(** The value of a digit string read in base ten. *)
Definition valDigits (ds : text) : Z :=
  fold_left (fun acc c => 10 * acc + digitVal c) ds 0.

Fixpoint digitsAux (fuel : nat) (n : Z) (acc : text) : text :=
  match fuel with
  | O => acc
  | S f =>
      let acc' := digitChar (n mod 10) :: acc in
      if n <? 10 then acc' else digitsAux f (n / 10) acc'
  end.

(** The decimal digits of a non-negative integer, most significant first. *)
Definition digitsOf (n : Z) : text :=
  digitsAux (S (Z.to_nat (Z.log2 n))) n [].

(** ** Numbers *)

Inductive nzdigit : Type := D1 | D2 | D3 | D4 | D5 | D6 | D7 | D8 | D9.

Definition nzVal (d : nzdigit) : Z :=
  match d with
  | D1 => 1 | D2 => 2 | D3 => 3 | D4 => 4 | D5 => 5
  | D6 => 6 | D7 => 7 | D8 => 8 | D9 => 9
  end.

Definition nzOf (z : Z) : nzdigit :=
  match z with
  | 1 => D1 | 2 => D2 | 3 => D3 | 4 => D4 | 5 => D5
  | 6 => D6 | 7 => D7 | 8 => D8 | _ => D9
  end.

(** [Fin neg q d e] is the value [± (10 q + d) × 10^e]: the last digit of
    the mantissa is not zero, so every finite non-zero value has exactly one
    representation and JS's [===] on such numbers is Rocq's equality. *)
Inductive number : Type :=
| NaN
| Inf (neg : bool)
| Zero (neg : bool)
| Fin (neg : bool) (q : N) (d : nzdigit) (e : Z).

Definition mantissa (q : N) (d : nzdigit) : Z := 10 * Z.of_N q + nzVal d.

Fixpoint stripZeros (fuel : nat) (m e : Z) : Z * Z :=
  match fuel with
  | O => (m, e)
  | S f => if m mod 10 =? 0 then stripZeros f (m / 10) (e + 1) else (m, e)
  end.

(** The number [± m × 10^e] for a non-negative integer [m]. *)
Definition mkNumber (neg : bool) (m e : Z) : number :=
  if m <=? 0 then Zero neg
  else
    let (m', e') := stripZeros (S (Z.to_nat (Z.log2 m))) m e in
    Fin neg (Z.to_N (m' / 10)) (nzOf (m' mod 10)) e'.

Definition ofZ (z : Z) : number := mkNumber (z <? 0) (Z.abs z) 0.

(** Comparison of the magnitudes of two finite non-zero numbers. *)
Definition cmpMag (q1 : N) (d1 : nzdigit) (e1 : Z) (q2 : N) (d2 : nzdigit) (e2 : Z)
  : comparison :=
  let e := Z.min e1 e2 in
  Z.compare (mantissa q1 d1 * 10 ^ (e1 - e)) (mantissa q2 d2 * 10 ^ (e2 - e)).

(** The order of two numbers, [None] when one of them is NaN.  The two zeros
    are equal to each other. *)
Definition numCompare (x y : number) : option comparison :=
  match x, y with
  | NaN, _ | _, NaN => None
  | Inf nx, Inf ny =>
      Some (if Bool.eqb nx ny then Eq else if nx then Lt else Gt)
  | Inf nx, _ => Some (if nx then Lt else Gt)
  | _, Inf ny => Some (if ny then Gt else Lt)
  | Zero _, Zero _ => Some Eq
  | Zero _, Fin ny _ _ _ => Some (if ny then Gt else Lt)
  | Fin nx _ _ _, Zero _ => Some (if nx then Lt else Gt)
  | Fin nx q1 d1 e1, Fin ny q2 d2 e2 =>
      Some (match nx, ny with
            | false, false => cmpMag q1 d1 e1 q2 d2 e2
            | true, true => cmpMag q2 d2 e2 q1 d1 e1
            | true, false => Lt
            | false, true => Gt
            end)
  end.

(** JS [x <= y] and [x >= y]; both are false when an operand is NaN. *)
Definition numLe (x y : number) : bool :=
  match numCompare x y with
  | Some Lt | Some Eq => true
  | _ => false
  end.

Definition numGe (x y : number) : bool :=
  match numCompare x y with
  | Some Gt | Some Eq => true
  | _ => false
  end.

(** The global [isNaN] applied to a number. *)
Definition isNaN (x : number) : bool :=
  match x with NaN => true | _ => false end.

Definition isNegZero (x : number) : bool :=
  match x with Zero true => true | _ => false end.

(** [Math.min] and [Math.max] of two numbers: NaN if either is NaN, and
    [-0] counts as smaller than [+0]. *)
Definition Math_min (x y : number) : number :=
  match numCompare x y with
  | None => NaN
  | Some Lt => x
  | Some Gt => y
  | Some Eq => if isNegZero x then x else y
  end.

Definition Math_max (x y : number) : number :=
  match numCompare x y with
  | None => NaN
  | Some Gt => x
  | Some Lt => y
  | Some Eq => if isNegZero x then y else x
  end.

(** *** Numbers to text: [Number::toString] in radix ten *)

Definition signText (neg : bool) : text := if neg then chars "-" else [].

Definition zeros (n : Z) : text := repeat "0"%char (Z.to_nat n).

(** The text of the positive value [ds × 10^e], [ds] being its digits:
    plain digits up to 21 integer digits, a decimal point inside or after
    [0.] down to [1e-6], and the exponent form elsewhere. *)
Definition fmtFinite (ds : text) (e : Z) : text :=
  let k := Z.of_nat (List.length ds) in
  let n := e + k in
  if (k <=? n) && (n <=? 21) then ds ++ zeros (n - k)
  else if (0 <? n) && (n <=? 21) then
    firstn (Z.to_nat n) ds ++ chars "." ++ skipn (Z.to_nat n) ds
  else if (-6 <? n) && (n <=? 0) then chars "0." ++ zeros (- n) ++ ds
  else
    let ex := n - 1 in
    let es := chars (if ex <? 0 then "-" else "+") ++ digitsOf (Z.abs ex) in
    match ds with
    | [] => []
    | [d] => d :: chars "e" ++ es
    | d :: rest => d :: chars "." ++ rest ++ chars "e" ++ es
    end.

Definition numToText (x : number) : text :=
  match x with
  | NaN => chars "NaN"
  | Inf neg => signText neg ++ chars "Infinity"
  | Zero _ => chars "0"
  | Fin neg q d e => signText neg ++ fmtFinite (digitsOf (mantissa q d)) e
  end.

Definition numToString (x : number) : string := str (numToText x).

(** *** Text to numbers: [StringToNumber] *)

(** An optional exponent part [e], [e+], [e-] followed by digits: the
    exponent and the rest; no exponent part is exponent zero.  [None] when
    the letter is there and the digits are not. *)
Definition parseExp (t : text) : option (Z * text) :=
  match t with
  | c :: r =>
      if orb (Ascii.eqb c "e") (Ascii.eqb c "E") then
        let (neg, r1) :=
          match r with
          | s :: r' =>
              if Ascii.eqb s "-" then (true, r')
              else if Ascii.eqb s "+" then (false, r')
              else (false, r)
          | [] => (false, r)
          end in
        let (ds, r2) := spanDigits r1 in
        match ds with
        | [] => None
        | _ => Some (if neg then - valDigits ds else valDigits ds, r2)
        end
      else Some (0, t)
  | [] => Some (0, t)
  end.

(** The number of leading bytes of white space in a list of byte codes:
    the [WhiteSpace] and [LineTerminator] characters of ECMAScript in their
    UTF-8 form. *)
Fixpoint wsLen (cs : list Z) : nat :=
  match cs with
  | 9 :: r | 10 :: r | 11 :: r | 12 :: r | 13 :: r | 32 :: r => S (wsLen r)
  | 194 :: 160 :: r => 2 + wsLen r
  | 225 :: 154 :: 128 :: r => 3 + wsLen r
  | 226 :: 128 :: (128 | 129 | 130 | 131 | 132 | 133 | 134 | 135 | 136
                   | 137 | 138 | 168 | 169 | 175) :: r => 3 + wsLen r
  | 226 :: 129 :: 159 :: r => 3 + wsLen r
  | 227 :: 128 :: 128 :: r => 3 + wsLen r
  | 239 :: 187 :: 191 :: r => 3 + wsLen r
  | _ => O
  end.

(** The same read from the end of the text: the codes come reversed. *)
Fixpoint wsLenRev (cs : list Z) : nat :=
  match cs with
  | 9 :: r | 10 :: r | 11 :: r | 12 :: r | 13 :: r | 32 :: r => S (wsLenRev r)
  | 160 :: 194 :: r => 2 + wsLenRev r
  | 128 :: 154 :: 225 :: r => 3 + wsLenRev r
  | (128 | 129 | 130 | 131 | 132 | 133 | 134 | 135 | 136
     | 137 | 138 | 168 | 169 | 175) :: 128 :: 226 :: r => 3 + wsLenRev r
  | 159 :: 129 :: 226 :: r => 3 + wsLenRev r
  | 128 :: 128 :: 227 :: r => 3 + wsLenRev r
  | 191 :: 187 :: 239 :: r => 3 + wsLenRev r
  | _ => O
  end.

Definition trim (t : text) : text :=
  let t1 := skipn (wsLen (map code t)) t in
  firstn (List.length t1 - wsLenRev (rev (map code t1)))%nat t1.

Definition radixDigit (radix : Z) (c : ascii) : option Z :=
  let n := code c in
  let v :=
    if (48 <=? n) && (n <=? 57) then n - 48
    else if (97 <=? n) && (n <=? 102) then n - 87
    else if (65 <=? n) && (n <=? 70) then n - 55
    else radix in
  if v <? radix then Some v else None.

Fixpoint radixVal (radix : Z) (t : text) (acc : Z) : option Z :=
  match t with
  | [] => Some acc
  | c :: r =>
      match radixDigit radix c with
      | Some v => radixVal radix r (radix * acc + v)
      | None => None
      end
  end.

(** [0x], [0o] and [0b] literals: unsigned, at least one digit. *)
Definition parseRadix (t : text) : option number :=
  match t with
  | z :: p :: (_ :: _) as ds =>
      if Ascii.eqb z "0" then
        let radix :=
          if orb (Ascii.eqb p "x") (Ascii.eqb p "X") then 16
          else if orb (Ascii.eqb p "o") (Ascii.eqb p "O") then 8
          else if orb (Ascii.eqb p "b") (Ascii.eqb p "B") then 2
          else 0 in
        if radix =? 0 then None
        else option_map (fun v => mkNumber false v 0) (radixVal radix ds 0)
      else None
  | _ => None
  end.

(** [StrDecimalLiteral] without its sign: [Infinity], or digits with an
    optional fraction and exponent, at least one digit before the exponent
    part, and nothing after. *)
Definition parseUnsignedDecimal (neg : bool) (t : text) : option number :=
  if textEqb t (chars "Infinity") then Some (Inf neg)
  else
    let (ip, r1) := spanDigits t in
    let (fp, r2) :=
      match r1 with
      | c :: r => if Ascii.eqb c "." then spanDigits r else ([], r1)
      | [] => ([], r1)
      end in
    match ip ++ fp with
    | [] => None
    | ds =>
        match parseExp r2 with
        | Some (ex, []) =>
            Some (mkNumber neg (valDigits ds) (ex - Z.of_nat (List.length fp)))
        | _ => None
        end
    end.

Definition parseDecimal (t : text) : option number :=
  match t with
  | c :: r =>
      if Ascii.eqb c "-" then parseUnsignedDecimal true r
      else if Ascii.eqb c "+" then parseUnsignedDecimal false r
      else parseUnsignedDecimal false t
  | [] => None
  end.

(** [Number(s)] for a string [s]: white space is trimmed, the empty string
    is [+0], and a text that is no numeric literal is NaN. *)
Definition StringToNumber (s : string) : number :=
  let t := trim (chars s) in
  match t with
  | [] => Zero false
  | _ =>
      match parseRadix t with
      | Some n => n
      | None =>
          match parseDecimal t with
          | Some n => n
          | None => NaN
          end
      end
  end.

(** ** Values *)

(** The values the program handles: what [JSON.parse] returns, plus
    [undefined].  An object is the list of its own properties in property
    order; none of them is callable. *)
Unset Elimination Schemes.
Inductive value : Type :=
| VUndefined
| VNull
| VBool (b : bool)
| VNum (n : number)
| VStr (s : string)
| VArr (items : list value)
| VObj (props : list (string * value)).
Set Elimination Schemes.

(** Induction on values, with the hypothesis for every item of an array and
    every property of an object. *)
Fixpoint value_ind (P : value -> Prop)
  (Hu : P VUndefined) (Hn : P VNull) (Hb : forall b, P (VBool b))
  (Hm : forall n, P (VNum n)) (Hs : forall s, P (VStr s))
  (Ha : forall items, Forall P items -> P (VArr items))
  (Ho : forall props, Forall (fun p => P (snd p)) props -> P (VObj props))
  (v : value) {struct v} : P v :=
  match v with
  | VUndefined => Hu
  | VNull => Hn
  | VBool b => Hb b
  | VNum n => Hm n
  | VStr s => Hs s
  | VArr items =>
      Ha items
        ((fix all (l : list value) : Forall P l :=
            match l with
            | [] => Forall_nil P
            | x :: r => Forall_cons x (value_ind P Hu Hn Hb Hm Hs Ha Ho x) (all r)
            end) items)
  | VObj props =>
      Ho props
        ((fix all (l : list (string * value)) : Forall (fun p => P (snd p)) l :=
            match l with
            | [] => Forall_nil _
            | x :: r =>
                Forall_cons x (value_ind P Hu Hn Hb Hm Hs Ha Ho (snd x)) (all r)
            end) props)
  end.

Definition getOwn (k : string) (props : list (string * value)) : option value :=
  option_map snd (find (fun p => String.eqb (fst p) k) props).

Definition hasOwn (k : string) (props : list (string * value)) : bool :=
  existsb (fun p => String.eqb (fst p) k) props.

(** The property read [v.k], for the names the program reads (none of them
    is defined by a prototype): reading from [null] or [undefined] throws,
    a missing property is [undefined]. *)
Definition get (v : value) (k : string) : outcome value :=
  match v with
  | VUndefined | VNull => Throw TypeError
  | VObj props =>
      match getOwn k props with
      | Some x => Ok x
      | None => Ok VUndefined
      end
  | _ => Ok VUndefined
  end.

(** [ToBoolean]. *)
Definition truthy (v : value) : bool :=
  match v with
  | VUndefined | VNull => false
  | VBool b => b
  | VNum (NaN | Zero _) => false
  | VNum _ => true
  | VStr s => negb (String.eqb s "")
  | VArr _ | VObj _ => true
  end.

(** The operator [a || b] on values already computed. *)
Definition or_else (a b : value) : value := if truthy a then a else b.

(** The same between two numbers, as in [Number(x) || 0]: NaN and both
    zeros are falsy. *)
Definition numOr (n d : number) : number := if truthy (VNum n) then n else d.

Definition isArray (v : value) : bool :=
  match v with VArr _ => true | _ => false end.

(** [String(v)].  An array is joined with commas, its [null] and
    [undefined] items giving the empty string.  An object goes through
    [ToPrimitive]: [Object.prototype.toString] answers ["[object Object]"]
    unless the object has an own property named [toString], which hides it
    and, not being callable, leaves no way to a primitive: a TypeError. *)
Fixpoint String_ (v : value) : outcome string :=
  match v with
  | VUndefined => Ok "undefined"%string
  | VNull => Ok "null"%string
  | VBool b => Ok (if b then "true" else "false")%string
  | VNum n => Ok (numToString n)
  | VStr s => Ok s
  | VArr items =>
      (fix join (l : list value) : outcome string :=
         match l with
         | [] => Ok ""%string
         | x :: r =>
             a <- match x with
                  | VUndefined | VNull => Ok ""%string
                  | _ => String_ x
                  end ;;
             match r with
             | [] => Ok a
             | _ => b <- join r ;; Ok (a ++ "," ++ b)%string
             end
         end) items
  | VObj props =>
      if hasOwn "toString" props then Throw TypeError
      else Ok "[object Object]"%string
  end.

(** [Number(v)]. *)
Definition Number_ (v : value) : outcome number :=
  match v with
  | VUndefined => Ok NaN
  | VNull => Ok (Zero false)
  | VBool b => Ok (if b then ofZ 1 else Zero false)
  | VNum n => Ok n
  | VStr s => Ok (StringToNumber s)
  | VArr _ | VObj _ => s <- String_ v ;; Ok (StringToNumber s)
  end.

(** ** [JSON.parse] *)

Definition isJsonWs (c : ascii) : bool :=
  let n := code c in (n =? 32) || (n =? 9) || (n =? 10) || (n =? 13).

Fixpoint skipWs (t : text) : text :=
  match t with
  | c :: r => if isJsonWs c then skipWs r else t
  | [] => []
  end.

(** The UTF-8 bytes of a code point (a lone surrogate is written like any
    other three-byte code point). *)
Definition utf8 (cp : Z) : text :=
  let b (z : Z) : ascii := ascii_of_nat (Z.to_nat z) in
  if cp <? 128 then [b cp]
  else if cp <? 2048 then [b (192 + cp / 64); b (128 + cp mod 64)]
  else if cp <? 65536 then
    [b (224 + cp / 4096); b (128 + (cp / 64) mod 64); b (128 + cp mod 64)]
  else
    [b (240 + cp / 262144); b (128 + (cp / 4096) mod 64);
     b (128 + (cp / 64) mod 64); b (128 + cp mod 64)].

Definition hex4 (a b c d : ascii) : option Z := radixVal 16 [a; b; c; d] 0.

Definition simpleEscape (e : ascii) : option ascii :=
  if Ascii.eqb e dquote then Some dquote
  else if Ascii.eqb e "\" then Some "\"%char
  else if Ascii.eqb e "/" then Some "/"%char
  else if Ascii.eqb e "b" then Some (chr 8)
  else if Ascii.eqb e "f" then Some (chr 12)
  else if Ascii.eqb e "n" then Some (chr 10)
  else if Ascii.eqb e "r" then Some (chr 13)
  else if Ascii.eqb e "t" then Some (chr 9)
  else None.

Definition prepend (bs : text) (res : option (text * text)) : option (text * text) :=
  match res with
  | Some (s, r) => Some (bs ++ s, r)
  | None => None
  end.

(** The low half of a surrogate pair written as an escape at the head of
    the text: its value and what follows. *)
Definition lowSurrogate (t : text) : option (Z * text) :=
  match t with
  | s :: u :: a :: b :: c :: d :: r =>
      if Ascii.eqb s "\" && Ascii.eqb u "u" then
        match hex4 a b c d with
        | Some lo => if (56320 <=? lo) && (lo <? 57344) then Some (lo, r) else None
        | None => None
        end
      else None
  | _ => None
  end.

(** The characters of a string literal after its opening quote, up to the
    closing quote: the string they denote and the text after the quote. *)
Fixpoint parseStrBody (fuel : nat) (t : text) : option (text * text) :=
  match fuel with
  | O => None
  | S f =>
      match t with
      | [] => None
      | c :: r =>
          if Ascii.eqb c dquote then Some ([], r)
          else if Ascii.eqb c "\" then
            match r with
            | [] => None
            | e :: r1 =>
                if Ascii.eqb e "u" then
                  match r1 with
                  | a :: b :: c' :: d :: r2 =>
                      match hex4 a b c' d with
                      | None => None
                      | Some hi =>
                          if (55296 <=? hi) && (hi <? 56320) then
                            match lowSurrogate r2 with
                            | Some (lo, r3) =>
                                prepend
                                  (utf8 (65536 + (hi - 55296) * 1024 + (lo - 56320)))
                                  (parseStrBody f r3)
                            | None => prepend (utf8 hi) (parseStrBody f r2)
                            end
                          else prepend (utf8 hi) (parseStrBody f r2)
                      end
                  | _ => None
                  end
                else
                  match simpleEscape e with
                  | Some x => prepend [x] (parseStrBody f r1)
                  | None => None
                  end
            end
          else if code c <? 32 then None
          else prepend [c] (parseStrBody f r)
      end
  end.

Definition parseStr (t : text) : option (string * text) :=
  match parseStrBody (S (List.length t)) t with
  | Some (s, r) => Some (str s, r)
  | None => None
  end.

(** A JSON number after its sign: an integer part without leading zeros,
    an optional fraction and an optional exponent. *)
Definition parseUnsigned (neg : bool) (t1 : text) : option (number * text) :=
  let (ip, r1) := spanDigits t1 in
  let intOk :=
    match ip with
    | [] => false
    | [_] => true
    | c :: _ => negb (Ascii.eqb c "0")
    end in
  if intOk then
    let frac :=
      match r1 with
      | c :: r =>
          if Ascii.eqb c "." then
            let (fp, r2) := spanDigits r in
            match fp with [] => None | _ => Some (fp, r2) end
          else Some ([], r1)
      | [] => Some ([], r1)
      end in
    match frac with
    | Some (fp, r2) =>
        match parseExp r2 with
        | Some (ex, r3) =>
            Some (mkNumber neg (valDigits (ip ++ fp)) (ex - Z.of_nat (List.length fp)), r3)
        | None => None
        end
    | None => None
    end
  else None.

(** A JSON number at the head of the text, with its optional minus. *)
Definition parseNum (t : text) : option (number * text) :=
  match t with
  | c :: r => if Ascii.eqb c "-" then parseUnsigned true r else parseUnsigned false t
  | [] => None
  end.

(** The canonical decimal form of an array index, [0] to [2^32 - 2]. *)
Definition arrayIndex (k : string) : option Z :=
  let t := chars k in
  let n := valDigits t in
  if forallb isDigit t && textEqb (digitsOf n) t && (n <? 4294967295)
  then Some n else None.

(** Where a new property goes in an object: array indices first, in
    ascending order, then the other names in order of creation. *)
Fixpoint insertKey (k : string) (v : value) (props : list (string * value))
  : list (string * value) :=
  match props with
  | [] => [(k, v)]
  | (k', v') :: r =>
      let before :=
        match arrayIndex k, arrayIndex k' with
        | Some i, Some j => i <? j
        | Some _, None => true
        | None, _ => false
        end in
      if before then (k, v) :: props else (k', v') :: insertKey k v r
  end.

Fixpoint replaceKey (k : string) (v : value) (props : list (string * value))
  : list (string * value) :=
  match props with
  | [] => []
  | (k', v') :: r =>
      if String.eqb k' k then (k', v) :: r else (k', v') :: replaceKey k v r
  end.

(** [CreateDataProperty]: a name met again keeps its place and takes the
    new value. *)
Definition setProp (props : list (string * value)) (kv : string * value)
  : list (string * value) :=
  if hasOwn (fst kv) props then replaceKey (fst kv) (snd kv) props
  else insertKey (fst kv) (snd kv) props.

Definition mkObject (members : list (string * value)) : value :=
  VObj (fold_left setProp members []).

Definition dropPrefix (p t : text) : option text :=
  if textEqb (firstn (List.length p) t) p
  then Some (skipn (List.length p) t) else None.

(** One JSON value at the head of the text after white space, and the text
    that follows it.  The fuel bounds the number of nested calls; the length
    of the text is always enough. *)
Fixpoint parseValue (fuel : nat) (t : text) : option (value * text) :=
  match fuel with
  | O => None
  | S f =>
      match skipWs t with
      | [] => None
      | c :: r =>
          if Ascii.eqb c "n" then option_map (pair VNull) (dropPrefix (chars "ull") r)
          else if Ascii.eqb c "t" then
            option_map (pair (VBool true)) (dropPrefix (chars "rue") r)
          else if Ascii.eqb c "f" then
            option_map (pair (VBool false)) (dropPrefix (chars "alse") r)
          else if Ascii.eqb c dquote then
            match parseStr r with
            | Some (s, r') => Some (VStr s, r')
            | None => None
            end
          else if Ascii.eqb c "[" then
            match skipWs r with
            | c' :: r' =>
                if Ascii.eqb c' "]" then Some (VArr [], r')
                else
                  match parseElems f r with
                  | Some (l, r'') => Some (VArr l, r'')
                  | None => None
                  end
            | [] => None
            end
          else if Ascii.eqb c "{" then
            match skipWs r with
            | c' :: r' =>
                if Ascii.eqb c' "}" then Some (VObj [], r')
                else
                  match parseMembers f r with
                  | Some (l, r'') => Some (mkObject l, r'')
                  | None => None
                  end
            | [] => None
            end
          else
            match parseNum (c :: r) with
            | Some (n, r') => Some (VNum n, r')
            | None => None
            end
      end
  end

with parseElems (fuel : nat) (t : text) : option (list value * text) :=
  match fuel with
  | O => None
  | S f =>
      match parseValue f t with
      | Some (v, r) =>
          match skipWs r with
          | c :: r' =>
              if Ascii.eqb c "," then
                match parseElems f r' with
                | Some (l, r'') => Some (v :: l, r'')
                | None => None
                end
              else if Ascii.eqb c "]" then Some ([v], r')
              else None
          | [] => None
          end
      | None => None
      end
  end

with parseMembers (fuel : nat) (t : text) : option (list (string * value) * text) :=
  match fuel with
  | O => None
  | S f =>
      match skipWs t with
      | q :: r0 =>
          if Ascii.eqb q dquote then
            match parseStr r0 with
            | Some (k, r1) =>
                match skipWs r1 with
                | c1 :: r2 =>
                    if Ascii.eqb c1 ":" then
                      match parseValue f r2 with
                      | Some (v, r3) =>
                          match skipWs r3 with
                          | c :: r' =>
                              if Ascii.eqb c "," then
                                match parseMembers f r' with
                                | Some (l, r'') => Some ((k, v) :: l, r'')
                                | None => None
                                end
                              else if Ascii.eqb c "}" then Some ([(k, v)], r')
                              else None
                          | [] => None
                          end
                      | None => None
                      end
                    else None
                | [] => None
                end
            | None => None
            end
          else None
      | [] => None
      end
  end.

(** [JSON.parse(s)]: one value, white space around it and nothing else;
    [None] stands for the SyntaxError. *)
Definition JSON_parse (s : string) : option value :=
  let t := chars s in
  match parseValue (S (List.length t)) t with
  | Some (v, r) => match skipWs r with [] => Some v | _ => None end
  | None => None
  end.

(** ** [JSON.stringify] *)

Definition hexChar (d : Z) : ascii :=
  if d <? 10 then digitChar d else ascii_of_nat (Z.to_nat (87 + d)).

(** [QuoteJSONString], one character at a time.  (A lone surrogate, which
    the platform writes as an escape, is written here by its bytes.) *)
Definition escapeChar (c : ascii) : text :=
  let n := code c in
  if Ascii.eqb c dquote then ["\"%char; dquote]
  else if Ascii.eqb c "\" then chars "\\"
  else if n =? 8 then chars "\b"
  else if n =? 12 then chars "\f"
  else if n =? 10 then chars "\n"
  else if n =? 13 then chars "\r"
  else if n =? 9 then chars "\t"
  else if n <? 32 then chars "\u00" ++ [hexChar (n / 16); hexChar (n mod 16)]
  else [c].

Definition quote (s : string) : text :=
  dquote :: flat_map escapeChar (chars s) ++ [dquote].

Definition isFinite (n : number) : bool :=
  match n with
  | Zero _ | Fin _ _ _ _ => true
  | _ => false
  end.

Definition isUndefined (v : value) : bool :=
  match v with VUndefined => true | _ => false end.

Fixpoint joinText (sep : text) (parts : list text) : text :=
  match parts with
  | [] => []
  | [p] => p
  | p :: r => p ++ sep ++ joinText sep r
  end.

(** [SerializeJSONProperty] with no replacer and no indentation: a number
    that is not finite is written [null], an [undefined] item of an array
    too, and an [undefined] property of an object is left out. *)
Fixpoint serialize (v : value) : text :=
  match v with
  | VUndefined | VNull => chars "null"
  | VBool b => chars (if b then "true" else "false")
  | VNum n => if isFinite n then numToText n else chars "null"
  | VStr s => quote s
  | VArr items => chars "[" ++ joinText (chars ",") (map serialize items) ++ chars "]"
  | VObj props =>
      chars "{" ++
      joinText (chars ",")
        ((fix members (l : list (string * value)) : list text :=
            match l with
            | [] => []
            | (k, x) :: r =>
                if isUndefined x then members r
                else (quote k ++ chars ":" ++ serialize x) :: members r
            end) props) ++
      chars "}"
  end.

(** [JSON.stringify(v)]; [None] is the [undefined] it returns for
    [undefined]. *)
Definition JSON_stringify (v : value) : option string :=
  match v with
  | VUndefined => None
  | _ => Some (str (serialize v))
  end.

(** ** The response parser ([src/gemini.ts]) *)

(** The part of an [AnalysisResult] that the parser makes:
    [Omit<AnalysisResult, 'timestamp' | 'imageUrl' | 'ageGroup'>], less the
    [age] it never sets. *)
Record Analysis : Type := mkAnalysis {
  type : string;
  stage : string;
  severity : number;
  precautions : list string;
  meds : list string
}.

(** [function clamp(n, min, max) { return Math.max(min, Math.min(max, n)); }] *)
Definition clamp (n min max : number) : number :=
  Math_max min (Math_min max n).

Definition nonEmpty (s : string) : bool := negb (String.eqb s "").

(** [function toStrArray(v) { return Array.isArray(v) ? v.map(String).filter(Boolean) : []; }] *)
Definition toStrArray (v : value) : outcome (list string) :=
  match v with
  | VArr items => l <- mapM String_ items ;; Ok (filter nonEmpty l)
  | _ => Ok []
  end.

(** [Array.prototype.slice(0, n)]. *)
Definition slice0 {A : Type} (n : nat) (l : list A) : list A := firstn n l.

(** The five field expressions of the object literal that
    [parseModelResponse] returns, each over the raw value of the field. *)

(** [String(x || 'Other')] and [String(x || 'Unknown')]. *)
Definition labelOf (dflt : string) (x : value) : outcome string :=
  String_ (or_else x (VStr dflt)).

(** [clamp(Number(x) || 0, 0, 100)]. *)
Definition severityOf (x : value) : outcome number :=
  n <- Number_ x ;; Ok (clamp (numOr n (Zero false)) (Zero false) (ofZ 100)).

(** [toStrArray(x).slice(0, 4)]. *)
Definition listOf (x : value) : outcome (list string) :=
  l <- toStrArray x ;; Ok (slice0 4 l).

(** The object literal, its fields evaluated in order from the parsed
    [json]. *)
Definition normalize (json : value) : outcome Analysis :=
  ty <- (x <- get json "type" ;; labelOf "Other" x) ;;
  sg <- (x <- get json "stage" ;; labelOf "Unknown" x) ;;
  sv <- (x <- get json "severity" ;; severityOf x) ;;
  pr <- (x <- get json "precautions" ;; listOf x) ;;
  md <- (x <- get json "meds" ;; listOf x) ;;
  Ok (mkAnalysis ty sg sv pr md).

(** The longest prefix of the text that ends in a closing brace: what
    [[\s\S]*\}] matches, the star taking all it can and giving back until a
    brace follows. *)
Fixpoint lastClose (t : text) : option text :=
  match t with
  | [] => None
  | c :: r =>
      match lastClose r with
      | Some p => Some (c :: p)
      | None => if Ascii.eqb c "}" then Some [c] else None
      end
  end.

(** [text.match(/\{[\s\S]*\}/)]: the match is tried at each position from
    the left; [None] is the [null] of no match, [Some m] is [match[0]]. *)
Fixpoint matchJson (t : text) : option text :=
  match t with
  | [] => None
  | c :: r =>
      if Ascii.eqb c "{" then
        match lastClose r with
        | Some p => Some (c :: p)
        | None => matchJson r
        end
      else matchJson r
  end.

(** [function parseModelResponse(text: string)]. *)
Definition parseModelResponse (response : string) : outcome Analysis :=
  match matchJson (chars response) with
  | None => Throw NoJsonFound
  | Some m =>
      match JSON_parse (str m) with
      | None => Throw MalformedResponse
      | Some json => normalize json
      end
  end.

(** ** The request ([src/gemini.ts]) *)

Record File : Type := mkFile {
  bytes : string;
  fileType : string;
  (** the URL that [URL.createObjectURL] made for the file *)
  objectUrl : string
}.

(** What [generateContent] is given: the prompt and the inline data (which
    the source sends in base64). *)
Record Request : Type := mkRequest {
  prompt : string;
  data : string;
  mimeType : string
}.

(** What the endpoint does with a request: it answers with a text, or the
    call fails with a cause. *)
Inductive Response : Type :=
| Answer (body : string)
| Failure (cause : string).

(** What the run of one submit action depends on and does not decide. *)
Record Env : Type := mkEnv {
  (** [import.meta.env.VITE_GEMINI_API_KEY] *)
  apiKey : option string;
  endpoint : Request -> Response;
  (** [Date.now()] *)
  now : number;
  (** whether [localStorage.setItem] throws for want of room *)
  storageFull : bool
}.

Definition promptHead : string :=
  "You are HealScan AI, a wound recognition assistant. Analyze the wound in the image and respond ONLY in valid JSON matching this schema:
{
  'type': 'string (one of: Burn, Cut, Diabetic Foot Ulcer, Infected Wound, Other)',
  'stage': 'string (Inflammatory | Proliferative | Maturation | Unknown)',
  'severity': 'integer 0-100 (overall severity considering risk)',
  'precautions': ['3-4 concise bullet points'],
  'meds': ['3-4 concise, non-repetitive care and medicine suggestions']
}
Age of patient: ".

Definition promptTail : string :=
  ". Tailor advice to age group: Child (<=12), Adult (13-59), Elderly (>=60). Avoid duplicates. No prose outside JSON.".

(** [function buildPrompt(age?: number)]; [age ?? 'unknown'] is printed
    into the template. *)
Definition buildPrompt (age : option number) : string :=
  (dq promptHead
   ++ match age with Some a => numToString a | None => "unknown" end
   ++ promptTail)%string.

(** [export async function analyzeWithGemini({ file, age })]. *)
Definition analyzeWithGemini (env : Env) (file : File) (age : option number)
  : outcome Analysis :=
  match apiKey env with
  | None => Throw ConfigurationError
  | Some key =>
      if String.eqb key "" then Throw ConfigurationError
      else
        let mime := if String.eqb (fileType file) "" then "image/jpeg"%string
                    else fileType file in
        match endpoint env (mkRequest (buildPrompt age) (bytes file) mime) with
        | Failure cause => Throw (AnalysisFailed cause)
        | Answer body => parseModelResponse body
        end
  end.

(** ** The application ([src/App.tsx]) *)

(** [function toAgeGroup(age?: number)]. *)
Definition toAgeGroup (age : option number) : string :=
  match age with
  | None => "Any Age"
  | Some a =>
      if isNaN a then "Any Age"
      else if numLe a (ofZ 12) then "Child"
      else if numGe a (ofZ 60) then "Elderly"
      else "Adult"
  end.

Definition ofOption (o : option number) : value :=
  match o with Some n => VNum n | None => VUndefined end.

Definition strings (l : list string) : value := VArr (map VStr l).

(** The object literal
    [{ ...res, timestamp: Date.now(), imageUrl, age: ..., ageGroup }]. *)
Definition mkEntry (res : Analysis) (timestamp : number) (imageUrl : string)
    (age : option number) (ageGroup : string) : value :=
  VObj [("type"%string, VStr (type res));
        ("stage"%string, VStr (stage res));
        ("severity"%string, VNum (severity res));
        ("precautions"%string, strings (precautions res));
        ("meds"%string, strings (meds res));
        ("timestamp"%string, VNum timestamp);
        ("imageUrl"%string, VStr imageUrl);
        ("age"%string, ofOption age);
        ("ageGroup"%string, VStr ageGroup)].

(** [localStorage]: the string under the key ['healscan_history'], if any. *)
Definition Storage := option string.

(** [function saveHistory(list: AnalysisResult[])], [list] being an array;
    the storage after the call. *)
Definition saveHistory (list : list value) : Storage :=
  JSON_stringify (VArr list).

(** [function readHistory()]: a missing or empty item reads as ['[]'], and
    a text that does not parse gives the empty array. *)
Definition readHistory (ls : Storage) : value :=
  let s := match ls with
           | Some s => if String.eqb s "" then "[]"%string else s
           | None => "[]"%string
           end in
  match JSON_parse s with
  | Some v => v
  | None => VArr []
  end.

Inductive TabKey : Type := TabResults | TabHistory | TabExamples | TabReports.

(** The state of the [App] component.  [result] is [null] or a record;
    [history] is whatever [readHistory] returned, under the array that the
    submit action builds over it. *)
Record AppState : Type := mkAppState {
  activeTab : TabKey;
  file : option File;
  age : string;
  busy : bool;
  thinking : string;
  result : value;
  history : value
}.

(** The component and the storage it writes to. *)
Record World : Type := mkWorld {
  ui : AppState;
  localStorage : Storage
}.

(** The component as it mounts over a storage. *)
Definition mount (ls : Storage) : World :=
  mkWorld (mkAppState TabResults None EmptyString false EmptyString VNull
             (readHistory ls))
          ls.

(** The length in bytes of the character that starts with the byte [c]. *)
Definition charLen (c : ascii) : nat :=
  let n := code c in
  if (192 <=? n) && (n <? 224) then 2%nat
  else if (224 <=? n) && (n <? 240) then 3%nat
  else if (240 <=? n) && (n <? 248) then 4%nat
  else 1%nat.

Fixpoint codePoints (fuel : nat) (t : text) : list string :=
  match fuel with
  | O => []
  | S f =>
      match t with
      | [] => []
      | c :: _ => str (firstn (charLen c) t) :: codePoints f (skipn (charLen c) t)
      end
  end.

(** The items that the spread [...v] yields: those of an array, the
    characters of a string; the other values of the model are not
    iterable. *)
Definition spread (v : value) : outcome (list value) :=
  match v with
  | VArr items => Ok items
  | VStr s => Ok (map VStr (codePoints (String.length s) (chars s)))
  | _ => Throw TypeError
  end.

(** What the user is told with [alert]. *)
Inductive notice : Type :=
| PleaseSelectAnImage
| Failed (e : error).

(** [async function onAnalyze()], run from its start to the end of its
    [finally]: the world after it and the alert it raised, if any.  The state
    setters take effect in the order they are called, so what was set before
    an exception stays set. *)
Definition onAnalyze (env : Env) (w : World) : World * option notice :=
  let s := ui w in
  match file s with
  | None => (w, Some PleaseSelectAnImage)
  | Some f =>
      let ageNum := StringToNumber (age s) in
      let ageGroup := toAgeGroup (Some ageNum) in
      let ageArg := if isNaN ageNum then None else Some ageNum in
      let settled (tab : TabKey) (res hist : value) : AppState :=
        mkAppState tab (file s) (age s) false EmptyString res hist in
      match analyzeWithGemini env f ageArg with
      | Throw e =>
          (mkWorld (settled (activeTab s) (result s) (history s)) (localStorage w),
           Some (Failed e))
      | Ok res =>
          let entry := mkEntry res (now env) (objectUrl f) ageArg ageGroup in
          match spread (history s) with
          | Throw e =>
              (mkWorld (settled (activeTab s) entry (history s)) (localStorage w),
               Some (Failed e))
          | Ok items =>
              let updated := slice0 25 (entry :: items) in
              if storageFull env then
                (mkWorld (settled (activeTab s) entry (VArr updated)) (localStorage w),
                 Some (Failed QuotaExceeded))
              else
                (mkWorld (settled TabResults entry (VArr updated)) (saveHistory updated),
                 None)
          end
      end
  end.

(** The [onSelect] of the history view: [history[idx]], shown if there is
    one.  The view lists the items of an array. *)
Definition onSelect (idx : nat) (w : World) : World :=
  let s := ui w in
  match history s with
  | VArr items =>
      match nth_error items idx with
      | Some it =>
          if truthy it then
            mkWorld (mkAppState TabResults (file s) (age s) (busy s) (thinking s)
                       it (history s))
                    (localStorage w)
          else w
      | None => w
      end
  | _ => w
  end.

(** What happens to the application. *)
Inductive event : Type :=
| PickFile (f : option File)
| TypeAge (a : string)
| ShowTab (k : TabKey)
| Select (idx : nat)
| Analyze (env : Env)
| Reload.

Definition step (w : World) (ev : event) : World :=
  let s := ui w in
  match ev with
  | PickFile f =>
      mkWorld (mkAppState (activeTab s) f (age s) (busy s) (thinking s)
                 (result s) (history s)) (localStorage w)
  | TypeAge a =>
      mkWorld (mkAppState (activeTab s) (file s) a (busy s) (thinking s)
                 (result s) (history s)) (localStorage w)
  | ShowTab k =>
      mkWorld (mkAppState k (file s) (age s) (busy s) (thinking s)
                 (result s) (history s)) (localStorage w)
  | Select idx => onSelect idx w
  | Analyze env => fst (onAnalyze env w)
  | Reload => mount (localStorage w)
  end.

Definition run (w : World) (evs : list event) : World := fold_left step evs w.

(** ** The specification's words *)

(** The vocabularies of the data model. *)
Definition typeVocabulary : list string :=
  ["Burn"; "Cut"; "Diabetic Foot Ulcer"; "Infected Wound"; "Other"]%string.

Definition stageVocabulary : list string :=
  ["Inflammatory"; "Proliferative"; "Maturation"; "Unknown"]%string.

(** [numberOr(s, d)]: [s] coerced to a number, [d] when the coercion gives
    no number. *)
Definition numberOr (s : value) (d : number) : outcome number :=
  n <- Number_ s ;; Ok (if isNaN n then d else n).

(** The first [n] entries that are not empty, in their order. *)
Fixpoint firstValid (n : nat) (l : list string) : list string :=
  match n, l with
  | O, _ => []
  | _, [] => []
  | S k, s :: r => if nonEmpty s then s :: firstValid k r else firstValid n r
  end.

(** The place of the first [c] in a text, and of the last. *)
Fixpoint indexOf (c : ascii) (t : text) : option nat :=
  match t with
  | [] => None
  | x :: r => if Ascii.eqb x c then Some O else option_map S (indexOf c r)
  end.

Fixpoint lastIndexOf (c : ascii) (t : text) : option nat :=
  match t with
  | [] => None
  | x :: r =>
      match lastIndexOf c r with
      | Some j => Some (S j)
      | None => if Ascii.eqb x c then Some O else None
      end
  end.

(** The characters at the places [i] to [j], both included. *)
Definition substring (i j : nat) (t : text) : text := firstn (j - i + 1) (skipn i t).

(** The substring from the first opening brace of the text to its last
    closing brace, when the one comes before the other. *)
Definition braceSpan (t : text) : option text :=
  match indexOf "{" t, lastIndexOf "}" t with
  | Some i, Some j => if (i <? j)%nat then Some (substring i j t) else None
  | _, _ => None
  end.

(** The constraints of the data model on a record as it is read from an
    object: a severity between 0 and 100, and lists of at most four
    strings, none of them empty. *)
Definition isShortList (v : value) : bool :=
  match v with
  | VArr items =>
      (List.length items <=? 4)%nat
      && forallb (fun x => match x with VStr s => nonEmpty s | _ => false end) items
  | _ => false
  end.

Definition inRange (v : value) : bool :=
  match v with
  | VNum n => numLe (Zero false) n && numLe n (ofZ 100)
  | _ => false
  end.

Definition field (k : string) (v : value) : value :=
  match v with
  | VObj props => match getOwn k props with Some x => x | None => VUndefined end
  | _ => VUndefined
  end.

Definition constrained (v : value) : bool :=
  inRange (field "severity" v)
  && isShortList (field "precautions" v)
  && isShortList (field "meds" v).
(** What may follow a value inside a JSON text: the end, a comma or a
    closing bracket or brace. *)
Definition okRest (rest : text) : bool :=
  match rest with
  | [] => true
  | c :: _ => Ascii.eqb c "," || Ascii.eqb c "]" || Ascii.eqb c "}"
  end.

(** An integer part is well formed: one digit, or more with no leading zero. *)
Definition intOk (ip : text) : bool :=
  match ip with
  | [] => false
  | [_] => true
  | c :: _ => negb (Ascii.eqb c "0")
  end.

(** A text at which the digits of a number part stop: it does not start
    with a digit or a point. *)
Definition stopsDigits (t : text) : bool :=
  match t with
  | [] => true
  | c :: _ => negb (isDigit c) && negb (Ascii.eqb c ".")
  end.

(** The number that the text of a finite number denotes: the number
    itself, but for the sign of a zero. *)
Definition storedNum (n : number) : number :=
  match n with
  | Zero _ => Zero false
  | _ => n
  end.

(** ** Values as they are stored *)

(** The properties that [JSON.stringify] writes: those that are not
    [undefined]. *)
Definition definedProps (props : list (string * value)) : list (string * value) :=
  filter (fun p => negb (isUndefined (snd p))) props.

(** The value that the JSON text of a value denotes: [undefined] and the
    numbers that are not finite have become [null], [-0] has become [0],
    and the [undefined] properties are gone. *)
Fixpoint stored (v : value) : value :=
  match v with
  | VUndefined | VNull => VNull
  | VBool b => VBool b
  | VNum n => if isFinite n then VNum (storedNum n) else VNull
  | VStr s => VStr s
  | VArr items => VArr (map stored items)
  | VObj props =>
      VObj ((fix members (l : list (string * value)) : list (string * value) :=
               match l with
               | [] => []
               | (k, x) :: r =>
                   if isUndefined x then members r else (k, stored x) :: members r
               end) props)
  end.

Fixpoint distinct (ks : list string) : bool :=
  match ks with
  | [] => true
  | k :: r => negb (existsb (String.eqb k) r) && distinct r
  end.

(** Names that an object keeps in the order they were written: no name
    twice, and no array index. *)
Definition keysOk (ks : list string) : bool :=
  distinct ks
  && forallb (fun k => match arrayIndex k with None => true | Some _ => false end) ks.

(** A value all of whose objects have such names. *)
Fixpoint plain (v : value) : bool :=
  match v with
  | VArr items => forallb plain items
  | VObj props =>
      keysOk (map fst (definedProps props))
      && forallb (fun p => plain (snd p)) props
  | _ => true
  end.

(** A bound on the calls that parsing the text of a value takes. *)
Fixpoint size (v : value) : nat :=
  match v with
  | VArr items =>
      S ((fix sizes (l : list value) : nat :=
            match l with
            | [] => O
            | x :: r => S (size x + sizes r)
            end) items)
  | VObj props =>
      S ((fix sizes (l : list (string * value)) : nat :=
            match l with
            | [] => O
            | (_, x) :: r =>
                if isUndefined x then sizes r else S (size x + sizes r)
            end) props)
  | _ => 1%nat
  end.

Fixpoint sizeItems (l : list value) : nat :=
  match l with
  | [] => O
  | x :: r => S (size x + sizeItems r)
  end.

Fixpoint sizeProps (l : list (string * value)) : nat :=
  match l with
  | [] => O
  | p :: r => S (size (snd p) + sizeProps r)
  end.

(** The text of a property that is written. *)
Definition memberText (p : string * value) : text :=
  quote (fst p) ++ chars ":" ++ serialize (snd p).

Definition storedMember (p : string * value) : string * value :=
  (fst p, stored (snd p)).

(** The text of a value, followed by what may follow a value, parses to
    the stored form of the value. *)
Definition readsBack (v : value) : Prop :=
  forall (fuel : nat) (rest : text),
    (size v <= fuel)%nat -> okRest rest = true ->
    parseValue fuel (serialize v ++ rest) = Some (stored v, rest).

(** The string form of an item of an array that is joined, and the join. *)
Definition itemText (x : value) : outcome string :=
  match x with
  | VUndefined | VNull => Ok EmptyString
  | _ => String_ x
  end.

Fixpoint joinItems (l : list value) : outcome string :=
  match l with
  | [] => Ok EmptyString
  | x :: r =>
      a <- itemText x ;;
      match r with
      | [] => Ok a
      | _ => b <- joinItems r ;; Ok (a ++ "," ++ b)%string
      end
  end.

(** A value whose string form cannot be taken: an object with an own
    property named [toString] (which hides [Object.prototype.toString] and
    is not callable), or an array that holds such a value. *)
Fixpoint hidesToString (v : value) : bool :=
  match v with
  | VObj props => hasOwn "toString" props
  | VArr items => existsb hidesToString items
  | _ => false
  end.

(** A raw list none of whose items is such a value. *)
Definition itemsCoercible (x : value) : bool :=
  match x with
  | VArr items => negb (existsb hidesToString items)
  | _ => true
  end.

(** ** Sample data *)

Definition sampleFile : File := mkFile "bytes" "image/png" "blob:healscan/1".

(** The reply of scenario A. *)
Definition sampleReply : string :=
  dq "Sure! ```json
{'type':'Burn','stage':'Inflammatory','severity':150,'precautions':['a','','b'],'meds':[]}
```".

Definition sampleEnv : Env :=
  mkEnv (Some "key"%string) (fun _ => Answer sampleReply) (ofZ 1700000000000) false.

Definition sampleAnalysis : Analysis :=
  mkAnalysis "Burn" "Inflammatory" (ofZ 100) ["a"; "b"]%string [].

Definition emptyAgeWorld : World := step (mount None) (PickFile (Some sampleFile)).

(** The text of a value starts with a character that is no white space and
    closes nothing. *)
Definition opensValue (c : ascii) : Prop :=
  isJsonWs c = false /\ Ascii.eqb c "]" = false /\ Ascii.eqb c "}" = false.

(** ** What the submit action records *)

(** [isNaN(ageNum) ? undefined : ageNum], over the text of the age field. *)
Definition ageArgument (a : string) : option number :=
  if isNaN (StringToNumber a) then None else Some (StringToNumber a).

(** The record that the submit action makes in a state of the component,
    when there is a file and the analysis answers. *)
Definition entryOf (env : Env) (s : AppState) : option value :=
  match file s with
  | Some f =>
      match analyzeWithGemini env f (ageArgument (age s)) with
      | Ok res =>
          Some (mkEntry res (now env) (objectUrl f) (ageArgument (age s))
                  (toAgeGroup (Some (StringToNumber (age s)))))
      | Throw _ => None
      end
  | None => None
  end.

(** The records that the submit actions of a run make, in the order they
    are made. *)
Fixpoint recorded (w : World) (evs : list event) : list value :=
  match evs with
  | [] => []
  | ev :: r =>
      match ev with
      | Analyze env =>
          match entryOf env (ui w) with
          | Some e => [e]
          | None => []
          end
      | _ => []
      end ++ recorded (step w ev) r
  end.

(** A run within one session: the page is not reloaded. *)
Definition inSession (evs : list event) : bool :=
  forallb (fun ev => match ev with Reload => false | _ => true end) evs.

(** A record as the data model has it, with the fields that the submit
    action adds to an analysis. *)
Record AnalysisResult : Type := mkAnalysisResult {
  analysis : Analysis;
  timestamp : number;
  imageUrl : string;
  patientAge : option number;
  ageGroup : string
}.

Definition toValue (r : AnalysisResult) : value :=
  mkEntry (analysis r) (timestamp r) (imageUrl r) (patientAge r) (ageGroup r).

(** A number that JSON text holds as it is: finite, and not [-0]. *)
Definition storable (n : number) : bool := isFinite n && negb (isNegZero n).

Definition storableResult (r : AnalysisResult) : bool :=
  storable (severity (analysis r))
  && storable (timestamp r)
  && match patientAge r with Some a => storable a | None => true end.

(** What holds of each record of the store: its object is plain and it
    meets the constraints of the data model. *)
Definition good (v : value) : bool := plain v && constrained v.

Definition goodList (l : list value) : Prop :=
  (List.length l <= 25)%nat /\ Forall (fun v => good v = true) l.

(** The invariant of the application from a fresh start: the history is an
    array of at most 25 good records, and the storage is empty or holds the
    text of such an array. *)
Definition invariant (w : World) : Prop :=
  (exists items, history (ui w) = VArr items /\ goodList items) /\
  (localStorage w = None \/
   exists items, localStorage w = saveHistory items /\ goodList items).

(** ** More sample data *)

(** The world once a file is picked and the age 34 typed. *)
Definition sampleWorld : World :=
  run (mount None) [PickFile (Some sampleFile); TypeAge "34"].

(** An environment that answers as in scenario A at the instant [i]. *)
Definition envAt (i : Z) : Env :=
  mkEnv (Some "key"%string) (fun _ => Answer sampleReply) (ofZ i) false.

Definition instants : list Z :=
  [1; 2; 3; 4; 5; 6; 7; 8; 9; 10; 11; 12; 13; 14; 15; 16; 17; 18; 19; 20;
   21; 22; 23; 24; 25; 26].

(** Twenty-six submit actions, the age changed after the tenth. *)
Definition sampleSession : list event :=
  map (fun i => Analyze (envAt i)) (firstn 10 instants)
  ++ [TypeAge "61"; ShowTab TabHistory]
  ++ map (fun i => Analyze (envAt i)) (skipn 10 instants).

(** An environment with no credential, and one whose endpoint answers
    with no JSON. *)
Definition envNoKey : Env :=
  mkEnv None (fun _ => Answer sampleReply) (ofZ 1700000000000) false.

Definition envProse : Env :=
  mkEnv (Some "key"%string) (fun _ => Answer "I cannot tell from this image.")
    (ofZ 1700000000000) false.

(** A record with an age that is not finite. *)
Definition ageless : AnalysisResult :=
  mkAnalysisResult sampleAnalysis (ofZ 1700000000000) "blob:healscan/1"
    (Some (Inf false)) "Elderly".

Definition sampleResult : AnalysisResult :=
  mkAnalysisResult sampleAnalysis (ofZ 1700000000000) "blob:healscan/1"
    None "Any Age".

(** ** The inline data ([src/gemini.ts]) *)

(** The alphabet of base64. *)
Definition base64Alphabet : text :=
  chars "ABCDEFGHIJKLMNOPQRSTUVWXYZabcdefghijklmnopqrstuvwxyz0123456789+/".

Definition bit (b : bool) : nat := if b then 1%nat else 0%nat.

(** The character for a group of six bits, the most significant first. *)
Definition sextetChar (b5 b4 b3 b2 b1 b0 : bool) : ascii :=
  nth (32 * bit b5 + 16 * bit b4 + 8 * bit b3 + 4 * bit b2 + 2 * bit b1 + bit b0)%nat
      base64Alphabet "A"%char.

(** [btoa] of a binary string, each character of which is one byte: three
    bytes give four characters, and an incomplete last group is filled with
    zero bits and padded with [=]. *)
Fixpoint btoa (binary : text) : text :=
  match binary with
  | [] => []
  | [Ascii a0 a1 a2 a3 a4 a5 a6 a7] =>
      [sextetChar a7 a6 a5 a4 a3 a2; sextetChar a1 a0 false false false false;
       "="%char; "="%char]
  | [Ascii a0 a1 a2 a3 a4 a5 a6 a7; Ascii b0 b1 b2 b3 b4 b5 b6 b7] =>
      [sextetChar a7 a6 a5 a4 a3 a2; sextetChar a1 a0 b7 b6 b5 b4;
       sextetChar b3 b2 b1 b0 false false; "="%char]
  | Ascii a0 a1 a2 a3 a4 a5 a6 a7 :: Ascii b0 b1 b2 b3 b4 b5 b6 b7
      :: Ascii c0 c1 c2 c3 c4 c5 c6 c7 :: r =>
      sextetChar a7 a6 a5 a4 a3 a2 :: sextetChar a1 a0 b7 b6 b5 b4
        :: sextetChar b3 b2 b1 b0 c7 c6 :: sextetChar c5 c4 c3 c2 c1 c0 :: btoa r
  end.

(** [function base64FromBytes(bytes: Uint8Array)]: the loop appends
    [String.fromCharCode(bytes[i])] to [binary] for each byte in turn. *)
Definition base64FromBytes (bytes : string) : string :=
  let binary := fold_left (fun acc b => acc ++ [b]) (chars bytes) [] in
  str (btoa binary).

(** The six bits of a base64 character, the most significant first. *)
Definition sextetOf (c : ascii) : option (bool * bool * bool * bool * bool * bool) :=
  match indexOf c base64Alphabet with
  | Some n =>
      Some (Nat.testbit n 5, Nat.testbit n 4, Nat.testbit n 3,
            Nat.testbit n 2, Nat.testbit n 1, Nat.testbit n 0)
  | None => None
  end.

(** The bytes that a padded base64 text stands for. *)
Fixpoint base64Decode (t : text) : option text :=
  match t with
  | [] => Some []
  | c1 :: c2 :: c3 :: c4 :: r =>
      match sextetOf c1, sextetOf c2 with
      | Some (a7, a6, a5, a4, a3, a2), Some (a1, a0, b7, b6, b5, b4) =>
          let a := Ascii a0 a1 a2 a3 a4 a5 a6 a7 in
          if Ascii.eqb c4 "=" then
            match r with
            | [] =>
                if Ascii.eqb c3 "=" then Some [a]
                else
                  match sextetOf c3 with
                  | Some (b3, b2, b1, b0, _, _) =>
                      Some [a; Ascii b0 b1 b2 b3 b4 b5 b6 b7]
                  | None => None
                  end
            | _ => None
            end
          else
            match sextetOf c3, sextetOf c4 with
            | Some (b3, b2, b1, b0, c7, c6), Some (c5, c4', c3', c2', c1', c0) =>
                match base64Decode r with
                | Some rest =>
                    Some (a :: Ascii b0 b1 b2 b3 b4 b5 b6 b7
                            :: Ascii c0 c1' c2' c3' c4' c5 c6 c7 :: rest)
                | None => None
                end
            | _, _ => None
            end
      | _, _ => None
      end
  | _ => None
  end.

(** ** Text that shows *)

(** A character of ASCII that shows: no blank and no control character. *)
Definition graphic (c : ascii) : bool := (33 <=? code c) && (code c <=? 126).

(** A text in which the character [c] does not occur. *)
Definition lacks (c : ascii) (s : string) : bool :=
  forallb (fun x => negb (Ascii.eqb x c)) (chars s).

(** ** Records and payloads *)

(** The payload that the prompt asks for, holding the record [r]. *)
Definition payload (r : Analysis) : value :=
  VObj [("type"%string, VStr (type r));
        ("stage"%string, VStr (stage r));
        ("severity"%string, VNum (severity r));
        ("precautions"%string, strings (precautions r));
        ("meds"%string, strings (meds r))].

(** A record that the normalisation leaves as it is: labels that are not
    empty, a severity from 0 to 100 that is not [-0], and lists of at most
    four strings, none of them empty. *)
Definition settled (r : Analysis) : bool :=
  nonEmpty (type r) && nonEmpty (stage r)
  && inRange (VNum (severity r)) && negb (isNegZero (severity r))
  && isShortList (strings (precautions r))
  && isShortList (strings (meds r)).

(** ** The request and the credential *)

(** The request that [analyzeWithGemini] makes for a file and an age.  Its
    inline data are the bytes of the file: they stand for the base64 text
    that the source sends, which determines them and is determined by
    them. *)
Definition requestFor (file : File) (age : option number) : Request :=
  mkRequest (buildPrompt age) (bytes file)
    (if String.eqb (fileType file) "" then "image/jpeg"%string else fileType file).

(** The credential is there: [apiKey] is a string that is not empty. *)
Definition keyed (env : Env) : Prop :=
  exists key, apiKey env = Some key /\ key <> EmptyString.

(** ** Runs of the application *)

(** No write to the storage fails during the run. *)
Definition writesSucceed (evs : list event) : bool :=
  forallb (fun ev => match ev with
                     | Analyze env => negb (storageFull env)
                     | _ => true
                     end) evs.

(** The history in memory and the storage hold the same records. *)
Definition inStep (w : World) : Prop :=
  exists items,
    history (ui w) = VArr items /\
    Forall (fun v => plain v = true) items /\
    (localStorage w = saveHistory items \/ (localStorage w = None /\ items = [])).

(** No record is shown, or the record shown is one of the history. *)
Definition shownInHistory (w : World) : Prop :=
  result (ui w) = VNull \/
  exists items, history (ui w) = VArr items /\ In (result (ui w)) items.

(** The [timestamp] of a record. *)
Definition timestampOf (v : value) : number :=
  match field "timestamp" v with VNum n => n | _ => NaN end.

(** The instants that [Date.now()] gives to the submit actions of a run,
    in their order. *)
Definition clockTicks (evs : list event) : list number :=
  flat_map (fun ev => match ev with Analyze env => [now env] | _ => [] end) evs.

(** Each number of the list is [<=] the next one; each is [>=] the next
    one. *)
Fixpoint ascending (l : list number) : bool :=
  match l with
  | a :: r => match r with b :: _ => numLe a b | [] => true end && ascending r
  | [] => true
  end.

Fixpoint descending (l : list number) : bool :=
  match l with
  | a :: r => match r with b :: _ => numGe a b | [] => true end && descending r
  | [] => true
  end.

Definition leq (a b : number) : Prop := numLe a b = true.
Definition geq (a b : number) : Prop := numLe b a = true.

(** ** Further sample data *)

(** An environment that answers as in scenario A while the storage has no
    room left. *)
Definition envFull : Env :=
  mkEnv (Some "key"%string) (fun _ => Answer sampleReply) (ofZ 1700000000000) true.

(** A session with a reload of the page in it. *)
Definition reloadSession : list event :=
  [PickFile (Some sampleFile); TypeAge "34"; Analyze sampleEnv; Reload;
   PickFile (Some sampleFile); Analyze sampleEnv; Select 1%nat].

(** The sample session from a fresh start. *)
Definition fullSession : list event :=
  [PickFile (Some sampleFile); TypeAge "34"] ++ sampleSession.

(** A storage whose text was cut short. *)
Definition corruptStorage : Storage := Some (dq "[{'type':'Burn'")%string.

(** A history that is no list and that the views can still show: a boolean,
    a number or an object, as [readHistory] may return them. *)
Definition notAList (v : value) : bool :=
  match v with
  | VBool _ | VNum _ | VObj _ => true
  | _ => false
  end.

(** A storage that holds an object, and a session over it. *)
Definition objectStorage : Storage := Some (dq "{'severity':500}").

Definition shortSession : list event :=
  [PickFile (Some sampleFile); Analyze sampleEnv; ShowTab TabHistory].

(** ** The age field and the records that are reloaded *)

(** The age field of the source is a number field: the value that it hands
    to [onChange], the text of [TypeAge], is the empty string or a valid
    floating-point number of HTML, that is an optional minus, digits or a
    point followed by digits or both, and an optional exponent.  The runs
    over all texts include the runs over these. *)
Definition numberFieldText (a : string) : bool :=
  match chars a with
  | [] => true
  | c :: r =>
      let t := if Ascii.eqb c "-" then r else c :: r in
      let (ip, r1) := spanDigits t in
      let (fp, r2) :=
        match r1 with
        | p :: r' => if Ascii.eqb p "." then spanDigits r' else ([], r1)
        | [] => ([], r1)
        end in
      let pointOk :=
        match r1, fp with
        | p :: _, [] => negb (Ascii.eqb p ".")
        | _, _ => true
        end in
      match ip ++ fp with
      | [] => false
      | _ =>
          pointOk &&
          match r2 with
          | [] => true
          | e :: r3 =>
              (Ascii.eqb e "e" || Ascii.eqb e "E") &&
              let r4 :=
                match r3 with
                | s :: r' =>
                    if Ascii.eqb s "-" || Ascii.eqb s "+" then r' else r3
                | [] => r3
                end in
              let (ds, r5) := spanDigits r4 in
              match ds, r5 with
              | _ :: _, [] => true
              | _, _ => false
              end
          end
      end
  end.

(** A record all of whose numbers are finite, as the numbers of the
    records that the application makes are. *)
Definition finiteResult (r : AnalysisResult) : bool :=
  isFinite (severity (analysis r))
  && isFinite (timestamp r)
  && match patientAge r with Some a => isFinite a | None => true end.

(** A field as it is read back from the storage when it was finite: itself,
    but for [-0], which is read back as [0]. *)
Definition restored (v : value) : value :=
  match v with
  | VNum n => VNum (storedNum n)
  | _ => v
  end.

(** The record of scenario A with the age typed as [-0], and the session
    that makes it. *)
Definition negZeroAged : AnalysisResult :=
  mkAnalysisResult sampleAnalysis (ofZ 1700000000000) "blob:healscan/1"
    (Some (Zero true)) "Child".

Definition negZeroSession : list event :=
  [PickFile (Some sampleFile); TypeAge "-0"; Analyze sampleEnv].

(** * Proofs *)

(** ** Helper lemmas: the error monad *)

Lemma bind_Ok {A B : Type} (r : outcome A) (k : A -> outcome B) (b : B) :
  bind r k = Ok b -> exists a, r = Ok a /\ k a = Ok b.
Proof. destruct r as [a|e]; simpl; intros H; [eauto | discriminate]. Qed.

Lemma bind_Throw {A B : Type} (r : outcome A) (k : A -> outcome B) (e : error) :
  bind r k = Throw e -> r = Throw e \/ exists a, r = Ok a /\ k a = Throw e.
Proof.
  destruct r as [a|e']; simpl; intros H; [right; eauto | left; congruence].
Qed.

(** ** The regular expression and the span of the braces *)

Lemma lastClose_lastIndexOf (t : text) :
  lastClose t = option_map (fun j => firstn (S j) t) (lastIndexOf "}" t).
Proof.
  induction t as [|c r IH]; simpl; [reflexivity|].
  rewrite IH. destruct (lastIndexOf "}" r) as [j|]; simpl; [reflexivity|].
  destruct (Ascii.eqb c "}"); reflexivity.
Qed.

Lemma matchJson_needs_close (t : text) :
  lastIndexOf "}" t = None -> matchJson t = None.
Proof.
  induction t as [|c r IH]; simpl; [reflexivity|].
  destruct (lastIndexOf "}" r) as [j|] eqn:E; [discriminate|].
  intros _. rewrite lastClose_lastIndexOf, E. simpl.
  rewrite (IH eq_refl). destruct (Ascii.eqb c "{"); reflexivity.
Qed.

Lemma open_is_not_close (c : ascii) :
  Ascii.eqb c "{" = true -> Ascii.eqb c "}" = false.
Proof. intros H. apply Ascii.eqb_eq in H. subst c. reflexivity. Qed.

(** The match of the regular expression is the span from the first opening
    brace to the last closing brace. *)
Lemma matchJson_braceSpan (t : text) : matchJson t = braceSpan t.
Proof.
  unfold braceSpan.
  induction t as [|c r IH]; [reflexivity|].
  cbn [matchJson indexOf lastIndexOf].
  destruct (Ascii.eqb c "{") eqn:Eo.
  - rewrite (open_is_not_close _ Eo), lastClose_lastIndexOf.
    destruct (lastIndexOf "}" r) as [j|] eqn:Ej; simpl.
    + unfold substring. simpl. rewrite Nat.add_1_r. reflexivity.
    + apply matchJson_needs_close, Ej.
  - rewrite IH.
    destruct (indexOf "{" r) as [i|] eqn:Ei; simpl.
    + destruct (lastIndexOf "}" r) as [j|] eqn:Ej.
      * change (S i <? S j)%nat with (i <? j)%nat.
        destruct (i <? j)%nat; [|reflexivity].
        unfold substring. simpl. reflexivity.
      * destruct (Ascii.eqb c "}"); reflexivity.
    + destruct (lastIndexOf "}" r); [reflexivity|].
      destruct (Ascii.eqb c "}"); reflexivity.
Qed.

(** ** Helper lemmas: coercions *)

Lemma String_VArr (items : list value) : String_ (VArr items) = joinItems items.
Proof. induction items as [|x r IH]; reflexivity. Qed.

Lemma String_TypeError (v : value) (e : error) : String_ v = Throw e -> e = TypeError.
Proof.
  revert e. induction v as [| | b | n | s | items IH | props _] using value_ind;
    intros e; try (simpl; discriminate).
  - rewrite String_VArr. revert e.
    induction IH as [|x r Hx _ IHr]; intros e; simpl; [discriminate|].
    intros H. apply bind_Throw in H. destruct H as [H | (a & _ & H)].
    + destruct x; simpl in H; try discriminate; apply Hx, H.
    + destruct r as [|y r']; [discriminate|].
      apply bind_Throw in H. destruct H as [H | (b & _ & H)]; [|discriminate].
      apply IHr, H.
  - simpl. destruct (hasOwn "toString" props); intros H; congruence.
Qed.

Lemma Number_TypeError (v : value) (e : error) : Number_ v = Throw e -> e = TypeError.
Proof.
  destruct v; try (simpl; discriminate); unfold Number_; intros H;
    apply bind_Throw in H; destruct H as [H | (a & _ & H)]; try discriminate;
    eapply String_TypeError, H.
Qed.

Lemma mapM_String_TypeError (items : list value) (e : error) :
  mapM String_ items = Throw e -> e = TypeError.
Proof.
  induction items as [|x r IH]; simpl; [discriminate|]. intros H.
  apply bind_Throw in H. destruct H as [H | (a & _ & H)].
  - eapply String_TypeError, H.
  - apply bind_Throw in H. destruct H as [H | (b & _ & H)]; [auto | discriminate].
Qed.

Lemma get_TypeError (v : value) (k : string) (e : error) :
  get v k = Throw e -> e = TypeError.
Proof.
  destruct v; simpl; try discriminate; try congruence.
  destruct (getOwn k props); discriminate.
Qed.

Lemma labelOf_TypeError (d : string) (x : value) (e : error) :
  labelOf d x = Throw e -> e = TypeError.
Proof. apply String_TypeError. Qed.

Lemma severityOf_TypeError (x : value) (e : error) :
  severityOf x = Throw e -> e = TypeError.
Proof.
  unfold severityOf. intros H. apply bind_Throw in H.
  destruct H as [H | (a & _ & H)]; [eapply Number_TypeError, H | discriminate].
Qed.

Lemma listOf_TypeError (x : value) (e : error) : listOf x = Throw e -> e = TypeError.
Proof.
  unfold listOf, toStrArray. intros H. apply bind_Throw in H.
  destruct H as [H | (a & _ & H)]; [|discriminate].
  destruct x; try discriminate.
  apply bind_Throw in H. destruct H as [H | (b & _ & H)]; [|discriminate].
  eapply mapM_String_TypeError, H.
Qed.

(** The only exception of the normalisation is the TypeError of a coercion. *)
Lemma normalize_TypeError (json : value) (e : error) :
  normalize json = Throw e -> e = TypeError.
Proof.
  unfold normalize. intros H.
  repeat match goal with
  | H : bind _ _ = Throw _ |- _ =>
      apply bind_Throw in H; destruct H as [H | (? & _ & H)]
  end;
  first [ eapply get_TypeError; eassumption
        | eapply labelOf_TypeError; eassumption
        | eapply severityOf_TypeError; eassumption
        | eapply listOf_TypeError; eassumption
        | discriminate ].
Qed.

(** A record comes out of the normalisation when each field expression
    gives its field. *)
Lemma normalize_Ok (props : list (string * value)) (r : Analysis) :
  normalize (VObj props) = Ok r ->
  labelOf "Other" (field "type" (VObj props)) = Ok (type r) /\
  labelOf "Unknown" (field "stage" (VObj props)) = Ok (stage r) /\
  severityOf (field "severity" (VObj props)) = Ok (severity r) /\
  listOf (field "precautions" (VObj props)) = Ok (precautions r) /\
  listOf (field "meds" (VObj props)) = Ok (meds r).
Proof.
  unfold normalize, get, field. intros H.
  repeat match goal with
  | H : bind _ _ = Ok _ |- _ =>
      apply bind_Ok in H; destruct H as (? & ? & H)
  end.
  injection H as <-. simpl.
  repeat match goal with
  | H : match getOwn ?k props with _ => _ end = Ok _ |- _ =>
      destruct (getOwn k props); injection H as <-
  end; auto.
Qed.

Lemma normalize_defined (props : list (string * value)) (ty sg : string)
    (sv : number) (pr md : list string) :
  labelOf "Other" (field "type" (VObj props)) = Ok ty ->
  labelOf "Unknown" (field "stage" (VObj props)) = Ok sg ->
  severityOf (field "severity" (VObj props)) = Ok sv ->
  listOf (field "precautions" (VObj props)) = Ok pr ->
  listOf (field "meds" (VObj props)) = Ok md ->
  normalize (VObj props) = Ok (mkAnalysis ty sg sv pr md).
Proof.
  unfold normalize, get, field. intros H1 H2 H3 H4 H5.
  destruct (getOwn "type" props), (getOwn "stage" props),
    (getOwn "severity" props), (getOwn "precautions" props),
    (getOwn "meds" props); cbn [bind];
    rewrite H1; cbn [bind]; rewrite H2; cbn [bind]; rewrite H3; cbn [bind];
    rewrite H4; cbn [bind];
    first [ rewrite H5; reflexivity
          | assert (pr = md) by congruence; subst; reflexivity ].
Qed.

(** ** When a coercion throws *)

Lemma itemText_String (x : value) :
  hidesToString x = true -> itemText x = String_ x.
Proof. destruct x; try discriminate; reflexivity. Qed.

Lemma String_hidden (v : value) :
  hidesToString v = true -> String_ v = Throw TypeError.
Proof.
  induction v as [| | b | n | s | items IH | props _] using value_ind;
    try discriminate.
  - rewrite String_VArr. cbn [hidesToString].
    induction IH as [|x r Hx _ IHr]; [discriminate|].
    cbn [existsb joinItems]. intros H.
    destruct (hidesToString x) eqn:Ex.
    + rewrite (itemText_String x Ex), (Hx eq_refl). reflexivity.
    + cbn [orb] in H. rewrite (IHr H).
      destruct (itemText x) as [a|e] eqn:Ea.
      * destruct r; [discriminate | reflexivity].
      * cbn [bind]. f_equal.
        destruct x; try discriminate; eapply String_TypeError, Ea.
  - cbn [hidesToString String_]. intros ->. reflexivity.
Qed.

Lemma String_shown (v : value) :
  hidesToString v = false -> exists s, String_ v = Ok s.
Proof.
  induction v as [| | b | n | s | items IH | props _] using value_ind;
    try (intros _; eexists; reflexivity).
  - rewrite String_VArr. cbn [hidesToString].
    induction IH as [|x r Hx _ IHr]; [intros _; eexists; reflexivity|].
    cbn [existsb joinItems]. intros H. apply orb_false_iff in H.
    destruct H as (Ex & Er). destruct (IHr Er) as (b & ->).
    assert (Ha : exists a, itemText x = Ok a).
    { destruct (Hx Ex) as (a & Ha).
      destruct x; try (eexists; reflexivity); exact (ex_intro _ a Ha). }
    destruct Ha as (a & ->). cbn [bind]. destruct r; eexists; reflexivity.
  - cbn [hidesToString String_]. intros ->. eexists; reflexivity.
Qed.

Lemma Number_hidden (v : value) :
  hidesToString v = true -> Number_ v = Throw TypeError.
Proof.
  intros H. destruct v; try discriminate; unfold Number_;
    rewrite (String_hidden _ H); reflexivity.
Qed.

Lemma Number_shown (v : value) :
  hidesToString v = false -> exists n, Number_ v = Ok n.
Proof.
  intros H. destruct v; try (eexists; reflexivity); unfold Number_;
    destruct (String_shown _ H) as (s & ->); eexists; reflexivity.
Qed.

Lemma mapM_String_hidden (items : list value) :
  existsb hidesToString items = true -> mapM String_ items = Throw TypeError.
Proof.
  induction items as [|x r IH]; [discriminate|]. cbn [existsb mapM]. intros H.
  destruct (hidesToString x) eqn:Ex.
  - rewrite (String_hidden x Ex). reflexivity.
  - destruct (String_shown x Ex) as (s & ->). cbn [bind orb] in H |- *.
    rewrite (IH H). reflexivity.
Qed.

Lemma mapM_String_shown (items : list value) :
  existsb hidesToString items = false -> exists strs, mapM String_ items = Ok strs.
Proof.
  induction items as [|x r IH]; [intros _; eexists; reflexivity|].
  cbn [existsb mapM]. intros H. apply orb_false_iff in H. destruct H as (Ex & Er).
  destruct (String_shown x Ex) as (s & ->). destruct (IH Er) as (strs & ->).
  eexists; reflexivity.
Qed.

(** The field expressions on a value that hides [toString], and on the
    values that do not. *)
Lemma labelOf_hidden (d : string) (x : value) :
  hidesToString x = true -> labelOf d x = Throw TypeError.
Proof.
  intros H. unfold labelOf, or_else.
  destruct x; try discriminate; cbn [truthy]; apply String_hidden, H.
Qed.

Lemma labelOf_shown (d : string) (x : value) :
  hidesToString x = false -> exists s, labelOf d x = Ok s.
Proof.
  intros H. unfold labelOf, or_else.
  destruct (truthy x); [apply String_shown, H | eexists; reflexivity].
Qed.

Lemma severityOf_hidden (x : value) :
  hidesToString x = true -> severityOf x = Throw TypeError.
Proof. intros H. unfold severityOf. rewrite (Number_hidden x H). reflexivity. Qed.

Lemma listOf_hidden (items : list value) :
  existsb hidesToString items = true -> listOf (VArr items) = Throw TypeError.
Proof.
  intros H. unfold listOf, toStrArray. rewrite (mapM_String_hidden items H).
  reflexivity.
Qed.

Lemma listOf_shown (x : value) :
  itemsCoercible x = true -> exists l, listOf x = Ok l.
Proof.
  intros H. destruct x; try (eexists; reflexivity).
  cbn [itemsCoercible] in H. apply negb_true_iff in H.
  destruct (mapM_String_shown items H) as (strs & Hs).
  unfold listOf, toStrArray. rewrite Hs. eexists; reflexivity.
Qed.

Lemma severityOf_shown (x : value) :
  hidesToString x = false -> exists n, severityOf x = Ok n.
Proof.
  intros H. destruct (Number_shown x H) as (n & Hn).
  unfold severityOf. rewrite Hn. eexists; reflexivity.
Qed.

(** A payload none of whose fields hides [toString] gives a record. *)
Lemma normalize_total (props : list (string * value)) :
  hidesToString (field "type" (VObj props)) = false ->
  hidesToString (field "stage" (VObj props)) = false ->
  hidesToString (field "severity" (VObj props)) = false ->
  itemsCoercible (field "precautions" (VObj props)) = true ->
  itemsCoercible (field "meds" (VObj props)) = true ->
  exists r, normalize (VObj props) = Ok r.
Proof.
  intros H1 H2 H3 H4 H5.
  destruct (labelOf_shown "Other" _ H1) as (ty & Hty).
  destruct (labelOf_shown "Unknown" _ H2) as (sg & Hsg).
  destruct (severityOf_shown _ H3) as (sv & Hsv).
  destruct (listOf_shown _ H4) as (pr & Hpr).
  destruct (listOf_shown _ H5) as (md & Hmd).
  eexists. apply normalize_defined; eassumption.
Qed.

(** ** From the response to the payload *)

Lemma chars_str (t : text) : chars (str t) = t.
Proof. apply list_ascii_of_string_of_list_ascii. Qed.

Lemma str_chars (s : string) : str (chars s) = s.
Proof. apply string_of_list_ascii_of_string. Qed.

Lemma matchJson_head (t m : text) :
  matchJson t = Some m -> exists r, m = "{"%char :: r.
Proof.
  induction t as [|c r IH]; simpl; [discriminate|].
  destruct (Ascii.eqb c "{") eqn:E; [|exact IH].
  apply Ascii.eqb_eq in E. subst c.
  destruct (lastClose r) as [p|]; [|exact IH].
  intros H. injection H as <-. eauto.
Qed.

(** A text that opens with a brace parses to an object or not at all. *)
Lemma JSON_parse_object (r : text) (v : value) :
  JSON_parse (str ("{"%char :: r)) = Some v -> exists props, v = VObj props.
Proof.
  unfold JSON_parse. rewrite chars_str.
  cbn [List.length parseValue skipWs].
  change (isJsonWs "{") with false. cbv iota.
  change (Ascii.eqb "{" "n") with false.
  change (Ascii.eqb "{" "t") with false.
  change (Ascii.eqb "{" "f") with false.
  change (Ascii.eqb "{" dquote) with false.
  change (Ascii.eqb "{" "[") with false.
  change (Ascii.eqb "{" "{") with true. cbv iota.
  destruct (skipWs r) as [|c' r']; [discriminate|].
  destruct (Ascii.eqb c' "}").
  - destruct (skipWs r'); [|discriminate]. intros H. injection H as <-. eauto.
  - destruct (parseMembers _ r) as [[l r'']|]; [|discriminate].
    destruct (skipWs r''); [|discriminate]. intros H. injection H as <-.
    unfold mkObject. eauto.
Qed.

(** A record that the parser returns is the normalisation of the object
    written between the first opening and the last closing brace. *)
Lemma parseModelResponse_payload (response : string) (r : Analysis) :
  parseModelResponse response = Ok r ->
  exists m props,
    braceSpan (chars response) = Some m /\
    JSON_parse (str m) = Some (VObj props) /\
    normalize (VObj props) = Ok r.
Proof.
  unfold parseModelResponse. rewrite <- matchJson_braceSpan.
  destruct (matchJson (chars response)) as [m|] eqn:Em; [|discriminate].
  destruct (JSON_parse (str m)) as [json|] eqn:Ej; [|discriminate].
  intros H. destruct (matchJson_head _ _ Em) as (t & ->).
  destruct (JSON_parse_object _ _ Ej) as (props & ->). eauto.
Qed.

(** ** Numbers: order and clamping *)

Lemma hundred : ofZ 100 = Fin false 0 D1 2.
Proof. reflexivity. Qed.

Lemma cmpMag_antisym (q1 : N) (d1 : nzdigit) (e1 : Z) (q2 : N) (d2 : nzdigit) (e2 : Z) :
  cmpMag q1 d1 e1 q2 d2 e2 = CompOpp (cmpMag q2 d2 e2 q1 d1 e1).
Proof. unfold cmpMag. rewrite (Z.min_comm e1 e2). apply Z.compare_antisym. Qed.

(** A number that is not NaN is clamped into the closed range. *)
Lemma clamp_in_range (n : number) :
  isNaN n = false ->
  numLe (Zero false) (clamp n (Zero false) (ofZ 100)) = true /\
  numLe (clamp n (Zero false) (ofZ 100)) (ofZ 100) = true.
Proof.
  rewrite hundred. destruct n as [| [|] | [|] | [|] q d e]; intros H;
    try discriminate; try (split; reflexivity).
  unfold clamp, Math_min, Math_max, numLe. cbn [numCompare].
  destruct (cmpMag 0 D1 2 q d e) eqn:E; cbn [isNegZero numCompare];
    rewrite ?(cmpMag_antisym q d e 0 D1 2), ?E; split; reflexivity.
Qed.

(** [Number(x) || 0] and "the number, or 0 when there is none" differ on
    the zeros only, which the clamp sends to [+0] alike. *)
Lemma clamp_numOr (n : number) :
  clamp (numOr n (Zero false)) (Zero false) (ofZ 100)
  = clamp (if isNaN n then Zero false else n) (Zero false) (ofZ 100).
Proof.
  destruct n as [| s | b | s q d e]; reflexivity.
Qed.

Lemma numOr_not_NaN (n : number) : isNaN (numOr n (Zero false)) = false.
Proof. destruct n; reflexivity. Qed.

(** ** Lists: filtering then cutting, and picking the first valid entries *)

Lemma firstValid_filter (n : nat) (l : list string) :
  firstValid n l = firstn n (filter nonEmpty l).
Proof.
  revert n. induction l as [|s r IH]; intros [|k]; simpl; try reflexivity.
  destruct (nonEmpty s); simpl; [f_equal; apply IH | apply (IH (S k))].
Qed.

Lemma nonEmpty_spec (s : string) : nonEmpty s = true <-> s <> EmptyString.
Proof.
  unfold nonEmpty. rewrite negb_true_iff. split.
  - intros H E. subst s. discriminate.
  - intros H. destruct s; [congruence | reflexivity].
Qed.

Lemma Forall_firstn {A : Type} (P : A -> Prop) (n : nat) (l : list A) :
  Forall P l -> Forall P (firstn n l).
Proof.
  intros H. revert n. induction H as [|x r Hx _ IH]; intros [|n]; simpl; auto.
Qed.

(** ** Digits *)

Lemma digit_cases (d : Z) :
  0 <= d <= 9 ->
  d = 0 \/ d = 1 \/ d = 2 \/ d = 3 \/ d = 4 \/ d = 5 \/ d = 6 \/ d = 7 \/ d = 8 \/ d = 9.
Proof. lia. Qed.

Lemma digitChar_spec (d : Z) :
  0 <= d <= 9 ->
  digitVal (digitChar d) = d /\ isDigit (digitChar d) = true /\
  (d <> 0 -> Ascii.eqb (digitChar d) "0" = false).
Proof.
  intros H. apply digit_cases in H.
  repeat (destruct H as [H|H]; [subst d; repeat split; try reflexivity; congruence|]).
  subst d; repeat split; reflexivity.
Qed.

Lemma fold_digits_app (a b : text) (acc : Z) :
  fold_left (fun x c => 10 * x + digitVal c) (a ++ b) acc
  = fold_left (fun x c => 10 * x + digitVal c) b
      (fold_left (fun x c => 10 * x + digitVal c) a acc).
Proof. apply fold_left_app. Qed.

Lemma fold_digits_acc (b : text) (acc : Z) :
  fold_left (fun x c => 10 * x + digitVal c) b acc
  = acc * 10 ^ Z.of_nat (List.length b) + valDigits b.
Proof.
  unfold valDigits. revert acc.
  induction b as [|c r IH]; intros acc.
  - simpl. lia.
  - cbn [fold_left List.length]. rewrite IH, (IH (10 * 0 + digitVal c)).
    rewrite Nat2Z.inj_succ, Z.pow_succ_r by lia. ring.
Qed.

Lemma valDigits_app (a b : text) :
  valDigits (a ++ b) = valDigits a * 10 ^ Z.of_nat (List.length b) + valDigits b.
Proof.
  unfold valDigits at 1. rewrite fold_digits_app, fold_digits_acc. reflexivity.
Qed.

Lemma valDigits_zeros (j : Z) : valDigits (zeros j) = 0.
Proof.
  unfold zeros. induction (Z.to_nat j) as [|n IH]; [reflexivity|].
  change (repeat "0"%char (S n)) with (["0"%char] ++ repeat "0"%char n).
  rewrite valDigits_app, IH. reflexivity.
Qed.

Lemma length_zeros (j : Z) : List.length (zeros j) = Z.to_nat j.
Proof. apply repeat_length. Qed.

Lemma zeros_digits (j : Z) : forallb isDigit (zeros j) = true.
Proof.
  unfold zeros. induction (Z.to_nat j) as [|n IH]; [reflexivity|].
  simpl. exact IH.
Qed.

Lemma digitsAux_app (fuel : nat) (n : Z) (acc : text) :
  digitsAux fuel n acc = digitsAux fuel n [] ++ acc.
Proof.
  revert n acc. induction fuel as [|f IH]; intros n acc; [reflexivity|].
  cbn [digitsAux]. destruct (n <? 10); [reflexivity|].
  rewrite IH, (IH _ [_]), <- app_assoc. reflexivity.
Qed.

(** The digits of a positive integer: they are digits, the first is not
    zero, and read back they give the integer. *)
Lemma digitsAux_spec (fuel : nat) (n : Z) :
  0 < n < 2 ^ Z.of_nat fuel ->
  let ds := digitsAux fuel n [] in
  valDigits ds = n /\ forallb isDigit ds = true /\
  exists c r, ds = c :: r /\ Ascii.eqb c "0" = false.
Proof.
  revert n. induction fuel as [|f IH]; intros n Hn; [simpl in Hn; lia|].
  cbn [digitsAux]. cbv zeta.
  assert (Hd : 0 <= n mod 10 <= 9) by (pose proof (Z.mod_pos_bound n 10); lia).
  destruct (digitChar_spec _ Hd) as (Hv & Hi & Hz).
  destruct (Z.ltb_spec n 10) as [Hlt|Hge].
  - rewrite Z.mod_small in * by lia.
    repeat split.
    + unfold valDigits. simpl. lia.
    + simpl. rewrite Hi. reflexivity.
    + eexists _, _. split; [reflexivity|]. apply Hz. lia.
  - rewrite digitsAux_app.
    assert (Hq : 0 < n / 10 < 2 ^ Z.of_nat f).
    { split; [apply Z.div_str_pos; lia|].
      rewrite Nat2Z.inj_succ, Z.pow_succ_r in Hn by lia.
      apply Z.div_lt_upper_bound; lia. }
    destruct (IH _ Hq) as (IHv & IHd & c & r & IHe & IHz).
    repeat split.
    + rewrite valDigits_app, IHv. unfold valDigits at 1. simpl.
      rewrite Hv. pose proof (Z.div_mod n 10). lia.
    + rewrite forallb_app, IHd. simpl. rewrite Hi. reflexivity.
    + rewrite IHe. eexists _, _. split; [reflexivity|]. exact IHz.
Qed.

Lemma digitsOf_spec (n : Z) :
  0 < n ->
  valDigits (digitsOf n) = n /\ forallb isDigit (digitsOf n) = true /\
  exists c r, digitsOf n = c :: r /\ Ascii.eqb c "0" = false.
Proof.
  intros H. apply digitsAux_spec. split; [exact H|].
  rewrite Nat2Z.inj_succ, Z2Nat.id by apply Z.log2_nonneg.
  apply Z.log2_spec, H.
Qed.

Lemma digitsOf_nonneg (n : Z) :
  0 <= n ->
  valDigits (digitsOf n) = n /\ forallb isDigit (digitsOf n) = true /\
  digitsOf n <> [].
Proof.
  intros H. destruct (Z.eq_dec n 0) as [->|Hn].
  - repeat split. discriminate.
  - destruct (digitsOf_spec n) as (Hv & Hd & c & r & He & _); [lia|].
    repeat split; auto. rewrite He. discriminate.
Qed.

(** ** Reading digits back *)

Lemma spanDigits_app (ds r : text) :
  forallb isDigit ds = true ->
  spanDigits (ds ++ r) = (ds ++ fst (spanDigits r), snd (spanDigits r)).
Proof.
  induction ds as [|c ds IH]; simpl.
  - intros _. destruct (spanDigits r); reflexivity.
  - intros H. apply andb_prop in H. destruct H as (Hc & Hds).
    rewrite Hc, (IH Hds). reflexivity.
Qed.

Lemma spanDigits_stop (c : ascii) (r : text) :
  isDigit c = false -> spanDigits (c :: r) = ([], c :: r).
Proof. intros H. simpl. rewrite H. reflexivity. Qed.

Lemma okRest_cases (rest : text) :
  okRest rest = true ->
  rest = [] \/ exists c r, rest = c :: r /\ (c = "," \/ c = "]" \/ c = "}")%char.
Proof.
  destruct rest as [|c r]; [auto|]. simpl. intros H. right. exists c, r.
  split; [reflexivity|].
  apply orb_prop in H. destruct H as [H|H]; [apply orb_prop in H; destruct H as [H|H]|];
    apply Ascii.eqb_eq in H; auto.
Qed.

Lemma okRest_spanDigits (rest : text) :
  okRest rest = true -> spanDigits rest = ([], rest).
Proof.
  intros H. apply okRest_cases in H.
  destruct H as [->|(c & r & -> & [->|[->| ->]])]; reflexivity.
Qed.

Lemma okRest_parseExp (rest : text) :
  okRest rest = true -> parseExp rest = Some (0, rest).
Proof.
  intros H. apply okRest_cases in H.
  destruct H as [->|(c & r & -> & [->|[->| ->]])]; reflexivity.
Qed.

(** ** Numbers from mantissa and exponent *)

Lemma nzVal_bounds (d : nzdigit) : 1 <= nzVal d <= 9.
Proof. destruct d; simpl; lia. Qed.

Lemma nzOf_nzVal (d : nzdigit) : nzOf (nzVal d) = d.
Proof. destruct d; reflexivity. Qed.

Lemma mantissa_pos (q : N) (d : nzdigit) : 0 < mantissa q d.
Proof. unfold mantissa. pose proof (nzVal_bounds d). lia. Qed.

Lemma mantissa_div (q : N) (d : nzdigit) : mantissa q d / 10 = Z.of_N q.
Proof.
  unfold mantissa. pose proof (nzVal_bounds d).
  symmetry. apply (Z.div_unique _ 10 _ (nzVal d)); lia.
Qed.

Lemma mantissa_mod (q : N) (d : nzdigit) : mantissa q d mod 10 = nzVal d.
Proof.
  unfold mantissa. pose proof (nzVal_bounds d).
  symmetry. apply (Z.mod_unique _ 10 (Z.of_N q)); lia.
Qed.

Lemma stripZeros_pow (j fuel : nat) (m e : Z) :
  m mod 10 <> 0 -> (j < fuel)%nat ->
  stripZeros fuel (m * 10 ^ Z.of_nat j) e = (m, e + Z.of_nat j).
Proof.
  intros Hm. revert fuel e. induction j as [|j IH]; intros fuel e Hf.
  - destruct fuel as [|f]; [lia|]. cbn [stripZeros].
    change (10 ^ Z.of_nat 0) with 1. rewrite Z.mul_1_r, Z.add_0_r.
    destruct (Z.eqb_spec (m mod 10) 0); [contradiction | reflexivity].
  - destruct fuel as [|f]; [lia|]. cbn [stripZeros].
    rewrite Nat2Z.inj_succ, Z.pow_succ_r by lia.
    replace (m * (10 * 10 ^ Z.of_nat j)) with (m * 10 ^ Z.of_nat j * 10) by ring.
    rewrite Z.mod_mul, Z.div_mul by lia. cbn [Z.eqb].
    rewrite IH by lia. f_equal. lia.
Qed.

(** [mkNumber] on a mantissa followed by [j] zeros. *)
Lemma mkNumber_pow (neg : bool) (q : N) (d : nzdigit) (j : nat) (e : Z) :
  mkNumber neg (mantissa q d * 10 ^ Z.of_nat j) e = Fin neg q d (e + Z.of_nat j).
Proof.
  unfold mkNumber. pose proof (mantissa_pos q d) as Hp.
  assert (Hpow : 0 < 10 ^ Z.of_nat j) by (apply Z.pow_pos_nonneg; lia).
  destruct (Z.leb_spec (mantissa q d * 10 ^ Z.of_nat j) 0) as [H|H]; [nia|].
  rewrite stripZeros_pow.
  - rewrite mantissa_div, mantissa_mod, nzOf_nzVal, N2Z.id. reflexivity.
  - rewrite mantissa_mod. pose proof (nzVal_bounds d). lia.
  - assert (Z.of_nat j <= Z.log2 (mantissa q d * 10 ^ Z.of_nat j)).
    { apply Z.log2_le_pow2; [lia|].
      assert (2 ^ Z.of_nat j <= 10 ^ Z.of_nat j)
        by (apply Z.pow_le_mono_l; lia).
      nia. }
    lia.
Qed.

Lemma mkNumber_mantissa (neg : bool) (q : N) (d : nzdigit) (e : Z) :
  mkNumber neg (mantissa q d) e = Fin neg q d e.
Proof.
  pose proof (mkNumber_pow neg q d 0 e) as H.
  change (10 ^ Z.of_nat 0) with 1 in H. rewrite Z.mul_1_r, Z.add_0_r in H.
  exact H.
Qed.

(** ** Reading a number back, part by part *)

Lemma stopsDigits_span (t : text) : stopsDigits t = true -> spanDigits t = ([], t).
Proof.
  destruct t as [|c r]; [reflexivity|]. simpl. intros H.
  apply andb_prop in H. destruct H as (H & _). apply negb_true_iff in H.
  rewrite H. reflexivity.
Qed.

Lemma okRest_stops (rest : text) : okRest rest = true -> stopsDigits rest = true.
Proof.
  intros H. apply okRest_cases in H.
  destruct H as [->|(c & r & -> & [->|[->| ->]])]; reflexivity.
Qed.

Lemma span_digits_then (ds t : text) :
  forallb isDigit ds = true -> stopsDigits t = true ->
  spanDigits (ds ++ t) = (ds, t).
Proof.
  intros Hd Ht. rewrite (spanDigits_app _ _ Hd), (stopsDigits_span _ Ht).
  simpl. rewrite app_nil_r. reflexivity.
Qed.

(** An integer part followed by an exponent part or by the rest. *)
Lemma parseUnsigned_integer (neg : bool) (ip t r3 : text) (ex : Z) :
  forallb isDigit ip = true -> intOk ip = true ->
  stopsDigits t = true -> parseExp t = Some (ex, r3) ->
  parseUnsigned neg (ip ++ t) = Some (mkNumber neg (valDigits ip) ex, r3).
Proof.
  intros Hd Hi Ht He. unfold parseUnsigned.
  rewrite (span_digits_then _ _ Hd Ht). fold (intOk ip). rewrite Hi.
  destruct t as [|c r].
  - rewrite He, app_nil_r, Z.sub_0_r. reflexivity.
  - simpl in Ht. apply andb_prop in Ht. destruct Ht as (_ & Hp).
    apply negb_true_iff in Hp. rewrite Hp, He, app_nil_r, Z.sub_0_r.
    reflexivity.
Qed.

(** An integer part, a point and a fraction, followed likewise. *)
Lemma parseUnsigned_fraction (neg : bool) (ip fp t r3 : text) (ex : Z) :
  forallb isDigit ip = true -> intOk ip = true ->
  forallb isDigit fp = true -> fp <> [] ->
  stopsDigits t = true -> parseExp t = Some (ex, r3) ->
  parseUnsigned neg (ip ++ "."%char :: fp ++ t)
  = Some (mkNumber neg (valDigits (ip ++ fp)) (ex - Z.of_nat (List.length fp)), r3).
Proof.
  intros Hd Hi Hf Hn Ht He. unfold parseUnsigned.
  rewrite (spanDigits_app ip _ Hd), (spanDigits_stop "." _ eq_refl).
  cbn [fst snd]. rewrite app_nil_r.
  fold (intOk ip). rewrite Hi.
  change (Ascii.eqb "." ".") with true. cbv iota.
  rewrite (span_digits_then _ _ Hf Ht).
  destruct fp as [|c fp']; [contradiction|].
  rewrite He. reflexivity.
Qed.

Lemma parseExp_exponent (ex : Z) (rest : text) :
  okRest rest = true ->
  parseExp ("e"%char :: chars (if ex <? 0 then "-" else "+")
              ++ digitsOf (Z.abs ex) ++ rest)
  = Some (ex, rest).
Proof.
  intros Hr.
  destruct (digitsOf_nonneg (Z.abs ex) (Z.abs_nonneg ex)) as (Hv & Hd & Hn).
  assert (Hs : spanDigits (digitsOf (Z.abs ex) ++ rest) = (digitsOf (Z.abs ex), rest))
    by (apply span_digits_then; [exact Hd | apply okRest_stops, Hr]).
  destruct (Z.ltb_spec ex 0) as [H|H]; cbn [parseExp chars list_ascii_of_string app];
    change (Ascii.eqb "e" "e") with true; cbn [orb];
    [change (Ascii.eqb "-" "-") with true
    |change (Ascii.eqb "+" "-") with false; change (Ascii.eqb "+" "+") with true];
    cbv iota; rewrite Hs;
    destruct (digitsOf (Z.abs ex)) as [|c r]; try contradiction;
    rewrite Hv; do 2 f_equal; lia.
Qed.

Lemma forallb_firstn {A : Type} (p : A -> bool) (n : nat) (l : list A) :
  forallb p l = true -> forallb p (firstn n l) = true.
Proof.
  revert n. induction l as [|x r IH]; intros [|n]; simpl; auto.
  intros H. apply andb_prop in H. destruct H as (Hx & Hr).
  rewrite Hx. simpl. apply IH, Hr.
Qed.

Lemma forallb_skipn {A : Type} (p : A -> bool) (n : nat) (l : list A) :
  forallb p l = true -> forallb p (skipn n l) = true.
Proof.
  revert n. induction l as [|x r IH]; intros [|n]; simpl; auto.
  intros H. apply andb_prop in H. destruct H as (Hx & Hr). apply IH, Hr.
Qed.

Lemma intOk_head (c : ascii) (r : text) :
  Ascii.eqb c "0" = false -> intOk (c :: r) = true.
Proof. intros H. simpl. rewrite H. destruct r; reflexivity. Qed.

(** The text of a positive finite number reads back as the number. *)
Lemma parseUnsigned_fmtFinite (neg : bool) (q : N) (d : nzdigit) (e : Z) (rest : text) :
  okRest rest = true ->
  parseUnsigned neg (fmtFinite (digitsOf (mantissa q d)) e ++ rest)
  = Some (Fin neg q d e, rest).
Proof.
  intros Hr.
  destruct (digitsOf_spec _ (mantissa_pos q d)) as (Hv & Hd & c & r & Hds & Hc).
  pose proof (okRest_stops _ Hr) as Hst.
  pose proof (okRest_parseExp _ Hr) as Hex.
  unfold fmtFinite. set (ds := digitsOf (mantissa q d)) in *.
  set (k := Z.of_nat (List.length ds)).
  assert (Hk : 1 <= k) by (unfold k; rewrite Hds; simpl List.length; lia).
  destruct ((k <=? e + k) && (e + k <=? 21)) eqn:CA.
  { (* plain digits *)
    apply andb_prop in CA. destruct CA as (CA & _). apply Z.leb_le in CA.
    rewrite (parseUnsigned_integer neg (ds ++ zeros (e + k - k)) rest rest 0).
    - rewrite valDigits_app, valDigits_zeros, length_zeros, Hv, Z.add_0_r.
      rewrite mkNumber_pow. do 3 f_equal. lia.
    - rewrite forallb_app, Hd, zeros_digits. reflexivity.
    - rewrite Hds. apply intOk_head, Hc.
    - exact Hst.
    - exact Hex. }
  destruct ((0 <? e + k) && (e + k <=? 21)) eqn:CB.
  { (* a point inside the digits *)
    apply andb_prop in CB. destruct CB as (CB & CB'). apply Z.ltb_lt in CB.
    apply Z.leb_le in CB'.
    assert (Hlt : e + k < k).
    { apply andb_false_iff in CA. rewrite !Z.leb_gt in CA. lia. }
    set (n := Z.to_nat (e + k)).
    assert (Hn : (0 < n < List.length ds)%nat) by (unfold n; lia).
    rewrite <- !app_assoc. cbn [chars list_ascii_of_string app].
    rewrite (parseUnsigned_fraction neg (firstn n ds) (skipn n ds) rest rest 0).
    - rewrite firstn_skipn, Hv, length_skipn, mkNumber_mantissa.
      do 3 f_equal. unfold k, n in *. lia.
    - apply forallb_firstn, Hd.
    - rewrite Hds. destruct n as [|n']; [lia|]. apply intOk_head, Hc.
    - apply forallb_skipn, Hd.
    - intros E. apply (f_equal (@List.length ascii)) in E.
      rewrite length_skipn in E. simpl in E. lia.
    - exact Hst.
    - exact Hex. }
  destruct ((-6 <? e + k) && (e + k <=? 0)) eqn:CC.
  { (* zeros after the point *)
    apply andb_prop in CC. destruct CC as (_ & CC). apply Z.leb_le in CC.
    rewrite <- !app_assoc. cbn [chars list_ascii_of_string app].
    pose proof (parseUnsigned_fraction neg ["0"%char] (zeros (- (e + k)) ++ ds)
                  rest rest 0) as P.
    cbn [app] in P. rewrite <- app_assoc in P. rewrite P; clear P.
    - assert (Hval : valDigits ("0"%char :: zeros (- (e + k)) ++ ds) = mantissa q d).
      { change ("0"%char :: zeros (- (e + k)) ++ ds)
          with (["0"%char] ++ (zeros (- (e + k)) ++ ds)).
        rewrite !valDigits_app, valDigits_zeros, Hv.
        change (valDigits ["0"%char]) with 0. lia. }
      rewrite Hval, length_app, length_zeros.
      rewrite mkNumber_mantissa. do 3 f_equal. unfold k. lia.
    - reflexivity.
    - reflexivity.
    - rewrite forallb_app, zeros_digits, Hd. reflexivity.
    - rewrite Hds. destruct (zeros (- (e + k))); discriminate.
    - exact Hst.
    - exact Hex. }
  (* the exponent form *)
  pose proof (parseExp_exponent (e + k - 1) rest Hr) as He.
  assert (Hlen : k = Z.of_nat (List.length (c :: r))) by (unfold k; rewrite Hds; reflexivity).
  cbv zeta. rewrite Hds in Hv, Hd |- *.
  match type of He with
  | parseExp ?T = _ =>
      destruct r as [|c' r'];
      [ pose proof (parseUnsigned_integer neg [c] T rest (e + k - 1)
                      Hd eq_refl eq_refl He) as P
      | simpl in Hd; apply andb_prop in Hd; destruct Hd as (Hc1 & Hd);
        assert (Hc2 : forallb isDigit [c] = true) by (simpl; rewrite Hc1; reflexivity);
        assert (Hne : c' :: r' <> []) by discriminate;
        pose proof (parseUnsigned_fraction neg [c] (c' :: r') T rest (e + k - 1)
                      Hc2 eq_refl Hd Hne eq_refl He) as P ]
  end;
  cbn [app chars list_ascii_of_string] in P |- *;
  repeat (first [rewrite <- app_assoc | progress cbn [app]]); rewrite P;
  rewrite Hv, mkNumber_mantissa; do 3 f_equal;
  cbn [List.length] in Hlen |- *; lia.
Qed.

Lemma digit_not (c x : ascii) :
  isDigit c = true -> isDigit x = false -> Ascii.eqb c x = false.
Proof.
  intros Hc Hx. destruct (Ascii.eqb c x) eqn:E; [|reflexivity].
  apply Ascii.eqb_eq in E. subst x. congruence.
Qed.

Lemma digit_not_ws (c : ascii) : isDigit c = true -> isJsonWs c = false.
Proof.
  unfold isDigit, isJsonWs. intros H. apply andb_prop in H. destruct H as (H & _).
  apply Z.leb_le in H.
  repeat (apply orb_false_iff; split); apply Z.eqb_neq; lia.
Qed.

Lemma fmtFinite_head (c : ascii) (r : text) (e : Z) :
  forallb isDigit (c :: r) = true ->
  exists c' t, fmtFinite (c :: r) e = c' :: t /\ isDigit c' = true.
Proof.
  intros Hd. pose proof Hd as Hd'. simpl in Hd'. apply andb_prop in Hd'.
  destruct Hd' as (Hc & _).
  unfold fmtFinite. cbv zeta.
  set (k := Z.of_nat (List.length (c :: r))).
  assert (Hk : 1 <= k) by (unfold k; simpl List.length; lia).
  destruct ((k <=? e + k) && (e + k <=? 21)); [simpl; eauto|].
  destruct ((0 <? e + k) && (e + k <=? 21)) eqn:CB.
  { apply andb_prop in CB. destruct CB as (CB & _). apply Z.ltb_lt in CB.
    destruct (Z.to_nat (e + k)) as [|n] eqn:En; [lia|]. simpl. eauto. }
  destruct ((-6 <? e + k) && (e + k <=? 0)); [simpl; eauto|].
  destruct r; simpl; eauto.
Qed.

(** The text of a finite number reads back as the number, but for the sign
    of a zero. *)
Lemma parseNum_numToText (n : number) (rest : text) :
  isFinite n = true -> okRest rest = true ->
  parseNum (numToText n ++ rest) = Some (storedNum n, rest).
Proof.
  intros Hf Hr. destruct n as [| s | b | neg q d e]; try discriminate.
  - cbn [numToText chars list_ascii_of_string app parseNum storedNum].
    change (Ascii.eqb "0" "-") with false. cbv iota.
    exact (parseUnsigned_integer false ["0"%char] rest rest 0 eq_refl eq_refl
             (okRest_stops _ Hr) (okRest_parseExp _ Hr)).
  - cbn [numToText storedNum]. destruct neg.
    + cbn [signText chars list_ascii_of_string app parseNum].
      change (Ascii.eqb "-" "-") with true. cbv iota.
      apply parseUnsigned_fmtFinite, Hr.
    + cbn [signText app].
      destruct (digitsOf_spec _ (mantissa_pos q d)) as (_ & Hd & c & r & Hds & _).
      pose proof (parseUnsigned_fmtFinite false q d e rest Hr) as P.
      rewrite Hds in Hd, P |- *.
      destruct (fmtFinite_head c r e Hd) as (c' & t & Ef & Hc').
      rewrite Ef in P |- *.
      cbn [app parseNum] in P |- *.
      rewrite (digit_not c' "-" Hc' eq_refl). exact P.
Qed.

(** The same through the dispatch of [parseValue]. *)
Lemma parseValue_number (n : number) (rest : text) (f : nat) :
  isFinite n = true -> okRest rest = true ->
  parseValue (S f) (numToText n ++ rest) = Some (VNum (storedNum n), rest).
Proof.
  intros Hf Hr. pose proof (parseNum_numToText n rest Hf Hr) as P.
  assert (H : exists c t, numToText n ++ rest = c :: t /\
                          (c = "-"%char \/ isDigit c = true)).
  { destruct n as [| s | b | neg q d e]; try discriminate.
    - simpl. eauto.
    - cbn [numToText]. destruct neg; [simpl; eauto|].
      destruct (digitsOf_spec _ (mantissa_pos q d)) as (_ & Hd & c & r & Hds & _).
      rewrite Hds in Hd |- *.
      destruct (fmtFinite_head c r e Hd) as (c' & t & -> & Hc').
      simpl. eauto. }
  destruct H as (c & t & E & Hc). rewrite E in P |- *.
  cbn [parseValue skipWs].
  destruct Hc as [-> | Hc].
  - change (isJsonWs "-") with false. cbv iota.
    change (Ascii.eqb "-" "n") with false. change (Ascii.eqb "-" "t") with false.
    change (Ascii.eqb "-" "f") with false. change (Ascii.eqb "-" dquote) with false.
    change (Ascii.eqb "-" "[") with false. change (Ascii.eqb "-" "{") with false.
    cbv iota. rewrite P. reflexivity.
  - rewrite (digit_not_ws c Hc).
    rewrite (digit_not c "n" Hc eq_refl), (digit_not c "t" Hc eq_refl),
      (digit_not c "f" Hc eq_refl), (digit_not c dquote Hc eq_refl),
      (digit_not c "[" Hc eq_refl), (digit_not c "{" Hc eq_refl).
    rewrite P. reflexivity.
Qed.

(** ** Strings: quoting and reading back *)

(** One character, escaped, reads back as the character. *)
Lemma parseStrBody_escapeChar (c : ascii) (f : nat) (t : text) :
  parseStrBody (S f) (escapeChar c ++ t) = prepend [c] (parseStrBody f t).
Proof.
  destruct c as [[] [] [] [] [] [] [] []]; reflexivity.
Qed.

Lemma escapeChar_length (c : ascii) : (1 <= List.length (escapeChar c))%nat.
Proof.
  unfold escapeChar.
  repeat match goal with
         | |- context [if ?b then _ else _] => destruct b
         end; simpl; lia.
Qed.

Lemma escaped_length (s : text) :
  (List.length s <= List.length (flat_map escapeChar s))%nat.
Proof.
  induction s as [|c r IH]; simpl; [lia|].
  rewrite length_app. pose proof (escapeChar_length c). lia.
Qed.

Lemma parseStrBody_escaped (s rest : text) (fuel : nat) :
  (List.length s < fuel)%nat ->
  parseStrBody fuel (flat_map escapeChar s ++ dquote :: rest) = Some (s, rest).
Proof.
  revert fuel. induction s as [|c r IH]; intros [|f] Hf; try (simpl in Hf; lia).
  - reflexivity.
  - cbn [flat_map]. rewrite <- app_assoc, parseStrBody_escapeChar.
    rewrite IH by (simpl in Hf; lia). reflexivity.
Qed.

(** A quoted string, after its opening quote, reads back as the string. *)
Lemma parseStr_quote (s : string) (rest : text) :
  parseStr (flat_map escapeChar (chars s) ++ dquote :: rest) = Some (s, rest).
Proof.
  unfold parseStr. rewrite parseStrBody_escaped.
  - rewrite str_chars. reflexivity.
  - rewrite length_app. pose proof (escaped_length (chars s)). simpl. lia.
Qed.

(** ** Values: writing and reading back *)

Lemma size_VArr (items : list value) : size (VArr items) = S (sizeItems items).
Proof. reflexivity. Qed.

Lemma size_VObj (props : list (string * value)) :
  size (VObj props) = S (sizeProps (definedProps props)).
Proof.
  cbn [size]. f_equal. induction props as [|[k x] r IH]; [reflexivity|].
  unfold definedProps in *. cbn [filter snd].
  destruct (isUndefined x); cbn [negb sizeProps snd]; rewrite IH; reflexivity.
Qed.

Lemma serialize_VObj (props : list (string * value)) :
  serialize (VObj props)
  = chars "{" ++ joinText (chars ",") (map memberText (definedProps props))
      ++ chars "}".
Proof.
  cbn [serialize]. do 3 f_equal.
  induction props as [|[k x] r IH]; [reflexivity|].
  unfold definedProps in *. cbn [filter snd].
  destruct (isUndefined x); cbn [negb map]; [exact IH|].
  rewrite IH. reflexivity.
Qed.

Lemma stored_VObj (props : list (string * value)) :
  stored (VObj props) = VObj (map storedMember (definedProps props)).
Proof.
  cbn [stored]. f_equal.
  induction props as [|[k x] r IH]; [reflexivity|].
  unfold definedProps in *. cbn [filter snd].
  destruct (isUndefined x); cbn [negb map]; [exact IH|].
  rewrite IH. reflexivity.
Qed.

(** *** Objects keep the order of their names *)

Lemma hasOwn_existsb (k : string) (props : list (string * value)) :
  hasOwn k props = existsb (String.eqb k) (map fst props).
Proof.
  unfold hasOwn. induction props as [|p r IH]; simpl; [reflexivity|].
  rewrite IH, (String.eqb_sym (fst p) k). reflexivity.
Qed.

Lemma insertKey_last (k : string) (v : value) (props : list (string * value)) :
  arrayIndex k = None -> insertKey k v props = props ++ [(k, v)].
Proof.
  intros H. induction props as [|[k' v'] r IH]; simpl; [reflexivity|].
  rewrite H, IH. reflexivity.
Qed.

Lemma existsb_app_false {A : Type} (p : A -> bool) (a b : list A) :
  existsb p (a ++ b) = false -> existsb p a = false /\ existsb p b = false.
Proof. rewrite existsb_app. apply orb_false_iff. Qed.

Lemma distinct_app_cons (a : list string) (k : string) (b : list string) :
  distinct (a ++ k :: b) = true ->
  existsb (String.eqb k) a = false /\ distinct ((a ++ [k]) ++ b) = true.
Proof.
  intros H. split.
  - induction a as [|x a IH]; [reflexivity|].
    simpl in H |- *. apply andb_prop in H. destruct H as (Hx & Ha).
    rewrite (IH Ha), orb_false_r.
    apply negb_true_iff in Hx. apply existsb_app_false in Hx.
    destruct Hx as (_ & Hx). simpl in Hx. apply orb_false_iff in Hx.
    rewrite String.eqb_sym. tauto.
  - rewrite <- app_assoc. exact H.
Qed.

Lemma fold_setProp (ms acc : list (string * value)) :
  keysOk (map fst (acc ++ ms)) = true ->
  fold_left setProp ms acc = acc ++ ms.
Proof.
  revert acc. induction ms as [|[k v] r IH]; intros acc H.
  - simpl. rewrite app_nil_r. reflexivity.
  - cbn [fold_left].
    assert (E : setProp acc (k, v) = acc ++ [(k, v)]).
    { unfold keysOk in H. apply andb_prop in H. destruct H as (Hd & Hi).
      rewrite map_app in Hd, Hi. cbn [map fst] in Hd, Hi.
      apply distinct_app_cons in Hd. destruct Hd as (Hd & _).
      rewrite forallb_app in Hi. apply andb_prop in Hi. destruct Hi as (_ & Hi).
      cbn [forallb] in Hi. apply andb_prop in Hi. destruct Hi as (Hi & _).
      unfold setProp. cbn [fst snd]. rewrite hasOwn_existsb, Hd.
      apply insertKey_last. destruct (arrayIndex k); [discriminate | reflexivity]. }
    rewrite E. rewrite IH.
    + rewrite <- app_assoc. reflexivity.
    + rewrite <- app_assoc. exact H.
Qed.

Lemma mkObject_plain (ms : list (string * value)) :
  keysOk (map fst ms) = true -> mkObject ms = VObj ms.
Proof. intros H. unfold mkObject. rewrite fold_setProp; auto. Qed.

(** *** The dispatch of the parser *)

Lemma parseValue_open_array (f : nat) (r : text) :
  parseValue (S f) ("["%char :: r)
  = match skipWs r with
    | c' :: r' =>
        if Ascii.eqb c' "]" then Some (VArr [], r')
        else match parseElems f r with
             | Some (l, r'') => Some (VArr l, r'')
             | None => None
             end
    | [] => None
    end.
Proof. reflexivity. Qed.

Lemma parseValue_open_object (f : nat) (r : text) :
  parseValue (S f) ("{"%char :: r)
  = match skipWs r with
    | c' :: r' =>
        if Ascii.eqb c' "}" then Some (VObj [], r')
        else match parseMembers f r with
             | Some (l, r'') => Some (mkObject l, r'')
             | None => None
             end
    | [] => None
    end.
Proof. reflexivity. Qed.

Lemma parseValue_open_string (f : nat) (r : text) :
  parseValue (S f) (dquote :: r)
  = match parseStr r with
    | Some (s, r') => Some (VStr s, r')
    | None => None
    end.
Proof. reflexivity. Qed.

Lemma parseElems_eq (f : nat) (t : text) :
  parseElems (S f) t
  = match parseValue f t with
    | Some (v, r) =>
        match skipWs r with
        | c :: r' =>
            if Ascii.eqb c "," then
              match parseElems f r' with
              | Some (l, r'') => Some (v :: l, r'')
              | None => None
              end
            else if Ascii.eqb c "]" then Some ([v], r')
            else None
        | [] => None
        end
    | None => None
    end.
Proof. reflexivity. Qed.

Lemma parseMembers_quote (f : nat) (r0 : text) :
  parseMembers (S f) (dquote :: r0)
  = match parseStr r0 with
    | Some (k, r1) =>
        match skipWs r1 with
        | c1 :: r2 =>
            if Ascii.eqb c1 ":" then
              match parseValue f r2 with
              | Some (v, r3) =>
                  match skipWs r3 with
                  | c :: r' =>
                      if Ascii.eqb c "," then
                        match parseMembers f r' with
                        | Some (l, r'') => Some ((k, v) :: l, r'')
                        | None => None
                        end
                      else if Ascii.eqb c "}" then Some ([(k, v)], r')
                      else None
                  | [] => None
                  end
              | None => None
              end
            else None
        | [] => None
        end
    | None => None
    end.
Proof. reflexivity. Qed.

(** *** How the text of a value starts *)

Lemma numToText_head (n : number) :
  isFinite n = true ->
  exists c t, numToText n = c :: t /\ (c = "-"%char \/ isDigit c = true).
Proof.
  destruct n as [| s | b | neg q d e]; try discriminate; intros _.
  - simpl. eauto.
  - cbn [numToText]. destruct neg; [simpl; eauto|].
    destruct (digitsOf_spec _ (mantissa_pos q d)) as (_ & Hd & c & r & Hds & _).
    rewrite Hds in Hd |- *.
    destruct (fmtFinite_head c r e Hd) as (c' & t & -> & Hc').
    simpl. eauto.
Qed.

Lemma serialize_head (v : value) :
  exists c t, serialize v = c :: t /\ opensValue c.
Proof.
  assert (Hn : exists c t, chars "null" = c :: t /\ opensValue c)
    by (eexists _, _; split; [reflexivity | repeat split]).
  destruct v as [| | b | n | s | items | props]; auto.
  - destruct b; eexists _, _; (split; [reflexivity | repeat split]).
  - cbn [serialize]. destruct (isFinite n) eqn:Hf; [|exact Hn].
    destruct (numToText_head n Hf) as (c & t & -> & [-> | Hc]).
    + eexists _, _; split; [reflexivity | repeat split].
    + eexists _, _; split; [reflexivity|].
      repeat split; [apply digit_not_ws, Hc | |]; apply digit_not; auto.
  - eexists _, _; split; [reflexivity | repeat split].
  - eexists _, _; split; [reflexivity | repeat split].
  - rewrite serialize_VObj. eexists _, _; split; [reflexivity | repeat split].
Qed.

Lemma skipWs_opens (c : ascii) (t : text) :
  isJsonWs c = false -> skipWs (c :: t) = c :: t.
Proof. intros H. simpl. rewrite H. reflexivity. Qed.

(** Texts put back in the shape of a list: a head and what follows. *)
Ltac norm_app :=
  repeat (first [ rewrite <- app_assoc
                | progress cbn [app chars list_ascii_of_string] ]).

(** *** Arrays *)

Lemma parseElems_items (items : list value) :
  items <> [] -> Forall readsBack items ->
  forall (fuel : nat) (rest : text),
    (sizeItems items <= fuel)%nat ->
    parseElems fuel (joinText (chars ",") (map serialize items) ++ "]"%char :: rest)
    = Some (map stored items, rest).
Proof.
  intros Hne H. induction H as [|v r Hv Hr IH]; [contradiction|].
  intros [|f] rest Hf; [simpl in Hf; lia|].
  cbn [sizeItems] in Hf. rewrite parseElems_eq.
  destruct r as [|v2 r'].
  - cbn [map joinText].
    rewrite (Hv f ("]"%char :: rest)) by (reflexivity || lia).
    reflexivity.
  - change (joinText (chars ",") (map serialize (v :: v2 :: r')))
      with (serialize v ++ chars "," ++ joinText (chars ",") (map serialize (v2 :: r'))).
    norm_app.
    rewrite (Hv f) by (reflexivity || lia).
    cbn [skipWs]. change (isJsonWs ",") with false. cbv iota.
    change (Ascii.eqb "," ",") with true. cbv iota.
    rewrite IH by (discriminate || lia). reflexivity.
Qed.

(** *** Objects *)

Lemma parseMembers_props (ms : list (string * value)) :
  ms <> [] -> Forall (fun p => readsBack (snd p)) ms ->
  forall (fuel : nat) (rest : text),
    (sizeProps ms <= fuel)%nat ->
    parseMembers fuel (joinText (chars ",") (map memberText ms) ++ "}"%char :: rest)
    = Some (map storedMember ms, rest).
Proof.
  intros Hne H. induction H as [|[k v] r Hv Hr IH]; [contradiction|].
  intros [|f] rest Hf; [simpl in Hf; lia|].
  cbn [sizeProps snd] in Hf, Hv.
  assert (Hm : forall tail, okRest tail = true ->
            parseMembers (S f) (memberText (k, v) ++ tail)
            = match skipWs tail with
              | c :: r' =>
                  if Ascii.eqb c "," then
                    match parseMembers f r' with
                    | Some (l, r'') => Some ((k, stored v) :: l, r'')
                    | None => None
                    end
                  else if Ascii.eqb c "}" then Some ([(k, stored v)], r')
                  else None
              | [] => None
              end).
  { intros tail Ht. unfold memberText, quote. cbn [fst snd].
    norm_app.
    rewrite parseMembers_quote, parseStr_quote.
    cbn [skipWs]. change (isJsonWs ":") with false. cbv iota.
    change (Ascii.eqb ":" ":") with true. cbv iota.
    rewrite (Hv f tail) by (assumption || lia). reflexivity. }
  destruct r as [|p2 r'].
  - cbn [map joinText]. rewrite Hm by reflexivity. reflexivity.
  - change (joinText (chars ",") (map memberText ((k, v) :: p2 :: r')))
      with (memberText (k, v) ++ chars "," ++ joinText (chars ",") (map memberText (p2 :: r'))).
    norm_app.
    rewrite Hm by reflexivity.
    cbn [skipWs]. change (isJsonWs ",") with false. cbv iota.
    change (Ascii.eqb "," ",") with true. cbv iota.
    rewrite IH by (discriminate || lia). reflexivity.
Qed.

Lemma Forall_definedProps (P : string * value -> Prop) (props : list (string * value)) :
  Forall P props -> Forall P (definedProps props).
Proof.
  intros H. apply Forall_forall. intros p Hp. apply filter_In in Hp.
  rewrite Forall_forall in H. apply H, Hp.
Qed.

Lemma map_fst_storedMember (ms : list (string * value)) :
  map fst (map storedMember ms) = map fst ms.
Proof. rewrite map_map. reflexivity. Qed.

(** *** Every plain value reads back *)

Lemma plain_readsBack (v : value) : plain v = true -> readsBack v.
Proof.
  induction v as [| | b | n | s | items IH | props IH] using value_ind;
    intros Hp [|f] rest Hf Hr; try (exfalso; simpl in Hf; lia).
  - reflexivity.
  - reflexivity.
  - destruct b; reflexivity.
  - cbn [serialize stored]. destruct (isFinite n) eqn:Hn; [|reflexivity].
    apply parseValue_number; assumption.
  - cbn [serialize stored]. unfold quote. norm_app. rewrite parseValue_open_string, parseStr_quote. reflexivity.
  - rewrite size_VArr in Hf. cbn [serialize stored].
    norm_app.
    rewrite parseValue_open_array.
    destruct items as [|v r]; [reflexivity|].
    assert (Hall : Forall readsBack (v :: r)).
    { cbn [plain] in Hp. rewrite forallb_forall in Hp.
      rewrite Forall_forall in IH |- *. intros x Hx. apply IH; auto. }
    destruct (serialize_head v) as (c & t & E & Hw & Hc & _).
    assert (Eh : joinText (chars ",") (map serialize (v :: r)) ++ "]"%char :: rest
                 = c :: (skipn 1 (joinText (chars ",") (map serialize (v :: r))
                                  ++ "]"%char :: rest))).
    { cbn [map joinText]. destruct (map serialize r); rewrite E; reflexivity. }
    rewrite Eh at 1. rewrite (skipWs_opens _ _ Hw), Hc.
    rewrite parseElems_items by (discriminate || assumption || lia).
    reflexivity.
  - rewrite size_VObj in Hf. rewrite serialize_VObj, stored_VObj.
    norm_app.
    rewrite parseValue_open_object.
    cbn [plain] in Hp. apply andb_prop in Hp. destruct Hp as (Hk & Hp).
    destruct (definedProps props) as [|p r] eqn:Ed; [reflexivity|].
    assert (Hall : Forall (fun p => readsBack (snd p)) (p :: r)).
    { rewrite <- Ed. apply Forall_definedProps.
      rewrite forallb_forall in Hp. rewrite Forall_forall in IH |- *.
      intros x Hx. apply IH; auto. }
    assert (Eh : exists t, joinText (chars ",") (map memberText (p :: r))
                           ++ "}"%char :: rest = dquote :: t).
    { cbn [map joinText]. destruct (map memberText r); eexists; reflexivity. }
    destruct Eh as (t & Eh). rewrite Eh at 1.
    cbn [skipWs]. change (isJsonWs dquote) with false. cbv iota.
    change (Ascii.eqb dquote "}") with false. cbv iota.
    rewrite parseMembers_props by (discriminate || assumption || lia).
    rewrite mkObject_plain by (rewrite map_fst_storedMember; exact Hk).
    reflexivity.
Qed.

(** *** The fuel that [JSON.parse] gives is enough *)

Lemma length_joinText_items (items : list value) :
  Forall (fun v => (size v <= List.length (serialize v))%nat) items ->
  (sizeItems items <= S (List.length (joinText (chars ",") (map serialize items))))%nat.
Proof.
  intros H. induction H as [|v r Hv Hr IH]; [simpl; lia|].
  cbn [sizeItems map]. destruct r as [|v2 r'].
  - simpl. lia.
  - change (joinText (chars ",") (serialize v :: map serialize (v2 :: r')))
      with (serialize v ++ chars "," ++ joinText (chars ",") (map serialize (v2 :: r'))).
    rewrite !length_app. simpl List.length at 2. lia.
Qed.

Lemma length_memberText (p : string * value) :
  (size (snd p) <= List.length (serialize (snd p)))%nat ->
  (S (size (snd p)) <= List.length (memberText p))%nat.
Proof.
  intros H. unfold memberText, quote. cbn [List.length]. rewrite !length_app.
  simpl. lia.
Qed.

Lemma length_joinText_props (ms : list (string * value)) :
  Forall (fun p => (size (snd p) <= List.length (serialize (snd p)))%nat) ms ->
  (sizeProps ms <= List.length (joinText (chars ",") (map memberText ms)))%nat.
Proof.
  intros H. induction H as [|p r Hp Hr IH]; [simpl; lia|].
  cbn [sizeProps map]. pose proof (length_memberText p Hp).
  destruct r as [|p2 r'].
  - cbn [joinText map sizeProps]. lia.
  - change (joinText (chars ",") (memberText p :: map memberText (p2 :: r')))
      with (memberText p ++ chars "," ++ joinText (chars ",") (map memberText (p2 :: r'))).
    rewrite !length_app. lia.
Qed.

Lemma size_le_length (v : value) : (size v <= List.length (serialize v))%nat.
Proof.
  induction v as [| | b | n | s | items IH | props IH] using value_ind;
    try (destruct (serialize_head (VNum n)) as (c & t & E & _); rewrite E);
    try (simpl; lia).
  - destruct b; simpl; lia.
  - rewrite size_VArr. cbn [serialize]. rewrite !length_app.
    pose proof (length_joinText_items items IH).
    cbn [chars list_ascii_of_string List.length] in *. lia.
  - rewrite size_VObj, serialize_VObj, !length_app.
    pose proof (length_joinText_props (definedProps props)
                  (Forall_definedProps _ props IH)).
    cbn [chars list_ascii_of_string List.length] in *. lia.
Qed.

(** A plain value that is not [undefined], written with [JSON.stringify]
    and read with [JSON.parse], is the stored form of the value. *)
Lemma JSON_parse_stringify (v : value) (s : string) :
  plain v = true -> JSON_stringify v = Some s -> JSON_parse s = Some (stored v).
Proof.
  intros Hp Hs.
  assert (E : s = str (serialize v))
    by (unfold JSON_stringify in Hs; destruct v; try discriminate;
        injection Hs as <-; reflexivity).
  subst s. unfold JSON_parse. rewrite chars_str.
  pose proof (plain_readsBack v Hp (S (List.length (serialize v))) []) as H.
  rewrite app_nil_r in H. rewrite H; [reflexivity | | reflexivity].
  pose proof (size_le_length v). lia.
Qed.

(** ** The lists of a record *)

Lemma listOf_not_array (x : value) : isArray x = false -> listOf x = Ok [].
Proof. destruct x; try reflexivity. discriminate. Qed.

Lemma listOf_array (items : list value) :
  listOf (VArr items) = (strs <- mapM String_ items ;; Ok (firstValid 4 strs)).
Proof.
  unfold listOf, toStrArray, slice0.
  destruct (mapM String_ items) as [strs|e]; [|reflexivity].
  cbn [bind]. rewrite firstValid_filter. reflexivity.
Qed.

Lemma firstValid_length (n : nat) (l : list string) :
  (List.length (firstValid n l) <= n)%nat.
Proof. rewrite firstValid_filter. apply firstn_le_length. Qed.

Lemma firstValid_nonEmpty (n : nat) (l : list string) :
  Forall (fun s => s <> EmptyString) (firstValid n l).
Proof.
  rewrite firstValid_filter. apply Forall_firstn.
  apply Forall_forall. intros s H. apply filter_In in H.
  apply nonEmpty_spec, H.
Qed.

(** ** The submit action *)

Lemma ageArgument_spec (a : string) :
  (if isNaN (StringToNumber a) then None else Some (StringToNumber a))
  = ageArgument a.
Proof. reflexivity. Qed.

(** A failed analysis leaves everything but the busy flag and the progress
    text as it was. *)
Lemma onAnalyze_failure (env : Env) (w : World) (f : File) (e : error) :
  file (ui w) = Some f ->
  analyzeWithGemini env f (ageArgument (age (ui w))) = Throw e ->
  onAnalyze env w
  = (mkWorld (mkAppState (activeTab (ui w)) (file (ui w)) (age (ui w)) false
                EmptyString (result (ui w)) (history (ui w)))
       (localStorage w),
     Some (Failed e)).
Proof.
  intros Hf He. unfold onAnalyze. rewrite Hf, ageArgument_spec, He, <- Hf.
  reflexivity.
Qed.

(** A successful analysis over a history that is an array. *)
Lemma onAnalyze_record (env : Env) (w : World) (e : value) (items : list value) :
  entryOf env (ui w) = Some e ->
  history (ui w) = VArr items ->
  let w' := fst (onAnalyze env w) in
  history (ui w') = VArr (slice0 25 (e :: items)) /\
  result (ui w') = e /\
  file (ui w') = file (ui w) /\ age (ui w') = age (ui w) /\
  localStorage w'
  = (if storageFull env then localStorage w else saveHistory (slice0 25 (e :: items))).
Proof.
  unfold entryOf, onAnalyze. intros He Hh.
  destruct (file (ui w)) as [f|]; [|discriminate].
  rewrite ageArgument_spec.
  destruct (analyzeWithGemini env f (ageArgument (age (ui w)))) as [res|err];
    [|discriminate].
  injection He as <-. rewrite Hh. cbn [spread].
  destruct (storageFull env); cbn; auto.
Qed.

(** The other outcomes of the submit action leave the history and the
    storage as they were. *)
Lemma onAnalyze_no_record (env : Env) (w : World) :
  entryOf env (ui w) = None ->
  history (ui (fst (onAnalyze env w))) = history (ui w) /\
  localStorage (fst (onAnalyze env w)) = localStorage w /\
  result (ui (fst (onAnalyze env w))) = result (ui w).
Proof.
  unfold entryOf, onAnalyze. intros He.
  destruct (file (ui w)) as [f|]; [|auto].
  rewrite ageArgument_spec.
  destruct (analyzeWithGemini env f (ageArgument (age (ui w)))) as [res|err];
    [discriminate|]. cbn. auto.
Qed.

(** ** The bounded history (C6) *)

Lemma firstn_app_firstn {A : Type} (n : nat) (a b : list A) :
  firstn n (a ++ firstn n b) = firstn n (a ++ b).
Proof.
  rewrite !firstn_app, firstn_firstn.
  replace (Nat.min (n - List.length a) n) with (n - List.length a)%nat by lia.
  reflexivity.
Qed.

(** Recording entries one after the other keeps the 25 latest, the latest
    first. *)
Lemma record_all_cut {A : Type} (es h : list A) :
  fold_left (fun l e => slice0 25 (e :: l)) es (slice0 25 h)
  = slice0 25 (rev es ++ h).
Proof.
  unfold slice0. revert h. induction es as [|e r IH]; intros h; [reflexivity|].
  cbn [fold_left rev].
  change (e :: firstn 25 h) with ([e] ++ firstn 25 h).
  rewrite (firstn_app_firstn 25 [e] h). cbn [app].
  rewrite (IH (e :: h)), <- app_assoc. reflexivity.
Qed.

Lemma record_all {A : Type} (e : A) (es h : list A) :
  fold_left (fun l e => slice0 25 (e :: l)) (e :: es) h
  = slice0 25 (rev (e :: es) ++ h).
Proof.
  cbn [fold_left rev]. rewrite record_all_cut, <- app_assoc. reflexivity.
Qed.

Lemma slice0_length {A : Type} (n : nat) (l : list A) :
  (List.length (slice0 n l) <= n)%nat.
Proof. apply firstn_le_length. Qed.

Lemma slice0_full {A : Type} (n : nat) (a b : list A) :
  (n <= List.length a)%nat ->
  slice0 n (a ++ b) = slice0 n a /\ List.length (slice0 n a) = n.
Proof.
  intros H. unfold slice0. split.
  - rewrite firstn_app. replace (n - List.length a)%nat with O by lia.
    simpl. apply app_nil_r.
  - apply firstn_length_le, H.
Qed.

(** The history after a run within a session: every record made has been
    put at the head and the history cut to 25, and nothing else has touched
    it. *)
Lemma run_records (evs : list event) :
  forall (w : World) (items : list value),
    inSession evs = true ->
    history (ui w) = VArr items ->
    history (ui (run w evs))
    = VArr (fold_left (fun l e => slice0 25 (e :: l)) (recorded w evs) items).
Proof.
  induction evs as [|ev r IH]; intros w items Hs Hh; [exact Hh|].
  cbn [inSession forallb] in Hs. apply andb_prop in Hs. destruct Hs as (Hev & Hs).
  unfold run. cbn [fold_left recorded]. fold (run (step w ev) r).
  rewrite fold_left_app.
  destruct ev as [f | a | k | idx | env |]; try discriminate;
    try (cbn [fold_left]; apply IH; [exact Hs | exact Hh]).
  - cbn [fold_left]. apply IH; [exact Hs|].
    cbn [step]. unfold onSelect. rewrite Hh.
    destruct (nth_error items idx) as [it|]; [destruct (truthy it)|];
      first [exact Hh | reflexivity].
  - cbn [step]. destruct (entryOf env (ui w)) as [e|] eqn:E.
    + destruct (onAnalyze_record env w e items E Hh) as (Hh' & _).
      cbn [fold_left]. apply IH; [exact Hs | exact Hh'].
    + destruct (onAnalyze_no_record env w E) as (Hh' & _).
      cbn [fold_left]. apply IH; [exact Hs | congruence].
Qed.

(** ** Records that the submit action makes are good *)

Lemma strings_plain (l : list string) : plain (strings l) = true.
Proof. unfold strings. cbn [plain]. induction l; simpl; auto. Qed.

Lemma mkEntry_plain (res : Analysis) (ts : number) (url : string)
    (a : option number) (grp : string) :
  plain (mkEntry res ts url a grp) = true.
Proof.
  unfold mkEntry. cbn [plain forallb snd]. rewrite !strings_plain.
  destruct a as [n|]; reflexivity.
Qed.

Lemma mkEntry_constrained (res : Analysis) (ts : number) (url : string)
    (a : option number) (grp : string) :
  constrained (mkEntry res ts url a grp)
  = inRange (VNum (severity res))
    && isShortList (strings (precautions res))
    && isShortList (strings (meds res)).
Proof. reflexivity. Qed.

Lemma severityOf_in_range (x : value) (n : number) :
  severityOf x = Ok n -> inRange (VNum n) = true.
Proof.
  unfold severityOf. intros H. destruct (Number_ x) as [m|e]; [|discriminate].
  injection H as <-.
  destruct (clamp_in_range _ (numOr_not_NaN m)) as (H1 & H2).
  cbn [inRange]. rewrite H1, H2. reflexivity.
Qed.

Lemma isShortList_strings (l : list string) :
  (List.length l <= 4)%nat -> Forall (fun s => s <> EmptyString) l ->
  isShortList (strings l) = true.
Proof.
  intros Hl Hn. unfold isShortList, strings. rewrite length_map.
  apply andb_true_intro. split; [apply Nat.leb_le, Hl|].
  induction Hn as [|s r Hs _ IH]; [reflexivity|].
  cbn [map forallb]. simpl in Hl. rewrite IH by lia.
  apply nonEmpty_spec in Hs. rewrite Hs. reflexivity.
Qed.

Lemma listOf_short (x : value) (l : list string) :
  listOf x = Ok l -> isShortList (strings l) = true.
Proof.
  intros H. apply isShortList_strings.
  - destruct x; try (injection H as <-; simpl; lia).
    rewrite listOf_array in H. apply bind_Ok in H. destruct H as (strs & _ & H).
    injection H as <-. apply firstValid_length.
  - destruct x; try (injection H as <-; constructor).
    rewrite listOf_array in H. apply bind_Ok in H. destruct H as (strs & _ & H).
    injection H as <-. apply firstValid_nonEmpty.
Qed.

(** The record that the parser returns meets the constraints. *)
Lemma parseModelResponse_constrained (response : string) (res : Analysis) :
  parseModelResponse response = Ok res ->
  inRange (VNum (severity res)) = true /\
  isShortList (strings (precautions res)) = true /\
  isShortList (strings (meds res)) = true.
Proof.
  intros H. apply parseModelResponse_payload in H.
  destruct H as (m & props & _ & _ & H). apply normalize_Ok in H.
  destruct H as (_ & _ & Hs & Hp & Hm).
  split; [eapply severityOf_in_range, Hs|].
  split; eapply listOf_short; eassumption.
Qed.

Lemma analyzeWithGemini_answer (env : Env) (f : File) (a : option number)
    (res : Analysis) :
  analyzeWithGemini env f a = Ok res ->
  exists body, parseModelResponse body = Ok res.
Proof.
  unfold analyzeWithGemini. destruct (apiKey env) as [key|]; [|discriminate].
  destruct (String.eqb key ""); [discriminate|].
  destruct (endpoint env _) as [body|cause]; [eauto | discriminate].
Qed.

Lemma entryOf_good (env : Env) (s : AppState) (e : value) :
  entryOf env s = Some e -> good e = true.
Proof.
  unfold entryOf. destruct (file s) as [f|]; [|discriminate].
  destruct (analyzeWithGemini env f (ageArgument (age s))) as [res|err] eqn:E;
    [|discriminate].
  intros H. injection H as <-.
  apply analyzeWithGemini_answer in E. destruct E as (body & E).
  apply parseModelResponse_constrained in E. destruct E as (H1 & H2 & H3).
  unfold good. rewrite mkEntry_plain, mkEntry_constrained, H1, H2, H3. reflexivity.
Qed.

(** ** Good records stay good in the storage *)

Lemma isUndefined_stored (v : value) : isUndefined (stored v) = false.
Proof.
  destruct v; try reflexivity. cbn [stored]. destruct (isFinite n); reflexivity.
Qed.

Lemma definedProps_stored (ms : list (string * value)) :
  definedProps (map storedMember ms) = map storedMember ms.
Proof.
  unfold definedProps. induction ms as [|p r IH]; [reflexivity|].
  cbn [map filter storedMember snd]. rewrite isUndefined_stored. cbn [negb].
  f_equal. exact IH.
Qed.

Lemma plain_stored (v : value) : plain v = true -> plain (stored v) = true.
Proof.
  induction v as [| | b | n | s | items IH | props IH] using value_ind;
    intros Hp; try reflexivity.
  - cbn [stored]. destruct (isFinite n); reflexivity.
  - cbn [stored plain] in Hp |- *. rewrite forallb_forall in Hp.
    apply forallb_forall. intros x Hx. apply in_map_iff in Hx.
    destruct Hx as (y & <- & Hy). rewrite Forall_forall in IH. auto.
  - rewrite stored_VObj. cbn [plain] in Hp |- *.
    apply andb_prop in Hp. destruct Hp as (Hk & Hp).
    rewrite definedProps_stored, map_fst_storedMember, Hk. cbn [andb].
    apply forallb_forall. intros x Hx. apply in_map_iff in Hx.
    destruct Hx as (y & <- & Hy). apply filter_In in Hy. destruct Hy as (Hy & _).
    rewrite forallb_forall in Hp. rewrite Forall_forall in IH.
    cbn [storedMember snd]. auto.
Qed.

Lemma getOwn_defined (k : string) (props : list (string * value)) (x : value) :
  getOwn k props = Some x -> isUndefined x = false ->
  getOwn k (definedProps props) = Some x.
Proof.
  unfold getOwn, definedProps. intros H Hx.
  induction props as [|[k' v'] r IH]; [discriminate|].
  cbn [find fst] in H. cbn [filter snd].
  destruct (String.eqb k' k) eqn:E.
  - simpl in H. injection H as ->. rewrite Hx. cbn [negb find fst]. rewrite E.
    reflexivity.
  - destruct (negb (isUndefined v')); [cbn [find fst]; rewrite E|]; auto.
Qed.

Lemma getOwn_storedMember (k : string) (ms : list (string * value)) :
  getOwn k (map storedMember ms) = option_map stored (getOwn k ms).
Proof.
  unfold getOwn. induction ms as [|[k' v'] r IH]; [reflexivity|].
  cbn [map storedMember find fst snd]. destruct (String.eqb k' k); [reflexivity|].
  exact IH.
Qed.

Lemma field_stored (k : string) (props : list (string * value)) :
  isUndefined (field k (VObj props)) = false ->
  field k (stored (VObj props)) = stored (field k (VObj props)).
Proof.
  rewrite stored_VObj. unfold field. intros H.
  destruct (getOwn k props) as [x|] eqn:E; [|discriminate].
  rewrite getOwn_storedMember, (getOwn_defined k props x E H). reflexivity.
Qed.

Lemma inRange_finite (n : number) : inRange (VNum n) = true -> isFinite n = true.
Proof. destruct n as [| [|] | b | neg q d e]; try reflexivity; discriminate. Qed.

Lemma inRange_stored (x : value) :
  inRange x = true -> inRange (stored x) = true /\ isUndefined x = false.
Proof.
  destruct x; try discriminate. intros H. split; [|reflexivity].
  cbn [stored]. rewrite (inRange_finite n H).
  destruct n as [| [|] | b | neg q d e]; try discriminate; [reflexivity | exact H].
Qed.

Lemma isShortList_stored (x : value) :
  isShortList x = true -> stored x = x /\ isUndefined x = false.
Proof.
  destruct x; try discriminate. intros H. split; [|reflexivity].
  cbn [isShortList] in H. apply andb_prop in H. destruct H as (_ & H).
  cbn [stored]. f_equal. induction items as [|v r IH]; [reflexivity|].
  cbn [forallb] in H. apply andb_prop in H. destruct H as (Hv & Hr).
  cbn [map]. rewrite (IH Hr). destruct v; try discriminate. reflexivity.
Qed.

Lemma constrained_stored (v : value) :
  constrained v = true -> constrained (stored v) = true.
Proof.
  destruct v as [| | b | n | s | items | props]; try discriminate.
  unfold constrained. intros H.
  apply andb_prop in H. destruct H as (H & Hm).
  apply andb_prop in H. destruct H as (Hs & Hp).
  destruct (inRange_stored _ Hs) as (Hs' & Us).
  destruct (isShortList_stored _ Hp) as (Ep & Up).
  destruct (isShortList_stored _ Hm) as (Em & Um).
  rewrite !field_stored by assumption.
  rewrite Hs', Ep, Em, Hp, Hm. reflexivity.
Qed.

Lemma good_stored (v : value) : good v = true -> good (stored v) = true.
Proof.
  unfold good. intros H. apply andb_prop in H. destruct H as (Hp & Hc).
  rewrite (plain_stored v Hp), (constrained_stored v Hc). reflexivity.
Qed.

Lemma goodList_stored (items : list value) :
  goodList items -> goodList (map stored items).
Proof.
  intros (Hl & Hg). split; [rewrite length_map; exact Hl|].
  apply Forall_forall. intros x Hx. apply in_map_iff in Hx.
  destruct Hx as (y & <- & Hy). rewrite Forall_forall in Hg.
  apply good_stored; auto.
Qed.

(** ** Saving the history and reading it *)

Lemma readHistory_saveHistory (items : list value) :
  Forall (fun v => plain v = true) items ->
  readHistory (saveHistory items) = VArr (map stored items).
Proof.
  intros H. unfold readHistory, saveHistory.
  assert (Hp : plain (VArr items) = true)
    by (cbn [plain]; apply forallb_forall; rewrite Forall_forall in H; exact H).
  change (JSON_stringify (VArr items)) with (Some (str (serialize (VArr items)))).
  cbv zeta. set (s := str (serialize (VArr items))).
  assert (Hne : String.eqb s "" = false) by reflexivity.
  cbv iota beta. rewrite Hne, (JSON_parse_stringify (VArr items) s Hp eq_refl).
  reflexivity.
Qed.

Lemma goodList_plain (items : list value) :
  goodList items -> Forall (fun v => plain v = true) items.
Proof.
  intros (_ & H). eapply Forall_impl; [|exact H].
  intros v Hv. unfold good in Hv. apply andb_prop in Hv. tauto.
Qed.

Lemma goodList_constrained (items : list value) :
  goodList items -> Forall (fun v => constrained v = true) items.
Proof.
  intros (_ & H). eapply Forall_impl; [|exact H].
  intros v Hv. unfold good in Hv. apply andb_prop in Hv. tauto.
Qed.

Lemma goodList_record (e : value) (items : list value) :
  good e = true -> goodList items -> goodList (slice0 25 (e :: items)).
Proof.
  intros He (_ & Hg). split; [apply slice0_length|].
  apply Forall_firstn. constructor; assumption.
Qed.

(** ** The invariant *)

Lemma invariant_mount (ls : Storage) :
  ls = None \/ (exists items, ls = saveHistory items /\ goodList items) ->
  invariant (mount ls).
Proof.
  intros H. split; [|exact H]. cbn [mount ui history].
  destruct H as [-> | (items & -> & Hg)].
  - exists []. split; [reflexivity|]. split; [simpl; lia | constructor].
  - exists (map stored items).
    split; [apply readHistory_saveHistory, goodList_plain, Hg|].
    apply goodList_stored, Hg.
Qed.

Lemma invariant_step (w : World) (ev : event) :
  invariant w -> invariant (step w ev).
Proof.
  intros ((items & Hh & Hg) & Hs).
  destruct ev as [f | a | k | idx | env |]; cbn [step].
  - split; [exists items; auto | exact Hs].
  - split; [exists items; auto | exact Hs].
  - split; [exists items; auto | exact Hs].
  - unfold onSelect. rewrite Hh.
    destruct (nth_error items idx) as [it|]; [destruct (truthy it)|];
      (split; [exists items; auto | exact Hs]).
  - destruct (entryOf env (ui w)) as [e|] eqn:E.
    + destruct (onAnalyze_record env w e items E Hh) as (Hh' & _ & _ & _ & Hs').
      pose proof (goodList_record e items (entryOf_good _ _ _ E) Hg) as Hg'.
      split; [eexists; split; [exact Hh' | exact Hg']|].
      rewrite Hs'. destruct (storageFull env); [exact Hs|].
      right. eexists. split; [reflexivity | exact Hg'].
    + destruct (onAnalyze_no_record env w E) as (Hh' & Hs' & _).
      split; [exists items; rewrite Hh'; auto | rewrite Hs'; exact Hs].
  - apply invariant_mount, Hs.
Qed.

(** Every state that the application reaches from a fresh start keeps the
    invariant. *)
Lemma invariant_run (evs : list event) : invariant (run (mount None) evs).
Proof.
  unfold run. rewrite <- fold_left_rev_right.
  induction (rev evs) as [|ev r IH]; cbn [fold_right].
  - apply invariant_mount. left. reflexivity.
  - apply invariant_step, IH.
Qed.

(** ** The age group of a new record (C1) *)

(** The record that [onAnalyze] shows once the analysis has answered has
    the age group of [Number(age)], [age] being the text of the field. *)
Lemma onAnalyze_ageGroup (env : Env) (w : World) (f : File) (res : Analysis) :
  file (ui w) = Some f ->
  analyzeWithGemini env f
    (if isNaN (StringToNumber (age (ui w))) then None
     else Some (StringToNumber (age (ui w)))) = Ok res ->
  result (ui (fst (onAnalyze env w)))
  = mkEntry res (now env) (objectUrl f)
      (if isNaN (StringToNumber (age (ui w))) then None
       else Some (StringToNumber (age (ui w))))
      (toAgeGroup (Some (StringToNumber (age (ui w))))).
Proof.
  intros Hf Hres. unfold onAnalyze. rewrite Hf, Hres.
  destruct (spread (history (ui w))); [|reflexivity].
  destruct (storageFull env); reflexivity.
Qed.

(** The age text [7] gives the group [Child]. *)
Lemma ageGroup_seven : toAgeGroup (Some (StringToNumber "7")) = "Child"%string.
Proof. reflexivity. Qed.

(** A text that is no number gives the group [Any Age]. *)
Lemma ageGroup_not_a_number (a : string) :
  isNaN (StringToNumber a) = true ->
  toAgeGroup (Some (StringToNumber a)) = "Any Age"%string.
Proof. intros H. unfold toAgeGroup. rewrite H. reflexivity. Qed.

(** C1, where the code departs from it: with the age field left empty,
    [Number('')] is [0], so the record made by a successful analysis has the
    age [0] and the age group [Child], not [Any Age]. *)
Theorem C1_empty_age_gives_child (env : Env) (w : World) (f : File) (res : Analysis) :
  file (ui w) = Some f ->
  age (ui w) = EmptyString ->
  analyzeWithGemini env f (Some (Zero false)) = Ok res ->
  field "ageGroup" (result (ui (fst (onAnalyze env w)))) = VStr "Child" /\
  field "age" (result (ui (fst (onAnalyze env w)))) = VNum (Zero false).
Proof.
  intros Hf Ha Hres.
  rewrite (onAnalyze_ageGroup env w f res Hf); rewrite Ha; [split; reflexivity|].
  exact Hres.
Qed.

Lemma C1_empty_age_gives_child_witness :
  field "ageGroup" (result (ui (fst (onAnalyze sampleEnv emptyAgeWorld)))) = VStr "Child" /\
  field "age" (result (ui (fst (onAnalyze sampleEnv emptyAgeWorld)))) = VNum (Zero false).
Proof.
  apply (C1_empty_age_gives_child sampleEnv emptyAgeWorld sampleFile sampleAnalysis);
    reflexivity.
Defined.

(** ** The labels (C2) *)

(** C2 as stated fails: a label outside the vocabulary is kept as it is. *)
Lemma C2_unrecognized_label_is_kept :
  parseModelResponse (dq "{'type':'Banana','stage':'Healed'}")
  = Ok (mkAnalysis "Banana" "Healed" (Zero false) [] []) /\
  ~ In "Banana"%string typeVocabulary /\
  ~ In "Healed"%string stageVocabulary.
Proof.
  split; [reflexivity|].
  split; intros H; simpl in H; repeat (destruct H as [H|H]; [discriminate|]);
    exact H.
Qed.

(** C2 as amended: in every record made from a payload, the type is
    [Other] when the source type is absent or falsy, and is otherwise the
    string form of the source type, whatever it is; the stage likewise, with
    [Unknown]. *)
Theorem C2_label_kept_or_defaulted (props : list (string * value)) (r : Analysis) :
  normalize (VObj props) = Ok r ->
  (if truthy (field "type" (VObj props))
   then String_ (field "type" (VObj props)) = Ok (type r)
   else type r = "Other"%string) /\
  (if truthy (field "stage" (VObj props))
   then String_ (field "stage" (VObj props)) = Ok (stage r)
   else stage r = "Unknown"%string).
Proof.
  intros H. apply normalize_Ok in H. destruct H as (Ht & Hs & _).
  unfold labelOf, or_else in Ht, Hs. split.
  - destruct (truthy (field "type" (VObj props))); [exact Ht|].
    simpl in Ht. congruence.
  - destruct (truthy (field "stage" (VObj props))); [exact Hs|].
    simpl in Hs. congruence.
Qed.

Lemma C2_label_kept_or_defaulted_witness :
  (String_ (VStr "Cut") = Ok "Cut"%string) /\ "Unknown"%string = "Unknown"%string.
Proof.
  exact (C2_label_kept_or_defaulted
           [("type"%string, VStr "Cut"); ("stage"%string, VNull)]
           (mkAnalysis "Cut" "Unknown" (Zero false) [] [])
           eq_refl).
Defined.

(** ** The severity (C3) *)

(** Where [Number] can coerce the raw severity [s] (every value but an
    object with an own property named [toString], or an array that holds
    one), the severity of the record is [clamp(numberOr(s, 0), 0, 100)] and
    lies between 0 and 100. *)
Lemma severityOf_is_clamped (s : value) :
  hidesToString s = false ->
  exists n,
    numberOr s (Zero false) = Ok n /\
    severityOf s = Ok (clamp n (Zero false) (ofZ 100)) /\
    numLe (Zero false) (clamp n (Zero false) (ofZ 100)) = true /\
    numLe (clamp n (Zero false) (ofZ 100)) (ofZ 100) = true /\
    (forall props r,
       field "severity" (VObj props) = s ->
       normalize (VObj props) = Ok r ->
       severity r = clamp n (Zero false) (ofZ 100)).
Proof.
  intros Hs. destruct (Number_shown s Hs) as (m & Hm).
  exists (if isNaN m then Zero false else m).
  assert (Hn : isNaN (if isNaN m then Zero false else m) = false)
    by (destruct m; reflexivity).
  assert (He : severityOf s
               = Ok (clamp (if isNaN m then Zero false else m) (Zero false) (ofZ 100))).
  { unfold severityOf. rewrite Hm. cbn [bind]. rewrite clamp_numOr. reflexivity. }
  destruct (clamp_in_range _ Hn) as (H1 & H2).
  split; [unfold numberOr; rewrite Hm; reflexivity|].
  split; [exact He|]. split; [exact H1|]. split; [exact H2|].
  intros props r <- H. apply normalize_Ok in H. destruct H as (_ & _ & H & _).
  congruence.
Qed.

(** A raw severity that is an object without a property named [toString]
    is no number, and the severity is the default 0: this is what
    [Number(json.severity) || 0] is there for. *)
Lemma severityOf_plain_object (props : list (string * value)) :
  hasOwn "toString" props = false -> severityOf (VObj props) = Ok (Zero false).
Proof.
  intros H. unfold severityOf, Number_. cbn [String_]. rewrite H. reflexivity.
Qed.

(** A payload one of whose fields cannot be normalised gives no record. *)
Lemma normalize_throws (props : list (string * value)) :
  (forall r, normalize (VObj props) = Ok r -> False) ->
  normalize (VObj props) = Throw TypeError.
Proof.
  intros H. destruct (normalize (VObj props)) as [r|e] eqn:E.
  - exfalso. apply (H r). reflexivity.
  - rewrite (normalize_TypeError _ _ E). reflexivity.
Qed.

Lemma parseModelResponse_of_span (response : string) (m : text) (json : value) :
  braceSpan (chars response) = Some m ->
  JSON_parse (str m) = Some json ->
  parseModelResponse response = normalize json.
Proof.
  intros Hm Hj. unfold parseModelResponse. rewrite matchJson_braceSpan, Hm, Hj.
  reflexivity.
Qed.

(** C3, where the code departs from it: a raw severity that is an object
    with an own property named [toString] (or an array that holds one)
    cannot be coerced, [Number] throws a TypeError that nothing in the parser
    catches, and no record is made: neither the default 0 nor any other
    severity between 0 and 100 comes out. *)
Theorem C3_severity_coercion_throws (s : value) :
  hidesToString s = true ->
  severityOf s = Throw TypeError /\
  (forall props,
     field "severity" (VObj props) = s ->
     normalize (VObj props) = Throw TypeError) /\
  (forall response m props,
     braceSpan (chars response) = Some m ->
     JSON_parse (str m) = Some (VObj props) ->
     field "severity" (VObj props) = s ->
     parseModelResponse response = Throw TypeError).
Proof.
  intros Hs.
  assert (N : forall props, field "severity" (VObj props) = s ->
                            normalize (VObj props) = Throw TypeError).
  { intros props E. apply normalize_throws. intros r H.
    apply normalize_Ok in H. destruct H as (_ & _ & H & _).
    rewrite E, (severityOf_hidden s Hs) in H. discriminate. }
  split; [apply severityOf_hidden, Hs|]. split; [exact N|].
  intros response m props Hm Hj E.
  rewrite (parseModelResponse_of_span response m _ Hm Hj). apply N, E.
Qed.

Lemma C3_severity_coercion_throws_witness :
  JSON_parse (dq "{'severity':{'toString':1}}")
  = Some (VObj [("severity"%string, VObj [("toString"%string, VNum (ofZ 1))])]) /\
  severityOf (VObj [("toString"%string, VNum (ofZ 1))]) = Throw TypeError /\
  normalize (VObj [("severity"%string, VObj [("toString"%string, VNum (ofZ 1))])])
  = Throw TypeError /\
  parseModelResponse (dq "{'severity':{'toString':1}}") = Throw TypeError.
Proof.
  destruct (C3_severity_coercion_throws
              (VObj [("toString"%string, VNum (ofZ 1))]) eq_refl) as (H1 & H2 & H3).
  split; [reflexivity|]. split; [exact H1|]. split.
  - apply H2. reflexivity.
  - apply (H3 _ (chars (dq "{'severity':{'toString':1}}"))
             [("severity"%string, VObj [("toString"%string, VNum (ofZ 1))])]);
      reflexivity.
Defined.

(** ** The lists (C4) *)

(** Where [String] can coerce the items of the raw value (none of them
    hides [toString]), the normalised list is empty when the value is no
    array, and for an array it is made of the first four items whose string
    form is not empty, in their order: it has at most four entries and no
    empty one. *)
Lemma listOf_is_first_valid_entries (x : value) :
  itemsCoercible x = true ->
  exists l,
    listOf x = Ok l /\
    (List.length l <= 4)%nat /\
    Forall (fun s => s <> EmptyString) l /\
    (isArray x = false -> l = []) /\
    (forall items, x = VArr items ->
       exists strs, mapM String_ items = Ok strs /\ l = firstValid 4 strs) /\
    (forall props r,
       normalize (VObj props) = Ok r ->
       (field "precautions" (VObj props) = x -> precautions r = l) /\
       (field "meds" (VObj props) = x -> meds r = l)).
Proof.
  intros Hx.
  assert (H : exists l, listOf x = Ok l /\
                (isArray x = false -> l = []) /\
                (forall items, x = VArr items ->
                   exists strs, mapM String_ items = Ok strs /\ l = firstValid 4 strs)).
  { destruct x as [| | b | n | s | items | props];
      try (exists []; split; [reflexivity|];
           split; [intros _; reflexivity | intros items E; discriminate]).
    cbn [itemsCoercible] in Hx. apply negb_true_iff in Hx.
    destruct (mapM_String_shown items Hx) as (strs & Hs).
    exists (firstValid 4 strs). rewrite listOf_array, Hs.
    split; [reflexivity|]. split; [discriminate|].
    intros items' E. injection E as <-. eauto. }
  destruct H as (l & Hl & Hn & Ha). exists l.
  split; [exact Hl|].
  assert (Hshort : isShortList (strings l) = true) by (eapply listOf_short, Hl).
  split; [|split; [|split; [exact Hn | split; [exact Ha|]]]].
  - unfold isShortList, strings in Hshort. rewrite length_map in Hshort.
    apply andb_prop in Hshort. destruct Hshort as (H & _). apply Nat.leb_le, H.
  - destruct x; try (injection Hl as <-; constructor).
    rewrite listOf_array in Hl. apply bind_Ok in Hl. destruct Hl as (strs & _ & Hl).
    injection Hl as <-. apply firstValid_nonEmpty.
  - intros props r H. apply normalize_Ok in H. destruct H as (_ & _ & _ & Hp & Hm).
    split; intros E; rewrite E in *; congruence.
Qed.

(** An item that is an object without a property named [toString] has a
    string form and is kept: [v.map(String)] is meant to take any item. *)
Lemma listOf_plain_object_item (props : list (string * value)) :
  hasOwn "toString" props = false ->
  listOf (VArr [VObj props]) = Ok ["[object Object]"%string].
Proof.
  intros H. unfold listOf, toStrArray. cbn [mapM String_]. rewrite H. reflexivity.
Qed.

(** C4, where the code departs from it: a raw list that holds an object
    with an own property named [toString] (or an array that holds one)
    cannot be coerced, [String] throws a TypeError on the item that nothing
    in the parser catches, and no record is made: no list of at most four
    strings comes out. *)
Theorem C4_list_coercion_throws (items : list value) :
  existsb hidesToString items = true ->
  listOf (VArr items) = Throw TypeError /\
  (forall props,
     field "precautions" (VObj props) = VArr items \/
     field "meds" (VObj props) = VArr items ->
     normalize (VObj props) = Throw TypeError) /\
  (forall response m props,
     braceSpan (chars response) = Some m ->
     JSON_parse (str m) = Some (VObj props) ->
     field "precautions" (VObj props) = VArr items \/
     field "meds" (VObj props) = VArr items ->
     parseModelResponse response = Throw TypeError).
Proof.
  intros Hi.
  assert (N : forall props,
                field "precautions" (VObj props) = VArr items \/
                field "meds" (VObj props) = VArr items ->
                normalize (VObj props) = Throw TypeError).
  { intros props E. apply normalize_throws. intros r H.
    apply normalize_Ok in H. destruct H as (_ & _ & _ & Hp & Hm).
    destruct E as [E | E]; rewrite E, (listOf_hidden items Hi) in *; discriminate. }
  split; [apply listOf_hidden, Hi|]. split; [exact N|].
  intros response m props Hm Hj E.
  rewrite (parseModelResponse_of_span response m _ Hm Hj). apply N, E.
Qed.

Lemma C4_list_coercion_throws_witness :
  JSON_parse (dq "{'precautions':['rest',{'toString':null}]}")
  = Some (VObj [("precautions"%string,
                 VArr [VStr "rest"; VObj [("toString"%string, VNull)]])]) /\
  listOf (VArr [VStr "rest"; VObj [("toString"%string, VNull)]]) = Throw TypeError /\
  parseModelResponse (dq "{'precautions':['rest',{'toString':null}]}")
  = Throw TypeError.
Proof.
  destruct (C4_list_coercion_throws
              [VStr "rest"; VObj [("toString"%string, VNull)]] eq_refl)
    as (H1 & _ & H3).
  split; [reflexivity|]. split; [exact H1|].
  apply (H3 _ (chars (dq "{'precautions':['rest',{'toString':null}]}"))
            [("precautions"%string,
              VArr [VStr "rest"; VObj [("toString"%string, VNull)]])]);
    first [reflexivity | left; reflexivity].
Defined.

(** ** The extraction of the payload (C5) *)

(** C5: the parser fails with [NoJsonFound] exactly when the response has
    no span from a first opening brace to a later last closing brace, and
    otherwise parses exactly that span as JSON, the record being the
    normalisation of what it parses to. *)
Theorem C5_parser_reads_brace_span (response : string) :
  (parseModelResponse response = Throw NoJsonFound
   <-> braceSpan (chars response) = None) /\
  (forall m, braceSpan (chars response) = Some m ->
     parseModelResponse response
     = match JSON_parse (str m) with
       | Some json => normalize json
       | None => Throw MalformedResponse
       end).
Proof.
  unfold parseModelResponse. rewrite matchJson_braceSpan.
  destruct (braceSpan (chars response)) as [m|]; split.
  - split; [|discriminate].
    destruct (JSON_parse (str m)) as [json|]; [|discriminate].
    intros H. apply normalize_TypeError in H. discriminate.
  - intros m' H. injection H as <-.
    destruct (JSON_parse (str m)); reflexivity.
  - split; reflexivity.
  - discriminate.
Qed.

(** ** The bounded history (C6) *)

(** C6: over a run of a session in which N records are made, from a history
    [items0], the history ends as the records made, the latest first,
    followed by the old ones, cut to 25: each record goes to the head.  From
    N = 25 on it is exactly the 25 latest records, the latest first.  And in
    every state that the application reaches from a fresh start the history
    is an array of at most 25 entries. *)
Theorem C6_history_keeps_latest_25 (w : World) (evs : list event)
    (items0 : list value) :
  history (ui w) = VArr items0 ->
  inSession evs = true ->
  (recorded w evs <> [] ->
   history (ui (run w evs)) = VArr (slice0 25 (rev (recorded w evs) ++ items0))) /\
  ((25 <= List.length (recorded w evs))%nat ->
   history (ui (run w evs))
   = VArr (rev (skipn (List.length (recorded w evs) - 25) (recorded w evs))) /\
   List.length (rev (skipn (List.length (recorded w evs) - 25) (recorded w evs)))
   = 25%nat) /\
  (forall evs', exists items,
     history (ui (run (mount None) evs')) = VArr items /\
     (List.length items <= 25)%nat).
Proof.
  intros Hh Hs. pose proof (run_records evs w items0 Hs Hh) as R.
  set (entries := recorded w evs) in *.
  assert (E : entries <> [] ->
              history (ui (run w evs)) = VArr (slice0 25 (rev entries ++ items0))).
  { intros Hne. rewrite R. destruct entries as [|e es]; [contradiction|].
    rewrite record_all. reflexivity. }
  split; [exact E|]. split.
  - intros Hn.
    assert (Hne : entries <> []) by (intros Ee; rewrite Ee in Hn; simpl in Hn; lia).
    rewrite (E Hne).
    assert (Hl : (25 <= List.length (rev entries))%nat) by (rewrite length_rev; exact Hn).
    destruct (slice0_full 25 (rev entries) items0 Hl) as (-> & Hlen).
    unfold slice0 in *. rewrite firstn_rev in *. auto.
  - intros evs'. destruct (invariant_run evs') as ((items & Hi & Hl & _) & _).
    exists items. auto.
Qed.

(** C6 over 26 submit actions, with a change of the age on the way: the
    first record is gone and the other 25 are there, the latest first. *)
Lemma C6_history_keeps_latest_25_witness :
  history (ui (run sampleWorld sampleSession))
  = VArr (rev (skipn 1 (recorded sampleWorld sampleSession))) /\
  List.length (rev (skipn 1 (recorded sampleWorld sampleSession))) = 25%nat.
Proof.
  destruct (C6_history_keeps_latest_25 sampleWorld sampleSession [] eq_refl eq_refl)
    as (_ & H25 & _).
  apply H25. vm_compute. lia.
Defined.

(** ** The records in the storage (C7) *)

(** C7: every record that the submit action makes, in whatever state, has a
    severity between 0 and 100 and lists of at most four strings, none
    empty; and in every state that the application reaches from a fresh
    start, the storage is empty or holds the text of the array that
    [saveHistory] was given, every record of which, as it was written and
    as it is read back, meets these constraints. *)
Theorem C7_stored_records_meet_constraints (evs : list event) :
  (forall env s e, entryOf env s = Some e -> constrained e = true) /\
  (localStorage (run (mount None) evs) = None \/
   exists written,
     localStorage (run (mount None) evs) = saveHistory written /\
     Forall (fun v => constrained v = true) written /\
     readHistory (localStorage (run (mount None) evs)) = VArr (map stored written) /\
     Forall (fun v => constrained v = true) (map stored written)).
Proof.
  split.
  { intros env s e H. apply entryOf_good in H. unfold good in H.
    apply andb_prop in H. tauto. }
  destruct (invariant_run evs) as (_ & [H | (written & H & Hg)]); [left; exact H|].
  right. exists written. rewrite H.
  split; [reflexivity|].
  split; [apply goodList_constrained, Hg|].
  split; [apply readHistory_saveHistory, goodList_plain, Hg|].
  apply goodList_constrained, goodList_stored, Hg.
Qed.

(** ** Failures of the analysis (C8) *)

(** The failures of the analysis path, each from its cause. *)
Lemma analysis_failures (env : Env) (f : File) (a : option number) :
  (apiKey env = None \/ apiKey env = Some EmptyString ->
   analyzeWithGemini env f a = Throw ConfigurationError) /\
  (forall key req cause,
     apiKey env = Some key -> key <> EmptyString ->
     req = mkRequest (buildPrompt a) (bytes f)
             (if String.eqb (fileType f) "" then "image/jpeg"%string else fileType f) ->
     (endpoint env req = Failure cause ->
      analyzeWithGemini env f a = Throw (AnalysisFailed cause)) /\
     (forall body,
        endpoint env req = Answer body ->
        (braceSpan (chars body) = None ->
         analyzeWithGemini env f a = Throw NoJsonFound) /\
        (forall m, braceSpan (chars body) = Some m -> JSON_parse (str m) = None ->
           analyzeWithGemini env f a = Throw MalformedResponse))).
Proof.
  unfold analyzeWithGemini. split.
  - intros [-> | ->]; reflexivity.
  - intros key req cause -> Hk ->.
    assert (E : String.eqb key "" = false)
      by (destruct key; [contradiction | reflexivity]).
    rewrite E. split; [intros ->; reflexivity|].
    intros body ->. unfold parseModelResponse. rewrite matchJson_braceSpan.
    split; [intros ->; reflexivity|]. intros m -> ->. reflexivity.
Qed.

(** C8: when the analysis fails, whatever the failure, the submit action
    reports it and leaves the history, the storage, the record on display
    and the tab as they were. *)
Theorem C8_failure_leaves_state_unchanged (env : Env) (w : World) (f : File)
    (e : error) :
  file (ui w) = Some f ->
  analyzeWithGemini env f (ageArgument (age (ui w))) = Throw e ->
  snd (onAnalyze env w) = Some (Failed e) /\
  history (ui (fst (onAnalyze env w))) = history (ui w) /\
  localStorage (fst (onAnalyze env w)) = localStorage w /\
  result (ui (fst (onAnalyze env w))) = result (ui w) /\
  activeTab (ui (fst (onAnalyze env w))) = activeTab (ui w).
Proof.
  intros Hf He. rewrite (onAnalyze_failure env w f e Hf He). cbn. auto.
Qed.

Lemma C8_failure_leaves_state_unchanged_witness :
  snd (onAnalyze envProse sampleWorld) = Some (Failed NoJsonFound) /\
  history (ui (fst (onAnalyze envProse sampleWorld))) = history (ui sampleWorld) /\
  localStorage (fst (onAnalyze envProse sampleWorld)) = localStorage sampleWorld /\
  result (ui (fst (onAnalyze envProse sampleWorld))) = result (ui sampleWorld) /\
  activeTab (ui (fst (onAnalyze envProse sampleWorld))) = activeTab (ui sampleWorld).
Proof.
  apply (C8_failure_leaves_state_unchanged envProse sampleWorld sampleFile NoJsonFound);
    reflexivity.
Defined.

(** ** Loading the history (C10) *)

(** C10: whatever value the stored text parses to is the history of the
    component as it mounts. *)
Theorem C10_load_returns_parsed_value (s : string) (v : value) :
  JSON_parse s = Some v ->
  readHistory (Some s) = v /\ history (ui (mount (Some s))) = v.
Proof.
  intros H. cbn [mount ui history]. unfold readHistory.
  destruct s as [|c s']; [discriminate|].
  cbn [String.eqb]. rewrite H. auto.
Qed.

Lemma C10_load_returns_parsed_value_witness :
  readHistory (Some (dq "{'severity':500}"))
  = VObj [("severity"%string, VNum (ofZ 500))] /\
  history (ui (mount (Some (dq "{'severity':500}"))))
  = VObj [("severity"%string, VNum (ofZ 500))].
Proof.
  apply (C10_load_returns_parsed_value (dq "{'severity':500}")). reflexivity.
Defined.

(** ** Saving and reloading records (C9) *)

Lemma stored_strings (l : list string) : stored (strings l) = strings l.
Proof.
  unfold strings. cbn [stored]. f_equal. rewrite map_map. reflexivity.
Qed.

Lemma stored_storable (n : number) :
  storable n = true ->
  (if isFinite n then VNum (storedNum n) else VNull) = VNum n.
Proof. destruct n as [| s | [|] | neg q d e]; try discriminate; reflexivity. Qed.

Lemma isUndefined_strings (l : list string) : isUndefined (strings l) = false.
Proof. reflexivity. Qed.

(** A record whose numbers can be stored reads back with every field as it
    was; the [age] that was [undefined] is not written and reads back
    [undefined]. *)
Lemma stored_toValue (r : AnalysisResult) (k : string) :
  storableResult r = true ->
  field k (stored (toValue r)) = field k (toValue r).
Proof.
  unfold storableResult. intros H.
  apply andb_prop in H. destruct H as (H & Ha).
  apply andb_prop in H. destruct H as (Hs & Ht).
  unfold toValue, mkEntry.
  destruct (patientAge r) as [a|];
    cbn [stored isUndefined ofOption];
    rewrite !isUndefined_strings; cbv iota;
    rewrite !stored_strings, ?(stored_storable _ Hs), ?(stored_storable _ Ht),
      ?(stored_storable _ Ha);
    unfold field, getOwn; cbn [find fst];
    repeat match goal with
           | |- context [String.eqb ?x k] => destruct (String.eqb x k) eqn:?
           end;
    try reflexivity;
    repeat match goal with
           | E : String.eqb _ k = true |- _ => apply String.eqb_eq in E
           end;
    congruence.
Qed.

Lemma stored_finite (n : number) :
  isFinite n = true ->
  (if isFinite n then VNum (storedNum n) else VNull) = VNum (storedNum n).
Proof. intros ->. reflexivity. Qed.

(** A record whose numbers are finite reads back with every field as it
    was, but for a [-0], which reads back as [0]. *)
Lemma restored_toValue (r : AnalysisResult) (k : string) :
  finiteResult r = true ->
  field k (stored (toValue r)) = restored (field k (toValue r)).
Proof.
  unfold finiteResult. intros H.
  apply andb_prop in H. destruct H as (H & Ha).
  apply andb_prop in H. destruct H as (Hs & Ht).
  unfold toValue, mkEntry.
  destruct (patientAge r) as [a|];
    cbn [stored isUndefined ofOption];
    rewrite !isUndefined_strings; cbv iota;
    rewrite !stored_strings, ?(stored_finite _ Hs), ?(stored_finite _ Ht),
      ?(stored_finite _ Ha);
    unfold field, getOwn; cbn [find fst];
    repeat match goal with
           | |- context [String.eqb ?x k] => destruct (String.eqb x k) eqn:?
           end;
    try reflexivity;
    repeat match goal with
           | E : String.eqb _ k = true |- _ => apply String.eqb_eq in E
           end;
    congruence.
Qed.

(** C9 as stated fails: an age typed as [-0], which the number field
    accepts, is recorded as [-0]; it is written [0], and read back it is
    [0], not the age of the record that was saved. *)
Lemma C9_negative_zero_age_is_not_restored :
  numberFieldText "-0" = true /\
  history (ui (run (mount None) negZeroSession)) = VArr [toValue negZeroAged] /\
  field "age" (toValue negZeroAged) = VNum (Zero true) /\
  localStorage (run (mount None) negZeroSession) = saveHistory [toValue negZeroAged] /\
  readHistory (saveHistory [toValue negZeroAged]) = VArr [stored (toValue negZeroAged)] /\
  history (ui (run (mount None) (negZeroSession ++ [Reload])))
  = VArr [stored (toValue negZeroAged)] /\
  field "age" (stored (toValue negZeroAged)) = VNum (Zero false).
Proof. repeat split; vm_compute; reflexivity. Qed.

(** C9 as amended: for every sequence of records whose numbers are finite,
    saving the sequence and reading it back gives a sequence of as many
    records in the same order, each with every field equal to the field of
    the record it comes from, but for a number [-0], which is read back as
    [0]; an age that was [undefined] is not written and reads back
    [undefined].  So a sequence none of whose numbers is [-0] is read back
    as it was, field by field. *)
Theorem C9_reload_keeps_finite_records (rs : list AnalysisResult) :
  Forall (fun r => finiteResult r = true) rs ->
  exists items,
    readHistory (saveHistory (map toValue rs)) = VArr items /\
    Forall2 (fun r v => forall k, field k v = restored (field k (toValue r)))
      rs items /\
    (Forall (fun r => storableResult r = true) rs ->
     Forall2 (fun r v => forall k, field k v = field k (toValue r)) rs items).
Proof.
  intros H. exists (map stored (map toValue rs)). split; [|split].
  - apply readHistory_saveHistory. apply Forall_forall. intros v Hv.
    apply in_map_iff in Hv. destruct Hv as (r & <- & _). apply mkEntry_plain.
  - induction H as [|r rs' Hr _ IH]; constructor; [|exact IH].
    intros k. apply restored_toValue, Hr.
  - clear H. intros H. induction H as [|r rs' Hr _ IH]; constructor; [|exact IH].
    intros k. apply stored_toValue, Hr.
Qed.

Lemma C9_reload_keeps_finite_records_witness :
  exists items,
    readHistory (saveHistory (map toValue [negZeroAged; sampleResult])) = VArr items /\
    Forall2 (fun r v => forall k, field k v = restored (field k (toValue r)))
      [negZeroAged; sampleResult] items /\
    (Forall (fun r => storableResult r = true) [negZeroAged; sampleResult] ->
     Forall2 (fun r v => forall k, field k v = field k (toValue r))
       [negZeroAged; sampleResult] items).
Proof.
  apply (C9_reload_keeps_finite_records [negZeroAged; sampleResult]).
  repeat constructor.
Defined.

(** ** Examples *)

Example StringToNumber_examples :
  StringToNumber "7" = Fin false 0 D7 0 /\
  StringToNumber "" = Zero false /\
  StringToNumber "  " = Zero false /\
  StringToNumber " 34 " = Fin false 3 D4 0 /\
  StringToNumber "abc" = NaN /\
  StringToNumber "12px" = NaN /\
  StringToNumber "-0" = Zero true /\
  StringToNumber "1e3" = Fin false 0 D1 3 /\
  StringToNumber "007.50" = Fin false 7 D5 (-1) /\
  StringToNumber ".5" = Fin false 0 D5 (-1) /\
  StringToNumber "5." = Fin false 0 D5 0 /\
  StringToNumber "." = NaN /\
  StringToNumber "0x1F" = Fin false 3 D1 0 /\
  StringToNumber "-Infinity" = Inf true /\
  StringToNumber "[object Object]" = NaN.
Proof. repeat split; reflexivity. Qed.

Example numToString_examples :
  numToString (ofZ 100) = "100"%string /\
  numToString (ofZ (-7)) = "-7"%string /\
  numToString (Fin false 1 D5 (-1)) = "1.5"%string /\
  numToString (Fin false 0 D5 (-7)) = "5e-7"%string /\
  numToString (Fin false 0 D5 (-6)) = "0.000005"%string /\
  numToString (Fin false 0 D1 21) = "1e+21"%string /\
  numToString (Fin false 12 D3 20) = "1.23e+22"%string /\
  numToString (Fin false 1 D7 11) = "1700000000000"%string /\
  numToString (Zero true) = "0"%string /\
  numToString (Inf true) = "-Infinity"%string.
Proof. repeat split; reflexivity. Qed.

Example coercion_examples :
  String_ (VArr [VNum (ofZ 1); VNull; VStr "a"; VArr [VBool true; VUndefined]])
    = Ok "1,,a,true,"%string /\
  String_ (VObj [("a"%string, VNull)]) = Ok "[object Object]"%string /\
  String_ (VObj [("toString"%string, VNum (ofZ 1))]) = Throw TypeError /\
  Number_ (VArr []) = Ok (Zero false) /\
  Number_ (VArr [VStr "42"]) = Ok (ofZ 42) /\
  Number_ (VArr [VNum (ofZ 1); VNum (ofZ 2)]) = Ok NaN /\
  Number_ (VObj []) = Ok NaN /\
  Number_ (VObj [("toString"%string, VNull)]) = Throw TypeError /\
  Number_ (VBool true) = Ok (ofZ 1).
Proof. repeat split; reflexivity. Qed.

Example JSON_parse_examples :
  JSON_parse (dq " [1, 2.5e3 , -0, true,false,null, 'a\nb', {'b':1,'2':2,'a':3,'1':4,'b':5}] ")
  = Some (VArr [VNum (ofZ 1); VNum (ofZ 2500); VNum (Zero true); VBool true;
                VBool false; VNull; VStr (String "a" (String (chr 10) "b"));
                VObj [("1"%string, VNum (ofZ 4)); ("2"%string, VNum (ofZ 2));
                      ("b"%string, VNum (ofZ 5)); ("a"%string, VNum (ofZ 3))]]) /\
  JSON_parse "[1,]" = None /\
  JSON_parse "01" = None /\
  JSON_parse "1." = None /\
  JSON_parse "" = None /\
  JSON_parse (dq "{'a':1} x") = None.
Proof. repeat split; reflexivity. Qed.

(** Scenario A: the reply wrapped in prose and a code fence. *)
Example scenario_A : parseModelResponse sampleReply = Ok sampleAnalysis.
Proof. reflexivity. Qed.

(** Scenarios B and C: no JSON in the reply, and no credential. *)
Example scenario_B_C :
  analyzeWithGemini envProse sampleFile None = Throw NoJsonFound /\
  analyzeWithGemini envNoKey sampleFile None = Throw ConfigurationError /\
  parseModelResponse "}{" = Throw NoJsonFound /\
  parseModelResponse "{ } }" = Throw MalformedResponse.
Proof. repeat split; reflexivity. Qed.

(** What one submit action stores. *)
Example stored_text :
  localStorage (run sampleWorld [Analyze (envAt 1700000000000)])
  = Some (dq "[{'type':'Burn','stage':'Inflammatory','severity':100,'precautions':['a','b'],'meds':[],'timestamp':1700000000000,'imageUrl':'blob:healscan/1','age':34,'ageGroup':'Adult'}]").
Proof. vm_compute. reflexivity. Qed.

(** The load takes a value of any shape: a number, an array of 26 items, a
    record with a severity out of range. *)
Example load_takes_any_shape :
  readHistory (Some "7"%string) = VNum (ofZ 7) /\
  (exists items,
     readHistory (Some "[1,2,3,4,5,6,7,8,9,10,11,12,13,14,15,16,17,18,19,20,21,22,23,24,25,26]"%string)
     = VArr items /\ List.length items = 26%nat) /\
  readHistory (Some (dq "[{'severity':500,'precautions':['','','','','']}]"))
  = VArr [VObj [("severity"%string, VNum (ofZ 500));
                ("precautions"%string,
                 VArr [VStr ""; VStr ""; VStr ""; VStr ""; VStr ""])]] /\
  readHistory (Some "not json"%string) = VArr [] /\
  readHistory None = VArr [].
Proof.
  split; [reflexivity|]. split; [eexists; split; vm_compute; reflexivity|].
  repeat split; reflexivity.
Qed.

(** ** The inline data in base64 *)

Lemma sextetOf_sextetChar (b5 b4 b3 b2 b1 b0 : bool) :
  sextetOf (sextetChar b5 b4 b3 b2 b1 b0) = Some (b5, b4, b3, b2, b1, b0).
Proof. destruct b5, b4, b3, b2, b1, b0; reflexivity. Qed.

Lemma sextetChar_not_pad (b5 b4 b3 b2 b1 b0 : bool) :
  Ascii.eqb (sextetChar b5 b4 b3 b2 b1 b0) "=" = false.
Proof. destruct b5, b4, b3, b2, b1, b0; reflexivity. Qed.

Lemma sextetChar_alphabet (b5 b4 b3 b2 b1 b0 : bool) :
  In (sextetChar b5 b4 b3 b2 b1 b0) base64Alphabet.
Proof.
  unfold sextetChar. apply nth_In.
  change (List.length base64Alphabet) with 64%nat.
  destruct b5, b4, b3, b2, b1, b0; simpl; lia.
Qed.

(** The loop of [base64FromBytes] builds the binary string of the bytes. *)
Lemma binary_of_bytes (l acc : text) :
  fold_left (fun a b => a ++ [b]) l acc = acc ++ l.
Proof.
  revert acc. induction l as [|b l IH]; intros acc; simpl.
  - rewrite app_nil_r. reflexivity.
  - rewrite IH, <- app_assoc. reflexivity.
Qed.

Lemma base64FromBytes_btoa (bytes : string) :
  base64FromBytes bytes = str (btoa (chars bytes)).
Proof. unfold base64FromBytes. rewrite binary_of_bytes. reflexivity. Qed.

Lemma base64Decode_btoa_bounded (n : nat) :
  forall t : text, (List.length t <= n)%nat -> base64Decode (btoa t) = Some t.
Proof.
  induction n as [|n IH]; intros t Hl.
  - destruct t; [reflexivity | simpl in Hl; lia].
  - destruct t as [|[a0 a1 a2 a3 a4 a5 a6 a7] [|[b0 b1 b2 b3 b4 b5 b6 b7]
                    [|[c0 c1 c2 c3 c4 c5 c6 c7] r]]];
      cbn [btoa base64Decode]; rewrite ?sextetOf_sextetChar, ?sextetChar_not_pad;
      try reflexivity.
    rewrite IH by (simpl in Hl; lia). reflexivity.
Qed.

Lemma base64Decode_btoa (t : text) : base64Decode (btoa t) = Some t.
Proof. apply (base64Decode_btoa_bounded (List.length t)). lia. Qed.

Lemma btoa_shape_bounded (n : nat) :
  forall t : text, (List.length t <= n)%nat ->
    List.length (btoa t) = (4 * ((List.length t + 2) / 3))%nat /\
    Forall (fun c => In c base64Alphabet \/ c = "="%char) (btoa t).
Proof.
  induction n as [|n IH]; intros t Hl.
  - destruct t; [split; [reflexivity | constructor] | simpl in Hl; lia].
  - destruct t as [|[a0 a1 a2 a3 a4 a5 a6 a7] [|[b0 b1 b2 b3 b4 b5 b6 b7]
                    [|[c0 c1 c2 c3 c4 c5 c6 c7] r]]];
      cbn [btoa].
    + split; [reflexivity | constructor].
    + split; [reflexivity|].
      repeat (first [apply Forall_cons | apply Forall_nil]);
        first [left; apply sextetChar_alphabet | right; reflexivity].
    + split; [reflexivity|].
      repeat (first [apply Forall_cons | apply Forall_nil]);
        first [left; apply sextetChar_alphabet | right; reflexivity].
    + destruct (IH r) as (Hn & Ha); [simpl in Hl; lia|].
      split.
      * cbn [List.length]. rewrite Hn.
        replace (S (S (S (List.length r))) + 2)%nat
          with (List.length r + 2 + 1 * 3)%nat by lia.
        rewrite Nat.div_add by lia. lia.
      * repeat (apply Forall_cons; [left; apply sextetChar_alphabet|]). exact Ha.
Qed.

(** X1: No two byte sequences have the same base64 text: the text can be
    decoded, and the decoding gives the bytes back. *)
Theorem base64FromBytes_keeps_the_bytes (bytes : string) :
  base64Decode (chars (base64FromBytes bytes)) = Some (chars bytes) /\
  (forall other, base64FromBytes other = base64FromBytes bytes -> other = bytes).
Proof.
  assert (D : forall b, base64Decode (chars (base64FromBytes b)) = Some (chars b)).
  { intros b. rewrite base64FromBytes_btoa, chars_str. apply base64Decode_btoa. }
  split; [apply D|].
  intros other E. pose proof (D other) as Do. rewrite E, D in Do.
  injection Do as Do. rewrite <- (str_chars other), <- (str_chars bytes).
  f_equal. symmetry. exact Do.
Qed.

(** X2: The base64 text of [n] bytes has [4 * ceil(n / 3)] characters, each of
    the alphabet or the padding [=]. *)
Theorem base64FromBytes_length_and_alphabet (bytes : string) :
  String.length (base64FromBytes bytes)
  = (4 * ((String.length bytes + 2) / 3))%nat /\
  Forall (fun c => In c base64Alphabet \/ c = "="%char)
         (chars (base64FromBytes bytes)).
Proof.
  rewrite base64FromBytes_btoa, chars_str.
  destruct (btoa_shape_bounded (List.length (chars bytes)) (chars bytes) (le_n _))
    as (Hn & Ha).
  split; [|exact Ha].
  assert (L : forall t : text, String.length (str t) = List.length t).
  { induction t as [|c t IH]; simpl; [reflexivity | rewrite IH; reflexivity]. }
  assert (L' : forall s : string, List.length (chars s) = String.length s).
  { induction s as [|c s IH]; simpl; [reflexivity | rewrite IH; reflexivity]. }
  rewrite L, Hn, L'. reflexivity.
Qed.

Lemma base64FromBytes_examples :
  base64FromBytes "Man" = "TWFu"%string /\
  base64FromBytes "Ma" = "TWE="%string /\
  base64FromBytes "M" = "TQ=="%string /\
  base64FromBytes EmptyString = EmptyString.
Proof. repeat split. Qed.

(** ** Whole numbers *)

Lemma nzVal_nzOf (r : Z) : 1 <= r <= 9 -> nzVal (nzOf r) = r.
Proof.
  intros H.
  assert (C : r = 1 \/ r = 2 \/ r = 3 \/ r = 4 \/ r = 5 \/ r = 6 \/ r = 7
              \/ r = 8 \/ r = 9) by lia.
  repeat (destruct C as [-> | C]; [reflexivity|]). subst r. reflexivity.
Qed.

(** A positive integer is a mantissa that does not end in zero, followed by
    zeros. *)
Lemma mantissa_zeros_bounded (n : nat) :
  forall m : Z, 0 < m <= Z.of_nat n ->
    exists q d j, m = mantissa q d * 10 ^ Z.of_nat j.
Proof.
  induction n as [|n IH]; intros m Hm; [lia|].
  destruct (Z.eq_dec (m mod 10) 0) as [E | E].
  - pose proof (Z.div_mod m 10 ltac:(lia)) as D. rewrite E, Z.add_0_r in D.
    destruct (IH (m / 10)) as (q & d & j & Hq); [lia|].
    exists q, d, (S j). rewrite Nat2Z.inj_succ, Z.pow_succ_r by lia.
    rewrite D at 1. rewrite Hq. ring.
  - pose proof (Z.mod_pos_bound m 10 ltac:(lia)) as B.
    pose proof (Z.div_mod m 10 ltac:(lia)) as D.
    assert (0 <= m / 10) by (apply Z.div_pos; lia).
    exists (Z.to_N (m / 10)), (nzOf (m mod 10)), O.
    unfold mantissa. rewrite nzVal_nzOf by lia. rewrite Z2N.id by lia.
    change (10 ^ Z.of_nat 0) with 1. lia.
Qed.

Lemma ofZ_zero : ofZ 0 = Zero false.
Proof. reflexivity. Qed.

Lemma ofZ_pos (z : Z) :
  0 < z -> exists q d j, z = mantissa q d * 10 ^ Z.of_nat j /\
                         ofZ z = Fin false q d (Z.of_nat j).
Proof.
  intros H.
  destruct (mantissa_zeros_bounded (Z.to_nat z) z ltac:(lia)) as (q & d & j & E).
  exists q, d, j. split; [exact E|].
  unfold ofZ. destruct (Z.ltb_spec z 0) as [L|L]; [lia|].
  rewrite Z.abs_eq by lia. rewrite E at 1. apply mkNumber_pow.
Qed.

Lemma ofZ_neg (z : Z) :
  z < 0 -> exists q d j, - z = mantissa q d * 10 ^ Z.of_nat j /\
                         ofZ z = Fin true q d (Z.of_nat j).
Proof.
  intros H.
  destruct (mantissa_zeros_bounded (Z.to_nat (- z)) (- z) ltac:(lia)) as (q & d & j & E).
  exists q, d, j. split; [exact E|].
  unfold ofZ. destruct (Z.ltb_spec z 0) as [L|L]; [|lia].
  rewrite Z.abs_neq by lia. rewrite E at 1. apply mkNumber_pow.
Qed.

Lemma compare_scale (x y p : Z) : 0 < p -> (x * p ?= y * p) = (x ?= y).
Proof.
  intros Hp. destruct (Z.compare_spec x y) as [-> | H | H].
  - apply Z.compare_refl.
  - apply Z.compare_lt_iff. nia.
  - apply Z.compare_gt_iff. nia.
Qed.

(** The comparison of two magnitudes with exponents that are not negative
    is that of the integers they stand for. *)
Lemma cmpMag_value (q1 : N) (d1 : nzdigit) (e1 : Z) (q2 : N) (d2 : nzdigit) (e2 : Z) :
  0 <= e1 -> 0 <= e2 ->
  cmpMag q1 d1 e1 q2 d2 e2
  = (mantissa q1 d1 * 10 ^ e1 ?= mantissa q2 d2 * 10 ^ e2).
Proof.
  intros H1 H2. unfold cmpMag.
  set (e := Z.min e1 e2).
  assert (He : 0 <= e <= e1 /\ e <= e2) by (unfold e; lia).
  assert (Hp : 0 < 10 ^ e) by (apply Z.pow_pos_nonneg; lia).
  rewrite <- (compare_scale _ _ (10 ^ e) Hp).
  rewrite <- !Z.mul_assoc, <- !Z.pow_add_r by lia.
  replace (e1 - e + e) with e1 by ring. replace (e2 - e + e) with e2 by ring.
  reflexivity.
Qed.

(** The order of the numbers of two integers is the order of the
    integers. *)
Lemma numCompare_ofZ (a b : Z) : numCompare (ofZ a) (ofZ b) = Some (a ?= b).
Proof.
  destruct (Z.lt_trichotomy a 0) as [Ha | [-> | Ha]];
    destruct (Z.lt_trichotomy b 0) as [Hb | [-> | Hb]];
    try (destruct (ofZ_neg a Ha) as (q1 & d1 & j1 & E1 & ->));
    try (destruct (ofZ_pos a Ha) as (q1 & d1 & j1 & E1 & ->));
    try (destruct (ofZ_neg b Hb) as (q2 & d2 & j2 & E2 & ->));
    try (destruct (ofZ_pos b Hb) as (q2 & d2 & j2 & E2 & ->));
    rewrite ?ofZ_zero; cbn [numCompare]; f_equal;
    rewrite ?cmpMag_value, <- ?E1, <- ?E2 by lia; symmetry;
    first [ reflexivity
          | rewrite Z.compare_opp; reflexivity
          | apply Z.compare_lt_iff; lia
          | apply Z.compare_gt_iff; lia ].
Qed.

Lemma numLe_ofZ (a b : Z) : numLe (ofZ a) (ofZ b) = (a <=? b).
Proof.
  unfold numLe. rewrite numCompare_ofZ. unfold Z.leb.
  destruct (a ?= b); reflexivity.
Qed.

Lemma numGe_ofZ (a b : Z) : numGe (ofZ a) (ofZ b) = (b <=? a).
Proof.
  unfold numGe. rewrite numCompare_ofZ. unfold Z.leb.
  rewrite (Z.compare_antisym a b). destruct (a ?= b); reflexivity.
Qed.

Lemma ofZ_not_special (z : Z) : isNaN (ofZ z) = false /\ isNegZero (ofZ z) = false.
Proof.
  destruct (Z.lt_trichotomy z 0) as [H | [-> | H]].
  - destruct (ofZ_neg z H) as (q & d & j & _ & ->). split; reflexivity.
  - split; reflexivity.
  - destruct (ofZ_pos z H) as (q & d & j & _ & ->). split; reflexivity.
Qed.

Lemma Math_min_ofZ (a b : Z) : Math_min (ofZ a) (ofZ b) = ofZ (Z.min a b).
Proof.
  unfold Math_min. rewrite numCompare_ofZ.
  destruct (ofZ_not_special a) as (_ & ->).
  destruct (a ?= b) eqn:E.
  - apply Z.compare_eq in E. subst b. rewrite Z.min_id. reflexivity.
  - rewrite Z.compare_lt_iff in E. rewrite Z.min_l by lia. reflexivity.
  - rewrite Z.compare_gt_iff in E. rewrite Z.min_r by lia. reflexivity.
Qed.

Lemma Math_max_ofZ (a b : Z) : Math_max (ofZ a) (ofZ b) = ofZ (Z.max a b).
Proof.
  unfold Math_max. rewrite numCompare_ofZ.
  destruct (ofZ_not_special a) as (_ & ->).
  destruct (a ?= b) eqn:E.
  - apply Z.compare_eq in E. subst b. rewrite Z.max_id. reflexivity.
  - rewrite Z.compare_lt_iff in E. rewrite Z.max_r by lia. reflexivity.
  - rewrite Z.compare_gt_iff in E. rewrite Z.max_l by lia. reflexivity.
Qed.

Lemma clamp_ofZ (z lo hi : Z) :
  clamp (ofZ z) (ofZ lo) (ofZ hi) = ofZ (Z.max lo (Z.min hi z)).
Proof. unfold clamp. rewrite Math_min_ofZ, Math_max_ofZ. reflexivity. Qed.

Lemma ofZ_inj (a b : Z) : ofZ a = ofZ b -> a = b.
Proof.
  intros E. pose proof (numCompare_ofZ a b) as C. rewrite E in C.
  rewrite numCompare_ofZ in C. injection C as C.
  rewrite Z.compare_refl in C. symmetry in C. apply Z.compare_eq, C.
Qed.

Lemma numOr_ofZ (z : Z) : numOr (ofZ z) (Zero false) = ofZ z.
Proof.
  destruct (Z.lt_trichotomy z 0) as [H | [-> | H]].
  - destruct (ofZ_neg z H) as (q & d & j & _ & ->). reflexivity.
  - reflexivity.
  - destruct (ofZ_pos z H) as (q & d & j & _ & ->). reflexivity.
Qed.

(** ** Text that is read as a number *)

Lemma wsLen_graphic (c : ascii) (l : list Z) :
  graphic c = true -> wsLen (code c :: l) = O.
Proof.
  destruct c as [[] [] [] [] [] [] [] []]; intros H;
    first [discriminate H | reflexivity].
Qed.

Lemma wsLenRev_graphic (c : ascii) (l : list Z) :
  graphic c = true -> wsLenRev (code c :: l) = O.
Proof.
  destruct c as [[] [] [] [] [] [] [] []]; intros H;
    first [discriminate H | reflexivity].
Qed.

(** A text that starts and ends with a character that shows is its own
    trimmed form. *)
Lemma trim_graphic (c l : ascii) (t : text) :
  graphic c = true -> graphic l = true ->
  (exists t', c :: t = t' ++ [l]) ->
  trim (c :: t) = c :: t.
Proof.
  intros Hc Hl (t' & E). unfold trim.
  cbn [map]. rewrite (wsLen_graphic c _ Hc). cbn [skipn].
  replace (rev (map code (c :: t))) with (code l :: rev (map code t'))
    by (rewrite E, map_app, rev_app_distr; reflexivity).
  rewrite (wsLenRev_graphic l _ Hl), Nat.sub_0_r. apply firstn_all.
Qed.

Lemma isDigit_graphic (c : ascii) : isDigit c = true -> graphic c = true.
Proof.
  unfold isDigit, graphic. intros H. apply andb_prop in H.
  destruct H as (H1 & H2). apply Z.leb_le in H1. apply Z.leb_le in H2.
  apply andb_true_intro. split; apply Z.leb_le; lia.
Qed.

Lemma forallb_last {A : Type} (p : A -> bool) (c : A) (t : list A) :
  forallb p (c :: t) = true -> exists t' l, c :: t = t' ++ [l] /\ p l = true.
Proof.
  intros H. destruct (exists_last (l := c :: t) ltac:(discriminate)) as (t' & l & E).
  exists t', l. split; [exact E|].
  rewrite E, forallb_app in H. apply andb_prop in H. destruct H as (_ & H).
  simpl in H. rewrite andb_true_r in H. exact H.
Qed.

Lemma parseRadix_digits (ds : text) :
  forallb isDigit ds = true -> parseRadix ds = None.
Proof.
  destruct ds as [|z [|p [|x r]]]; try reflexivity. intros H.
  cbn [forallb] in H. apply andb_prop in H. destruct H as (_ & H).
  apply andb_prop in H. destruct H as (Hp & _).
  cbn [parseRadix]. destruct (Ascii.eqb z "0"); [|reflexivity].
  rewrite (digit_not p "x" Hp eq_refl), (digit_not p "X" Hp eq_refl),
    (digit_not p "o" Hp eq_refl), (digit_not p "O" Hp eq_refl),
    (digit_not p "b" Hp eq_refl), (digit_not p "B" Hp eq_refl).
  reflexivity.
Qed.

(** [Number] of a text of decimal digits is the integer they spell, leading
    zeros or not. *)
Lemma StringToNumber_digits (ds : text) :
  forallb isDigit ds = true -> ds <> [] ->
  StringToNumber (str ds) = ofZ (valDigits ds).
Proof.
  intros Hd Hn. destruct ds as [|c t]; [contradiction|].
  pose proof Hd as Hc. cbn [forallb] in Hc. apply andb_prop in Hc.
  destruct Hc as (Hc & _).
  destruct (forallb_last _ _ _ Hd) as (t' & l & E & Hl).
  unfold StringToNumber. rewrite chars_str.
  rewrite (trim_graphic c l t (isDigit_graphic _ Hc) (isDigit_graphic _ Hl))
    by (exists t'; exact E).
  rewrite (parseRadix_digits _ Hd).
  unfold parseDecimal.
  rewrite (digit_not c "-" Hc eq_refl), (digit_not c "+" Hc eq_refl).
  unfold parseUnsignedDecimal.
  assert (T : textEqb (c :: t) (chars "Infinity") = false).
  { cbn [textEqb chars list_ascii_of_string].
    rewrite (digit_not c "I" Hc eq_refl). reflexivity. }
  rewrite T.
  assert (S : spanDigits (c :: t) = (c :: t, [])).
  { rewrite <- (app_nil_r (c :: t)) at 1. rewrite (spanDigits_app _ [] Hd).
    cbn [spanDigits fst snd]. rewrite app_nil_r. reflexivity. }
  rewrite S. cbn [app parseExp List.length]. rewrite app_nil_r.
  cbn [Z.of_nat Z.sub Z.opp]. rewrite Z.sub_0_r. unfold ofZ.
  assert (V : 0 <= valDigits (c :: t)).
  { clear - Hd. unfold valDigits.
    assert (G : forall l acc, forallb isDigit l = true -> 0 <= acc ->
                0 <= fold_left (fun a x => 10 * a + digitVal x) l acc).
    { induction l as [|x l IH]; intros acc H Ha; cbn [fold_left]; [exact Ha|].
      cbn [forallb] in H. apply andb_prop in H. destruct H as (Hx & H).
      apply IH; [exact H|]. unfold isDigit in Hx. apply andb_prop in Hx.
      destruct Hx as (Hx & _). apply Z.leb_le in Hx. unfold digitVal. lia. }
    apply G; [exact Hd | lia]. }
  destruct (Z.ltb_spec (valDigits (c :: t)) 0) as [L|L]; [lia|].
  rewrite Z.abs_eq by lia. reflexivity.
Qed.

(** ** A reply that wraps its payload *)

Lemma chars_append (a b : string) : chars (a ++ b) = chars a ++ chars b.
Proof. induction a as [|c a IH]; simpl; [reflexivity | rewrite IH; reflexivity]. Qed.

Lemma lastClose_none (q : text) :
  forallb (fun x => negb (Ascii.eqb x "}")) q = true -> lastClose q = None.
Proof.
  induction q as [|c q IH]; [reflexivity|]. cbn [forallb lastClose]. intros H.
  apply andb_prop in H. destruct H as (Hc & Hq). rewrite (IH Hq).
  apply negb_true_iff in Hc. rewrite Hc. reflexivity.
Qed.

Lemma lastClose_app (a q : text) :
  forallb (fun x => negb (Ascii.eqb x "}")) q = true ->
  lastClose (a ++ "}"%char :: q) = Some (a ++ ["}"%char]).
Proof.
  intros Hq. induction a as [|c a IH]; cbn [app lastClose].
  - rewrite (lastClose_none q Hq). reflexivity.
  - rewrite IH. reflexivity.
Qed.

(** The match of the parser's expression in a text whose first opening
    brace and last closing brace are known. *)
Lemma matchJson_wrapped (p a q : text) :
  forallb (fun x => negb (Ascii.eqb x "{")) p = true ->
  forallb (fun x => negb (Ascii.eqb x "}")) q = true ->
  matchJson (p ++ "{"%char :: a ++ "}"%char :: q) = Some ("{"%char :: a ++ ["}"%char]).
Proof.
  intros Hp Hq. induction p as [|c p IH]; cbn [app matchJson].
  - change (Ascii.eqb "{" "{") with true. cbv iota.
    rewrite (lastClose_app a q Hq). reflexivity.
  - cbn [forallb] in Hp. apply andb_prop in Hp. destruct Hp as (Hc & Hp).
    apply negb_true_iff in Hc. rewrite Hc. apply IH, Hp.
Qed.

(** X5: Prose around the payload is ignored: when the text before the payload
    has no opening brace and the text after it no closing brace, the reply
    is read as the payload alone is (the code fences of the source's
    comment are such a wrapping). *)
Theorem parseModelResponse_ignores_wrapping (before inner after : string) :
  lacks "{" before = true -> lacks "}" after = true ->
  parseModelResponse (before ++ "{" ++ inner ++ "}" ++ after)
  = parseModelResponse ("{" ++ inner ++ "}").
Proof.
  intros Hb Ha. unfold parseModelResponse.
  rewrite !chars_append. cbn [chars list_ascii_of_string app].
  fold (chars inner) (chars after) (chars before).
  rewrite (matchJson_wrapped (chars before) (chars inner) (chars after) Hb Ha).
  pose proof (matchJson_wrapped [] (chars inner) [] eq_refl eq_refl) as M.
  cbn [app] in M. rewrite M. reflexivity.
Qed.

(** ** Severities that are kept *)

(** A number between 0 and 100 that is not [-0] is its own severity. *)
Lemma severityOf_kept (n : number) :
  inRange (VNum n) = true -> isNegZero n = false -> severityOf (VNum n) = Ok n.
Proof.
  unfold inRange, severityOf. rewrite hundred. cbn [Number_ bind].
  destruct n as [| [|] | [|] | [|] q d e]; intros H Hz; try discriminate;
    try reflexivity.
  apply andb_prop in H. destruct H as (_ & H).
  unfold clamp, Math_min, Math_max, numOr, numLe in *. cbn [truthy numCompare] in *.
  rewrite (cmpMag_antisym 0 D1 2 q d e).
  destruct (cmpMag q d e 0 D1 2); try discriminate; reflexivity.
Qed.

Lemma listOf_strings (l : list string) :
  isShortList (strings l) = true -> listOf (strings l) = Ok l.
Proof.
  unfold isShortList, strings, listOf, toStrArray, slice0. intros H.
  apply andb_prop in H. destruct H as (Hn & Hs).
  rewrite length_map in Hn. apply Nat.leb_le in Hn.
  assert (M : mapM String_ (map VStr l) = Ok l).
  { clear. induction l as [|s l IH]; [reflexivity|].
    cbn [map mapM String_ bind]. rewrite IH. reflexivity. }
  rewrite M. cbn [bind].
  assert (F : filter nonEmpty l = l).
  { clear - Hs. induction l as [|s l IH]; [reflexivity|].
    cbn [map forallb] in Hs. apply andb_prop in Hs. destruct Hs as (Hs & Hl).
    cbn [filter]. rewrite Hs, (IH Hl). reflexivity. }
  rewrite F, firstn_all2 by exact Hn. reflexivity.
Qed.

Lemma labelOf_kept (d s : string) : nonEmpty s = true -> labelOf d (VStr s) = Ok s.
Proof.
  intros H. unfold labelOf, or_else. cbn [truthy]. unfold nonEmpty in H.
  rewrite H. reflexivity.
Qed.

Lemma payload_plain (r : Analysis) : plain (payload r) = true.
Proof.
  unfold payload. cbn [plain definedProps filter snd isUndefined negb map fst forallb].
  rewrite !isUndefined_strings. cbn [negb map fst].
  rewrite !strings_plain. reflexivity.
Qed.

Lemma stored_payload (r : Analysis) :
  inRange (VNum (severity r)) = true -> isNegZero (severity r) = false ->
  stored (payload r) = payload r.
Proof.
  intros Hr Hz. unfold payload. cbn [stored isUndefined].
  rewrite !isUndefined_strings.
  change (VArr (map stored (map VStr (precautions r))))
    with (stored (strings (precautions r))).
  change (VArr (map stored (map VStr (meds r)))) with (stored (strings (meds r))).
  rewrite !stored_strings, (inRange_finite _ Hr).
  destruct (severity r) as [| | [|] |]; try discriminate; reflexivity.
Qed.

(** Normalising the payload of a settled record gives the record. *)
Lemma normalize_payload (r : Analysis) :
  settled r = true -> normalize (payload r) = Ok r.
Proof.
  unfold settled. intros H.
  repeat (apply andb_prop in H; destruct H as (H & ?)).
  destruct r as [ty sg sv pr md]. cbn [type stage severity precautions meds] in *.
  apply (normalize_defined _ ty sg sv pr md); cbn [payload type stage severity
    precautions meds].
  - apply labelOf_kept. assumption.
  - apply labelOf_kept. assumption.
  - apply severityOf_kept; [assumption|]. apply negb_true_iff. assumption.
  - apply listOf_strings. assumption.
  - apply listOf_strings. assumption.
Qed.

(** X6: A reply that holds the JSON text of a settled record, wrapped or not,
    is read as that record. *)
Theorem parseModelResponse_reads_record (r : Analysis) (before after s : string) :
  settled r = true ->
  lacks "{" before = true -> lacks "}" after = true ->
  JSON_stringify (payload r) = Some s ->
  parseModelResponse (before ++ s ++ after) = Ok r.
Proof.
  intros Hs Hb Ha Hj.
  pose proof (JSON_parse_stringify (payload r) s (payload_plain r) Hj) as P.
  assert (Hr : inRange (VNum (severity r)) = true /\ isNegZero (severity r) = false).
  { unfold settled in Hs. repeat (apply andb_prop in Hs; destruct Hs as (Hs & ?)).
    split; [assumption | apply negb_true_iff; assumption]. }
  destruct Hr as (Hr & Hz). rewrite (stored_payload r Hr Hz) in P.
  assert (Es : s = str (serialize (payload r)))
    by (change (Some (str (serialize (payload r))) = Some s) in Hj; congruence).
  assert (Ei : exists inner, serialize (payload r) = "{"%char :: inner ++ ["}"%char]).
  { unfold payload. rewrite serialize_VObj. eexists. reflexivity. }
  destruct Ei as (inner & Ei).
  unfold parseModelResponse. rewrite !chars_append.
  replace (chars s) with ("{"%char :: inner ++ "}"%char :: [])
    by (rewrite Es, chars_str, Ei; reflexivity).
  cbn [app]. rewrite <- app_assoc. cbn [app].
  rewrite (matchJson_wrapped (chars before) inner (chars after) Hb Ha).
  rewrite <- Ei, <- Es, P. apply (normalize_payload r Hs).
Qed.

Lemma parseModelResponse_reads_record_witness :
  parseModelResponse
    ("Here is the assessment: " ++ str (serialize (payload sampleAnalysis))
       ++ " Take care.")
  = Ok sampleAnalysis.
Proof.
  apply (parseModelResponse_reads_record sampleAnalysis
           "Here is the assessment: " " Take care."
           (str (serialize (payload sampleAnalysis))));
    reflexivity.
Defined.

Lemma parseModelResponse_ignores_wrapping_witness :
  parseModelResponse ("Sure! ```json " ++ "{" ++ dq "'type':'Cut'" ++ "}" ++ " ```")
  = parseModelResponse ("{" ++ dq "'type':'Cut'" ++ "}").
Proof.
  apply (parseModelResponse_ignores_wrapping "Sure! ```json " (dq "'type':'Cut'") " ```");
    reflexivity.
Defined.

(** ** When the normalisation gives a record *)

(** X7: The normalisation of a payload gives a record exactly when none of
    the five fields is a value whose string form cannot be taken; when it
    gives none, it throws a TypeError. *)
Theorem normalize_succeeds_iff_coercible (props : list (string * value)) :
  ((exists r, normalize (VObj props) = Ok r)
   <-> (hidesToString (field "type" (VObj props)) = false /\
       hidesToString (field "stage" (VObj props)) = false /\
       hidesToString (field "severity" (VObj props)) = false /\
       itemsCoercible (field "precautions" (VObj props)) = true /\
       itemsCoercible (field "meds" (VObj props)) = true)) /\
  (forall e, normalize (VObj props) = Throw e -> e = TypeError).
Proof.
  split; [|intros e; apply normalize_TypeError].
  split.
  - intros (r & H). apply normalize_Ok in H.
    destruct H as (Ht & Hs & Hv & Hp & Hm).
    repeat split.
    + destruct (hidesToString (field "type" (VObj props))) eqn:E; [|reflexivity].
      rewrite (labelOf_hidden _ _ E) in Ht. discriminate.
    + destruct (hidesToString (field "stage" (VObj props))) eqn:E; [|reflexivity].
      rewrite (labelOf_hidden _ _ E) in Hs. discriminate.
    + destruct (hidesToString (field "severity" (VObj props))) eqn:E; [|reflexivity].
      rewrite (severityOf_hidden _ E) in Hv. discriminate.
    + destruct (field "precautions" (VObj props)) as [| | | | |items|]; try reflexivity.
      cbn [itemsCoercible]. destruct (existsb hidesToString items) eqn:E; [|reflexivity].
      rewrite (listOf_hidden _ E) in Hp. discriminate.
    + destruct (field "meds" (VObj props)) as [| | | | |items|]; try reflexivity.
      cbn [itemsCoercible]. destruct (existsb hidesToString items) eqn:E; [|reflexivity].
      rewrite (listOf_hidden _ E) in Hm. discriminate.
  - intros (H1 & H2 & H3 & H4 & H5). apply normalize_total; assumption.
Qed.

(** ** The age group of a whole number of years *)

Lemma toAgeGroup_ofZ (z : Z) :
  toAgeGroup (Some (ofZ z))
  = if z <=? 12 then "Child"%string
    else if 60 <=? z then "Elderly"%string else "Adult"%string.
Proof.
  unfold toAgeGroup. destruct (ofZ_not_special z) as (-> & _).
  rewrite numLe_ofZ, numGe_ofZ. reflexivity.
Qed.

(** X13: The age groups of the whole numbers: [Child] up to 12, negative ages
    included, [Elderly] from 60 on, [Adult] between; an age that is absent
    or NaN has the group [Any Age], and the infinities are grouped as very
    small and very large ages. *)
Theorem toAgeGroup_thresholds (z : Z) :
  (toAgeGroup (Some (ofZ z)) = "Child"%string <-> z <= 12) /\
  (toAgeGroup (Some (ofZ z)) = "Elderly"%string <-> 60 <= z) /\
  (toAgeGroup (Some (ofZ z)) = "Adult"%string <-> 13 <= z <= 59) /\
  toAgeGroup (Some (ofZ z)) <> "Any Age"%string /\
  toAgeGroup None = "Any Age"%string /\
  toAgeGroup (Some NaN) = "Any Age"%string /\
  toAgeGroup (Some (Inf true)) = "Child"%string /\
  toAgeGroup (Some (Inf false)) = "Elderly"%string.
Proof.
  rewrite toAgeGroup_ofZ.
  destruct (Z.leb_spec z 12) as [A|A]; [|destruct (Z.leb_spec 60 z) as [B|B]];
    repeat split; intros; try lia; try discriminate; reflexivity.
Qed.

(** X14: An age typed as decimal digits that spell a whole number up to
    [2^53] (the whole numbers that [Number] reads without rounding): the
    record of a successful analysis holds the number they spell and its
    group by the thresholds. *)
Theorem onAnalyze_groups_typed_age (env : Env) (w : World) (f : File)
    (res : Analysis) (ds : text) :
  file (ui w) = Some f ->
  age (ui w) = str ds ->
  forallb isDigit ds = true -> ds <> [] ->
  valDigits ds <= 2 ^ 53 ->
  analyzeWithGemini env f (Some (ofZ (valDigits ds))) = Ok res ->
  field "age" (result (ui (fst (onAnalyze env w)))) = VNum (ofZ (valDigits ds)) /\
  field "ageGroup" (result (ui (fst (onAnalyze env w))))
  = VStr (if (valDigits ds <=? 12)%Z then "Child"
          else if (60 <=? valDigits ds)%Z then "Elderly" else "Adult").
Proof.
  intros Hf Ha Hd Hn _ Hres.
  pose proof (StringToNumber_digits ds Hd Hn) as E.
  destruct (ofZ_not_special (valDigits ds)) as (Hnan & _).
  rewrite (onAnalyze_ageGroup env w f res Hf); rewrite Ha, E, Hnan.
  - rewrite toAgeGroup_ofZ. split; reflexivity.
  - exact Hres.
Qed.

Lemma onAnalyze_groups_typed_age_witness :
  field "age" (result (ui (fst (onAnalyze sampleEnv sampleWorld)))) = VNum (ofZ 34) /\
  field "ageGroup" (result (ui (fst (onAnalyze sampleEnv sampleWorld)))) = VStr "Adult".
Proof.
  apply (onAnalyze_groups_typed_age sampleEnv sampleWorld sampleFile sampleAnalysis
           (chars "34")); try reflexivity.
  - discriminate.
  - discriminate.
Defined.

(** ** Severities *)

Lemma clamp_not_negZero (n : number) :
  isNegZero (clamp n (Zero false) (ofZ 100)) = false.
Proof.
  rewrite hundred. unfold clamp, Math_min, Math_max.
  destruct n as [| [|] | [|] | [|] q d e]; try reflexivity;
    cbn [numCompare]; destruct (cmpMag 0 D1 2 q d e); reflexivity.
Qed.

(** X10: A whole number is kept as the severity when it is between 0 and 100,
    and cut to 0 or to 100 otherwise; so is the number that a text of
    digits spells. *)
Theorem severityOf_whole_numbers (z : Z) :
  severityOf (VNum (ofZ z)) = Ok (ofZ (Z.max 0 (Z.min 100 z))) /\
  (forall ds, forallb isDigit ds = true -> ds <> [] -> valDigits ds = z ->
     severityOf (VStr (str ds)) = Ok (ofZ (Z.max 0 (Z.min 100 z)))).
Proof.
  assert (S : severityOf (VNum (ofZ z)) = Ok (ofZ (Z.max 0 (Z.min 100 z)))).
  { unfold severityOf. cbn [Number_ bind]. rewrite numOr_ofZ.
    change (Zero false) with (ofZ 0). rewrite clamp_ofZ. reflexivity. }
  split; [exact S|].
  intros ds Hd Hn Hv. unfold severityOf in *. cbn [Number_ bind] in *.
  rewrite (StringToNumber_digits ds Hd Hn), Hv. exact S.
Qed.

(** X11: The severities that the normalisation leaves as they are, whole or
    not, are exactly the numbers from 0 to 100, [-0] apart: nothing rounds
    a severity. *)
Theorem severityOf_fixed_points (n : number) :
  severityOf (VNum n) = Ok n
  <-> (inRange (VNum n) = true /\ isNegZero n = false).
Proof.
  split.
  - intros H. split; [apply (severityOf_in_range _ _ H)|].
    unfold severityOf in H. cbn [Number_ bind] in H. injection H as H.
    rewrite <- H. apply clamp_not_negZero.
  - intros (Hr & Hz). apply severityOf_kept; assumption.
Qed.

(** X9: Normalising twice is normalising once: the payload made of a record
    that the normalisation gave, its labels not being empty, normalises to
    the same record. *)
Theorem normalize_is_idempotent (props : list (string * value)) (r : Analysis) :
  normalize (VObj props) = Ok r ->
  type r <> EmptyString -> stage r <> EmptyString ->
  normalize (payload r) = Ok r.
Proof.
  intros H Ht Hs. apply normalize_payload.
  apply normalize_Ok in H. destruct H as (_ & _ & Hv & Hp & Hm).
  unfold settled.
  rewrite (proj2 (nonEmpty_spec _) Ht), (proj2 (nonEmpty_spec _) Hs).
  rewrite (severityOf_in_range _ _ Hv), (listOf_short _ _ Hp), (listOf_short _ _ Hm).
  assert (Z : isNegZero (severity r) = false).
  { unfold severityOf in Hv. destruct (Number_ (field "severity" (VObj props)));
      [|discriminate].
    cbn [bind] in Hv. injection Hv as Hv. rewrite <- Hv. apply clamp_not_negZero. }
  rewrite Z. reflexivity.
Qed.

Lemma normalize_is_idempotent_witness :
  normalize (payload sampleAnalysis) = Ok sampleAnalysis.
Proof.
  apply (normalize_is_idempotent
           [("type"%string, VStr "Burn"); ("stage"%string, VStr "Inflammatory");
            ("severity"%string, VNum (ofZ 150));
            ("precautions"%string, VArr [VStr "a"; VStr EmptyString; VStr "b"])]);
    [reflexivity | discriminate | discriminate].
Defined.

(** ** The clamp *)

(** X12: [clamp] on whole numbers is [max(min, min(max, n))]: the result lies
    between the bounds when they are in order, it is [n] itself when [n]
    lies between them, and it is the lower bound when the bounds are
    crossed.  NaN is not clamped: it stays NaN. *)
Theorem clamp_on_whole_numbers (z lo hi : Z) :
  clamp (ofZ z) (ofZ lo) (ofZ hi) = ofZ (Z.max lo (Z.min hi z)) /\
  (lo <= hi ->
   numLe (ofZ lo) (clamp (ofZ z) (ofZ lo) (ofZ hi)) = true /\
   numLe (clamp (ofZ z) (ofZ lo) (ofZ hi)) (ofZ hi) = true) /\
  (lo <= z <= hi -> clamp (ofZ z) (ofZ lo) (ofZ hi) = ofZ z) /\
  (hi < lo -> clamp (ofZ z) (ofZ lo) (ofZ hi) = ofZ lo) /\
  clamp NaN (ofZ lo) (ofZ hi) = NaN.
Proof.
  rewrite clamp_ofZ, !numLe_ofZ.
  refine (conj eq_refl (conj _ (conj _ (conj _ _)))).
  - intros H. split; apply Z.leb_le; lia.
  - intros H. f_equal. lia.
  - intros H. f_equal. lia.
  - unfold clamp, Math_min, Math_max.
    assert (N : forall x, numCompare x NaN = None) by (intros [| | |]; reflexivity).
    rewrite !N. reflexivity.
Qed.

(** ** Labels that are not empty *)

Lemma numToString_nonEmpty (n : number) : numToString n <> EmptyString.
Proof.
  assert (T : numToText n <> []).
  { destruct n as [| [|] | b | neg q d e]; try discriminate.
    cbn [numToText].
    destruct (digitsOf_spec _ (mantissa_pos q d)) as (_ & Hd & c & r & Hds & _).
    rewrite Hds in Hd |- *.
    destruct (fmtFinite_head c r e Hd) as (c' & t & -> & _).
    destruct neg; discriminate. }
  unfold numToString. intros E. apply T.
  rewrite <- (chars_str (numToText n)), E. reflexivity.
Qed.

Lemma labelOf_nonEmpty (d : string) (x : value) (s : string) :
  labelOf d x = Ok s -> isArray x = false -> d <> EmptyString -> s <> EmptyString.
Proof.
  unfold labelOf, or_else. intros H Ha Hd.
  destruct x as [| | [|] | n | s' | items | props]; cbn [truthy String_] in H;
    try discriminate Ha; try (injection H as <-; first [exact Hd | discriminate]).
  - destruct n as [| | |]; cbn [String_] in H; injection H as <-;
      first [exact Hd | apply numToString_nonEmpty].
  - destruct (String.eqb s' EmptyString) eqn:E; cbn [negb String_] in H;
      injection H as <-; [exact Hd|].
    intros ->. discriminate.
  - destruct (hasOwn "toString" props); [discriminate|].
    injection H as <-. discriminate.
Qed.

(** X8: The type and the stage of a record are not empty, unless the source
    label is an array (whose string form can be empty): a label that is a
    string, a number, a boolean or a plain object, or that is missing or
    [null], never gives an empty label. *)
Theorem normalize_labels_not_empty (props : list (string * value)) (r : Analysis) :
  normalize (VObj props) = Ok r ->
  (isArray (field "type" (VObj props)) = false -> type r <> EmptyString) /\
  (isArray (field "stage" (VObj props)) = false -> stage r <> EmptyString).
Proof.
  intros H. apply normalize_Ok in H. destruct H as (Ht & Hs & _). split; intros Ha.
  - apply (labelOf_nonEmpty _ _ _ Ht Ha). discriminate.
  - apply (labelOf_nonEmpty _ _ _ Hs Ha). discriminate.
Qed.

Lemma normalize_labels_not_empty_witness :
  (isArray (field "type" (VObj [("type"%string, VNum (ofZ 3))])) = false ->
   type (mkAnalysis "3" "Unknown" (Zero false) [] []) <> EmptyString) /\
  (isArray (field "stage" (VObj [("type"%string, VNum (ofZ 3))])) = false ->
   stage (mkAnalysis "3" "Unknown" (Zero false) [] []) <> EmptyString).
Proof.
  exact (normalize_labels_not_empty [("type"%string, VNum (ofZ 3))]
           (mkAnalysis "3" "Unknown" (Zero false) [] []) eq_refl).
Defined.

(** An array as the source label can give the empty label. *)
Lemma empty_label_from_array :
  parseModelResponse (dq "{'type':[],'stage':[[]]}")
  = Ok (mkAnalysis EmptyString EmptyString (Zero false) [] []).
Proof. reflexivity. Qed.

(** ** The errors of the analysis, each with its cause *)

Lemma parseModelResponse_errors (body : string) :
  (parseModelResponse body = Throw NoJsonFound <-> braceSpan (chars body) = None) /\
  (parseModelResponse body = Throw MalformedResponse
   <-> exists m, braceSpan (chars body) = Some m /\ JSON_parse (str m) = None) /\
  (parseModelResponse body = Throw TypeError
   <-> exists m json, braceSpan (chars body) = Some m /\
                      JSON_parse (str m) = Some json /\
                      normalize json = Throw TypeError) /\
  (forall e, parseModelResponse body = Throw e ->
             e = NoJsonFound \/ e = MalformedResponse \/ e = TypeError).
Proof.
  unfold parseModelResponse. rewrite matchJson_braceSpan.
  destruct (braceSpan (chars body)) as [m|].
  - destruct (JSON_parse (str m)) as [json|] eqn:J.
    + repeat split.
      * intros H. apply normalize_TypeError in H. discriminate.
      * discriminate.
      * intros H. apply normalize_TypeError in H. discriminate.
      * intros (m' & E & J'). injection E as <-. congruence.
      * intros H. exists m, json. auto.
      * intros (m' & json' & E & J' & H). injection E as <-. congruence.
      * intros e H. apply normalize_TypeError in H. auto.
    + repeat split; try discriminate; eauto.
      * intros (m' & json' & E & J' & _). injection E as <-. congruence.
      * intros e H. injection H as <-. auto.
  - repeat split; try discriminate; eauto.
    + intros (m' & E & _). discriminate.
    + intros (m' & json' & E & _). discriminate.
    + intros e H. injection H as <-. auto.
Qed.

Lemma analyzeWithGemini_unkeyed (env : Env) (f : File) (a : option number) :
  apiKey env = None \/ apiKey env = Some EmptyString ->
  analyzeWithGemini env f a = Throw ConfigurationError.
Proof. unfold analyzeWithGemini. intros [-> | ->]; reflexivity. Qed.

Lemma analyzeWithGemini_keyed (env : Env) (f : File) (a : option number) :
  keyed env ->
  analyzeWithGemini env f a
  = match endpoint env (requestFor f a) with
    | Failure cause => Throw (AnalysisFailed cause)
    | Answer body => parseModelResponse body
    end.
Proof.
  intros (key & Hk & Hn). unfold analyzeWithGemini. rewrite Hk.
  destruct key; [contradiction | reflexivity].
Qed.

Lemma keyed_or_not (env : Env) :
  keyed env \/ (apiKey env = None \/ apiKey env = Some EmptyString).
Proof.
  unfold keyed. destruct (apiKey env) as [[|c k]|]; auto.
  left. eexists. split; [reflexivity | discriminate].
Qed.

Lemma keyed_not_both (env : Env) :
  keyed env -> apiKey env = None \/ apiKey env = Some EmptyString -> False.
Proof. intros (key & Hk & Hn) [H | H]; congruence. Qed.

(** X4: Each error of the analysis has one cause, and the causes are told
    apart: a missing or empty credential (the endpoint is then not
    consulted, whatever it would answer), a failed request, a reply with no
    brace span, a span that is not JSON, a field that cannot be coerced.
    The analysis never fails with the error of the storage. *)
Theorem analyzeWithGemini_error_causes (env : Env) (f : File) (a : option number) :
  (analyzeWithGemini env f a = Throw ConfigurationError
   <-> (apiKey env = None \/ apiKey env = Some EmptyString)) /\
  (forall cause,
     analyzeWithGemini env f a = Throw (AnalysisFailed cause)
     <-> (keyed env /\ endpoint env (requestFor f a) = Failure cause)) /\
  (analyzeWithGemini env f a = Throw NoJsonFound
   <-> (keyed env /\ exists body, endpoint env (requestFor f a) = Answer body /\
                                  braceSpan (chars body) = None)) /\
  (analyzeWithGemini env f a = Throw MalformedResponse
   <-> (keyed env /\ exists body m, endpoint env (requestFor f a) = Answer body /\
                                    braceSpan (chars body) = Some m /\
                                    JSON_parse (str m) = None)) /\
  (analyzeWithGemini env f a = Throw TypeError
   <-> (keyed env /\ exists body m json,
          endpoint env (requestFor f a) = Answer body /\
          braceSpan (chars body) = Some m /\
          JSON_parse (str m) = Some json /\
          normalize json = Throw TypeError)) /\
  analyzeWithGemini env f a <> Throw QuotaExceeded.
Proof.
  destruct (keyed_or_not env) as [K | U].
  - rewrite (analyzeWithGemini_keyed env f a K).
    assert (NU : ~ (apiKey env = None \/ apiKey env = Some EmptyString))
      by (intros U; exact (keyed_not_both env K U)).
    destruct (endpoint env (requestFor f a)) as [body | cause0].
    + destruct (parseModelResponse_errors body) as (P1 & P2 & P3 & P4).
      refine (conj _ (conj _ (conj _ (conj _ (conj _ _))))).
      * split; [|intros U; contradiction].
        intros H. apply P4 in H. destruct H as [H | [H | H]]; discriminate.
      * intros cause. split.
        -- intros H. apply P4 in H. destruct H as [H | [H | H]]; discriminate.
        -- intros (_ & H). discriminate.
      * split.
        -- intros H. split; [exact K|]. exists body. split; [reflexivity | apply P1, H].
        -- intros (_ & body' & E & H). injection E as <-. apply P1, H.
      * split.
        -- intros H. split; [exact K|]. apply P2 in H. destruct H as (m & H1 & H2).
           exists body, m. auto.
        -- intros (_ & body' & m & E & H1 & H2). injection E as <-. apply P2. eauto.
      * split.
        -- intros H. split; [exact K|]. apply P3 in H. destruct H as (m & json & H).
           exists body, m, json. tauto.
        -- intros (_ & body' & m & json & E & H). injection E as <-. apply P3. eauto.
      * intros H. apply P4 in H. destruct H as [H | [H | H]]; discriminate.
    + refine (conj _ (conj _ (conj _ (conj _ (conj _ _))))).
      * split; [discriminate | intros U; contradiction].
      * intros cause. split.
        -- intros H. injection H as <-. split; [exact K | reflexivity].
        -- intros (_ & H). injection H as <-. reflexivity.
      * split; [discriminate|]. intros (_ & body & E & _). discriminate.
      * split; [discriminate|]. intros (_ & body & m & E & _). discriminate.
      * split; [discriminate|]. intros (_ & body & m & json & E & _). discriminate.
      * discriminate.
  - rewrite (analyzeWithGemini_unkeyed env f a U).
    refine (conj _ (conj _ (conj _ (conj _ (conj _ _))))).
    + split; [intros _; exact U | reflexivity].
    + intros cause. split; [discriminate|].
      intros (K & _). exfalso. exact (keyed_not_both env K U).
    + split; [discriminate|]. intros (K & _). exfalso. exact (keyed_not_both env K U).
    + split; [discriminate|]. intros (K & _). exfalso. exact (keyed_not_both env K U).
    + split; [discriminate|]. intros (K & _). exfalso. exact (keyed_not_both env K U).
    + discriminate.
Qed.

(** ** The text in the storage *)

Lemma serialize_stored (v : value) : serialize (stored v) = serialize v.
Proof.
  induction v as [| | b | n | s | items IH | props IH] using value_ind;
    try reflexivity.
  - cbn [stored serialize]. destruct n as [| | |]; reflexivity.
  - cbn [stored serialize]. do 3 f_equal. rewrite map_map.
    apply map_ext_in. intros x Hx. rewrite Forall_forall in IH. apply IH, Hx.
  - rewrite stored_VObj, !serialize_VObj, definedProps_stored. do 3 f_equal.
    rewrite map_map. apply map_ext_in. intros p Hp.
    apply filter_In in Hp. destruct Hp as (Hp & _).
    rewrite Forall_forall in IH. unfold memberText, storedMember. cbn [fst snd].
    rewrite (IH p Hp). reflexivity.
Qed.

Lemma saveHistory_stored (items : list value) :
  saveHistory (map stored items) = saveHistory items.
Proof.
  unfold saveHistory.
  change (JSON_stringify (VArr (map stored items)))
    with (Some (str (serialize (stored (VArr items))))).
  rewrite serialize_stored. reflexivity.
Qed.

(** X22: What is loaded from the storage and saved again is the text that was
    there: a reload followed by a save writes nothing new. *)
Theorem saveHistory_after_reload_writes_same_text (items : list value) :
  Forall (fun v => plain v = true) items ->
  exists loaded,
    readHistory (saveHistory items) = VArr loaded /\
    saveHistory loaded = saveHistory items /\
    readHistory (saveHistory loaded) = VArr loaded.
Proof.
  intros H. exists (map stored items).
  split; [apply readHistory_saveHistory, H|].
  split; [apply saveHistory_stored|].
  rewrite saveHistory_stored. apply readHistory_saveHistory, H.
Qed.

Lemma saveHistory_after_reload_writes_same_text_witness :
  exists loaded,
    readHistory (saveHistory [toValue ageless]) = VArr loaded /\
    saveHistory loaded = saveHistory [toValue ageless] /\
    readHistory (saveHistory loaded) = VArr loaded.
Proof.
  apply (saveHistory_after_reload_writes_same_text [toValue ageless]).
  repeat constructor.
Defined.

(** ** The history and the storage *)

Lemma inStep_mount (ls : Storage) (items : list value) :
  Forall (fun v => plain v = true) items ->
  ls = saveHistory items \/ (ls = None /\ items = []) ->
  inStep (mount ls) /\ history (ui (mount ls)) = VArr (map stored items).
Proof.
  intros Hp [-> | (-> & ->)].
  - assert (E : history (ui (mount (saveHistory items))) = VArr (map stored items))
      by (apply readHistory_saveHistory, Hp).
    split; [|exact E].
    exists (map stored items). split; [exact E|]. split.
    + apply Forall_forall. intros x Hx. apply in_map_iff in Hx.
      destruct Hx as (y & <- & Hy). apply plain_stored.
      rewrite Forall_forall in Hp. apply Hp, Hy.
    + left. cbn [mount localStorage]. symmetry. apply saveHistory_stored.
  - split; [|reflexivity]. exists []. split; [reflexivity|].
    split; [constructor | right; split; reflexivity].
Qed.

Lemma inStep_step (w : World) (ev : event) :
  writesSucceed [ev] = true -> inStep w -> inStep (step w ev).
Proof.
  intros Hw (items & Hh & Hp & Hs).
  destruct ev as [f | a | k | idx | env |]; cbn [step].
  - exists items; auto.
  - exists items; auto.
  - exists items; auto.
  - unfold onSelect. rewrite Hh.
    destruct (nth_error items idx) as [it|]; [destruct (truthy it)|];
      exists items; auto.
  - cbn [writesSucceed forallb] in Hw. rewrite andb_true_r in Hw.
    apply negb_true_iff in Hw.
    destruct (entryOf env (ui w)) as [e|] eqn:E.
    + destruct (onAnalyze_record env w e items E Hh) as (Hh' & _ & _ & _ & Hs').
      rewrite Hw in Hs'. eexists. split; [exact Hh'|]. split; [|left; exact Hs'].
      apply Forall_firstn. constructor; [|exact Hp].
      pose proof (entryOf_good _ _ _ E) as G. unfold good in G.
      apply andb_prop in G. tauto.
    + destruct (onAnalyze_no_record env w E) as (Hh' & Hs' & _).
      exists items. rewrite Hh', Hs'. auto.
  - apply (inStep_mount (localStorage w) items Hp Hs).
Qed.

Lemma inStep_run (evs : list event) (w : World) :
  writesSucceed evs = true -> inStep w -> inStep (run w evs).
Proof.
  revert w. induction evs as [|ev r IH]; intros w Hw H; [exact H|].
  cbn [writesSucceed forallb] in Hw. apply andb_prop in Hw. destruct Hw as (Hev & Hr).
  unfold run. cbn [fold_left]. apply IH; [exact Hr|].
  apply inStep_step; [|exact H].
  cbn [writesSucceed forallb]. rewrite Hev. reflexivity.
Qed.

(** X17: As long as no write to the storage fails, the history in memory and
    the storage hold the same records in every state reached from a fresh
    start: the storage is the text of the history (or is still empty, with
    an empty history), and a reload of the page shows the history again, as
    JSON keeps it. *)
Theorem history_matches_storage (evs : list event) :
  writesSucceed evs = true ->
  exists items,
    history (ui (run (mount None) evs)) = VArr items /\
    (localStorage (run (mount None) evs) = saveHistory items \/
     (localStorage (run (mount None) evs) = None /\ items = [])) /\
    history (ui (step (run (mount None) evs) Reload)) = VArr (map stored items).
Proof.
  intros Hw.
  assert (I0 : inStep (mount None)) by (apply (inStep_mount None []); auto).
  destruct (inStep_run evs (mount None) Hw I0) as (items & Hh & Hp & Hs).
  exists items. split; [exact Hh|]. split; [exact Hs|].
  cbn [step]. apply (inStep_mount _ items Hp Hs).
Qed.

Lemma history_matches_storage_witness :
  exists items,
    history (ui (run (mount None) reloadSession)) = VArr items /\
    (localStorage (run (mount None) reloadSession) = saveHistory items \/
     (localStorage (run (mount None) reloadSession) = None /\ items = [])) /\
    history (ui (step (run (mount None) reloadSession) Reload))
    = VArr (map stored items).
Proof. apply (history_matches_storage reloadSession). reflexivity. Defined.

(** ** A write that fails *)

(** X15: When the write to the storage fails, the error is caught like the
    others, but the new record is already shown and at the head of the
    history in memory; the storage keeps its old text, the tab is not
    changed, and a reload of the page shows the history without the
    record. *)
Theorem onAnalyze_write_failure_keeps_record_in_memory (env : Env) (w : World)
    (e : value) (items : list value) :
  entryOf env (ui w) = Some e ->
  history (ui w) = VArr items ->
  storageFull env = true ->
  snd (onAnalyze env w) = Some (Failed QuotaExceeded) /\
  result (ui (fst (onAnalyze env w))) = e /\
  history (ui (fst (onAnalyze env w))) = VArr (slice0 25 (e :: items)) /\
  localStorage (fst (onAnalyze env w)) = localStorage w /\
  activeTab (ui (fst (onAnalyze env w))) = activeTab (ui w) /\
  history (ui (step (fst (onAnalyze env w)) Reload)) = readHistory (localStorage w).
Proof.
  unfold entryOf, onAnalyze. intros He Hh Hf.
  destruct (file (ui w)) as [f|]; [|discriminate].
  rewrite ageArgument_spec.
  destruct (analyzeWithGemini env f (ageArgument (age (ui w)))) as [res|err];
    [|discriminate].
  injection He as <-. rewrite Hh, Hf. cbn. auto 10.
Qed.

Lemma onAnalyze_write_failure_keeps_record_in_memory_witness :
  snd (onAnalyze envFull sampleWorld) = Some (Failed QuotaExceeded) /\
  result (ui (fst (onAnalyze envFull sampleWorld)))
  = mkEntry sampleAnalysis (ofZ 1700000000000) "blob:healscan/1" (Some (ofZ 34)) "Adult" /\
  history (ui (fst (onAnalyze envFull sampleWorld)))
  = VArr (slice0 25
            [mkEntry sampleAnalysis (ofZ 1700000000000) "blob:healscan/1"
               (Some (ofZ 34)) "Adult"]) /\
  localStorage (fst (onAnalyze envFull sampleWorld)) = localStorage sampleWorld /\
  activeTab (ui (fst (onAnalyze envFull sampleWorld))) = activeTab (ui sampleWorld) /\
  history (ui (step (fst (onAnalyze envFull sampleWorld)) Reload))
  = readHistory (localStorage sampleWorld).
Proof.
  apply (onAnalyze_write_failure_keeps_record_in_memory envFull sampleWorld
           (mkEntry sampleAnalysis (ofZ 1700000000000) "blob:healscan/1"
              (Some (ofZ 34)) "Adult") []);
    reflexivity.
Defined.

(** ** The record that is shown *)

Lemma shownInHistory_step (w : World) (ev : event) :
  (exists items, history (ui w) = VArr items) ->
  shownInHistory w -> shownInHistory (step w ev).
Proof.
  intros (items & Hh) Hs.
  destruct ev as [f | a | k | idx | env |]; cbn [step]; try exact Hs.
  - unfold onSelect. rewrite Hh.
    destruct (nth_error items idx) as [it|] eqn:En; [|exact Hs].
    destruct (truthy it); [|exact Hs].
    right. exists items. cbn. split; [reflexivity|].
    apply (nth_error_In _ _ En).
  - destruct (entryOf env (ui w)) as [e|] eqn:E.
    + destruct (onAnalyze_record env w e items E Hh) as (Hh' & Hr' & _).
      right. eexists. split; [exact Hh'|]. rewrite Hr'. left. reflexivity.
    + destruct (onAnalyze_no_record env w E) as (Hh' & _ & Hr').
      unfold shownInHistory. rewrite Hh', Hr'. exact Hs.
  - left. reflexivity.
Qed.

(** X18: In every state reached from a fresh start, the record that is shown
    is one of the records of the history, or no record is shown. *)
Theorem shown_record_is_in_history (evs : list event) :
  shownInHistory (run (mount None) evs).
Proof.
  assert (G : forall w, (exists items, history (ui w) = VArr items /\
                           (List.length items <= 25)%nat) ->
                        shownInHistory w ->
                        invariant w ->
                        shownInHistory (run w evs)).
  { induction evs as [|ev r IH]; intros w Hh Hs Hi; [exact Hs|].
    unfold run. cbn [fold_left]. apply IH.
    - destruct (invariant_step w ev Hi) as ((items & Hi' & Hl & _) & _). eauto.
    - destruct Hh as (items & Hh & _). apply shownInHistory_step; eauto.
    - apply invariant_step, Hi. }
  apply G.
  - exists []. split; [reflexivity | simpl; lia].
  - left. reflexivity.
  - apply invariant_mount. left. reflexivity.
Qed.

(** ** Choosing a record of the history *)

Lemma entryOf_truthy (env : Env) (s : AppState) (e : value) :
  entryOf env s = Some e -> truthy e = true.
Proof.
  unfold entryOf. destruct (file s); [|discriminate].
  destruct (analyzeWithGemini _ _ _); [|discriminate].
  intros H. injection H as <-. reflexivity.
Qed.

Lemma recorded_truthy (evs : list event) :
  forall w, Forall (fun e => truthy e = true) (recorded w evs).
Proof.
  induction evs as [|ev r IH]; intros w; [constructor|].
  cbn [recorded]. apply Forall_app. split; [|apply IH].
  destruct ev as [f | a | k | idx | env |]; try constructor.
  destruct (entryOf env (ui w)) as [e|] eqn:E; constructor; [|constructor].
  apply (entryOf_truthy _ _ _ E).
Qed.

Lemma nth_error_slice0 {A : Type} (n i : nat) (l : list A) :
  (i < n)%nat -> nth_error (slice0 n l) i = nth_error l i.
Proof.
  unfold slice0. revert i l. induction n as [|n IH]; intros i l Hi; [lia|].
  destruct l as [|x l]; [destruct i; reflexivity|].
  destruct i as [|i]; [reflexivity|]. cbn [firstn nth_error]. apply IH. lia.
Qed.

Lemma history_of_session (evs : list event) :
  inSession evs = true ->
  history (ui (run (mount None) evs))
  = VArr (slice0 25 (rev (recorded (mount None) evs))).
Proof.
  intros Hs.
  rewrite (run_records evs (mount None) [] Hs eq_refl).
  pose proof (record_all_cut (recorded (mount None) evs) (@nil value)) as R.
  change (slice0 25 (@nil value)) with (@nil value) in R.
  rewrite R, app_nil_r. reflexivity.
Qed.

(** X19: After a session from a fresh start, choosing the entry [i] of the
    history view shows the record made [i] analyses before the latest one
    and opens the results tab, and changes neither the history nor the
    storage; an index past the end of the list changes nothing. *)
Theorem onSelect_shows_ith_latest (evs : list event) (i : nat) :
  inSession evs = true ->
  ((i < List.length (recorded (mount None) evs))%nat -> (i < 25)%nat ->
   result (ui (step (run (mount None) evs) (Select i)))
   = nth i (rev (recorded (mount None) evs)) VNull /\
   activeTab (ui (step (run (mount None) evs) (Select i))) = TabResults /\
   history (ui (step (run (mount None) evs) (Select i)))
   = history (ui (run (mount None) evs)) /\
   localStorage (step (run (mount None) evs) (Select i))
   = localStorage (run (mount None) evs)) /\
  ((List.length (recorded (mount None) evs) <= i)%nat \/ (25 <= i)%nat ->
   step (run (mount None) evs) (Select i) = run (mount None) evs).
Proof.
  intros Hs. pose proof (history_of_session evs Hs) as Hh.
  set (w := run (mount None) evs) in *.
  set (made := recorded (mount None) evs) in *.
  cbn [step]. unfold onSelect. rewrite Hh. split.
  - intros Hi H25. rewrite (nth_error_slice0 25 i _ H25).
    assert (Hl : (i < List.length (rev made))%nat) by (rewrite length_rev; exact Hi).
    destruct (nth_error (rev made) i) as [it|] eqn:En;
      [|apply nth_error_None in En; lia].
    assert (Ht : truthy it = true).
    { pose proof (recorded_truthy evs (mount None)) as T. fold made in T.
      rewrite Forall_forall in T. apply T. apply in_rev.
      apply (nth_error_In _ _ En). }
    rewrite Ht. cbn. rewrite (nth_error_nth _ _ VNull En). auto.
  - intros Hi.
    assert (En : nth_error (slice0 25 (rev made)) i = None).
    { apply nth_error_None. unfold slice0. rewrite length_firstn, length_rev. lia. }
    rewrite En. reflexivity.
Qed.

Lemma onSelect_shows_ith_latest_witness :
  result (ui (step (run (mount None) fullSession) (Select 1)))
  = nth 1 (rev (recorded (mount None) fullSession)) VNull /\
  activeTab (ui (step (run (mount None) fullSession) (Select 1))) = TabResults /\
  history (ui (step (run (mount None) fullSession) (Select 1)))
  = history (ui (run (mount None) fullSession)) /\
  localStorage (step (run (mount None) fullSession) (Select 1))
  = localStorage (run (mount None) fullSession).
Proof.
  destruct (onSelect_shows_ith_latest fullSession 1 eq_refl) as (H & _).
  apply H; apply Nat.ltb_lt; vm_compute; reflexivity.
Defined.

(** ** A storage that cannot be read *)

(** X21: A storage with no item, with an empty item or with a text that is not
    JSON is read as the empty history, and the first successful analysis
    replaces whatever was there by the text of the one new record. *)
Theorem readHistory_absent_or_corrupt (ls : Storage) :
  (ls = None \/ ls = Some EmptyString \/
   exists s, ls = Some s /\ JSON_parse s = None) ->
  readHistory ls = VArr [] /\
  history (ui (mount ls)) = VArr [] /\
  (forall evs env e,
     inSession evs = true -> recorded (mount ls) evs = [] ->
     entryOf env (ui (run (mount ls) evs)) = Some e ->
     storageFull env = false ->
     history (ui (step (run (mount ls) evs) (Analyze env))) = VArr [e] /\
     localStorage (step (run (mount ls) evs) (Analyze env)) = saveHistory [e] /\
     readHistory (saveHistory [e]) = VArr [stored e]).
Proof.
  intros H.
  assert (R : readHistory ls = VArr []).
  { destruct H as [-> | [-> | (s & -> & Hs)]]; try reflexivity.
    unfold readHistory. destruct (String.eqb s EmptyString); [reflexivity|].
    rewrite Hs. reflexivity. }
  split; [exact R|]. split; [exact R|].
  intros evs env e Hs Hr He Hf.
  pose proof (run_records evs (mount ls) [] Hs R) as Hh.
  rewrite Hr in Hh. cbn [fold_left] in Hh.
  destruct (onAnalyze_record env _ e [] He Hh) as (Hh' & _ & _ & _ & Hs').
  rewrite Hf in Hs'. cbn [step]. split; [exact Hh'|]. split; [exact Hs'|].
  apply readHistory_saveHistory. constructor; [|constructor].
  pose proof (entryOf_good _ _ _ He) as G. unfold good in G.
  apply andb_prop in G. tauto.
Qed.

Lemma readHistory_absent_or_corrupt_witness :
  readHistory corruptStorage = VArr [] /\
  history (ui (mount corruptStorage)) = VArr [] /\
  (forall evs env e,
     inSession evs = true -> recorded (mount corruptStorage) evs = [] ->
     entryOf env (ui (run (mount corruptStorage) evs)) = Some e ->
     storageFull env = false ->
     history (ui (step (run (mount corruptStorage) evs) (Analyze env))) = VArr [e] /\
     localStorage (step (run (mount corruptStorage) evs) (Analyze env))
     = saveHistory [e] /\
     readHistory (saveHistory [e]) = VArr [stored e]).
Proof.
  apply (readHistory_absent_or_corrupt corruptStorage).
  right. right. eexists. split; reflexivity.
Defined.

(** ** The order of numbers *)

Lemma cmpMag_scaled (E : Z) (q1 : N) (d1 : nzdigit) (e1 : Z) (q2 : N) (d2 : nzdigit)
    (e2 : Z) :
  E <= e1 -> E <= e2 ->
  cmpMag q1 d1 e1 q2 d2 e2
  = (mantissa q1 d1 * 10 ^ (e1 - E) ?= mantissa q2 d2 * 10 ^ (e2 - E)).
Proof.
  intros H1 H2. unfold cmpMag. set (e := Z.min e1 e2).
  assert (He : E <= e /\ e <= e1 /\ e <= e2) by (unfold e; lia).
  assert (Hp : 0 < 10 ^ (e - E)) by (apply Z.pow_pos_nonneg; lia).
  rewrite <- (compare_scale _ _ (10 ^ (e - E)) Hp).
  rewrite <- !Z.mul_assoc, <- !Z.pow_add_r by lia.
  replace (e1 - e + (e - E)) with (e1 - E) by ring.
  replace (e2 - e + (e - E)) with (e2 - E) by ring.
  reflexivity.
Qed.

Lemma cmpMag_le_trans (q1 : N) (d1 : nzdigit) (e1 : Z) (q2 : N) (d2 : nzdigit) (e2 : Z)
    (q3 : N) (d3 : nzdigit) (e3 : Z) :
  cmpMag q1 d1 e1 q2 d2 e2 <> Gt -> cmpMag q2 d2 e2 q3 d3 e3 <> Gt ->
  cmpMag q1 d1 e1 q3 d3 e3 <> Gt.
Proof.
  set (E := Z.min e1 (Z.min e2 e3)).
  rewrite (cmpMag_scaled E q1 d1 e1 q2 d2 e2), (cmpMag_scaled E q2 d2 e2 q3 d3 e3),
    (cmpMag_scaled E q1 d1 e1 q3 d3 e3) by (unfold E; lia).
  rewrite !Z.compare_gt_iff. lia.
Qed.

Lemma numLe_cmpMag (c : comparison) :
  match c with Lt | Eq => true | Gt => false end = true <-> c <> Gt.
Proof. destruct c; split; congruence. Qed.

(** [<=] on numbers is transitive. *)
Lemma numLe_trans (x y z : number) :
  numLe x y = true -> numLe y z = true -> numLe x z = true.
Proof.
  unfold numLe.
  destruct x as [| [|] | [|] | [|] q1 d1 e1], y as [| [|] | [|] | [|] q2 d2 e2],
    z as [| [|] | [|] | [|] q3 d3 e3]; cbn [numCompare Bool.eqb];
    try reflexivity; try discriminate; rewrite !numLe_cmpMag.
  - intros H1 H2. exact (cmpMag_le_trans _ _ _ _ _ _ _ _ _ H2 H1).
  - apply cmpMag_le_trans.
Qed.

Lemma numCompare_antisym (x y : number) :
  numCompare x y = option_map CompOpp (numCompare y x).
Proof.
  destruct x as [| [|] | [|] | [|] q1 d1 e1], y as [| [|] | [|] | [|] q2 d2 e2];
    try reflexivity; cbn [numCompare option_map]; f_equal; apply cmpMag_antisym.
Qed.

Lemma numGe_numLe (x y : number) : numGe x y = numLe y x.
Proof.
  unfold numGe, numLe. rewrite (numCompare_antisym x y).
  destruct (numCompare y x) as [[| |]|]; reflexivity.
Qed.

(** ** Sorted lists of numbers *)

Lemma ascending_sorted (l : list number) :
  ascending l = true -> StronglySorted leq l.
Proof.
  intros H. apply Sorted_StronglySorted.
  - intros x y z. apply numLe_trans.
  - induction l as [|a r IH]; [constructor|].
    cbn [ascending] in H. apply andb_prop in H. destruct H as (Ha & Hr).
    constructor; [apply IH, Hr|].
    destruct r as [|b r']; constructor. exact Ha.
Qed.

Lemma sorted_descending (l : list number) :
  StronglySorted geq l -> descending l = true.
Proof.
  induction 1 as [|a r Hr IH Ha]; [reflexivity|].
  cbn [descending]. rewrite IH, andb_true_r.
  destruct r as [|b r']; [reflexivity|].
  rewrite numGe_numLe. apply (Forall_inv Ha).
Qed.

Lemma sorted_app {A : Type} (R : A -> A -> Prop) (l1 l2 : list A) :
  StronglySorted R l1 -> StronglySorted R l2 ->
  (forall x y, In x l1 -> In y l2 -> R x y) ->
  StronglySorted R (l1 ++ l2).
Proof.
  intros H1 H2 H. induction H1 as [|a r Hr IH Ha]; [exact H2|].
  cbn [app]. constructor.
  - apply IH. intros x y Hx Hy. apply H; [right; exact Hx | exact Hy].
  - apply Forall_app. split; [exact Ha|].
    apply Forall_forall. intros y Hy. apply H; [left; reflexivity | exact Hy].
Qed.

Lemma sorted_rev (l : list number) :
  StronglySorted leq l -> StronglySorted geq (rev l).
Proof.
  induction 1 as [|a r Hr IH Ha]; [constructor|].
  cbn [rev]. apply sorted_app; [exact IH | repeat constructor|].
  intros x y Hx [<- | []]. apply in_rev in Hx.
  rewrite Forall_forall in Ha. apply Ha, Hx.
Qed.

Lemma sorted_firstn {A : Type} (R : A -> A -> Prop) (n : nat) (l : list A) :
  StronglySorted R l -> StronglySorted R (firstn n l).
Proof.
  intros H. revert n. induction H as [|a r Hr IH Ha]; intros [|n];
    cbn [firstn]; try constructor.
  - apply IH.
  - apply Forall_firstn, Ha.
Qed.

(** ** The timestamps of the history *)

Lemma entryOf_timestamp (env : Env) (s : AppState) (e : value) :
  entryOf env s = Some e -> timestampOf e = now env.
Proof.
  unfold entryOf. destruct (file s); [|discriminate].
  destruct (analyzeWithGemini _ _ _); [|discriminate].
  intros H. injection H as <-. reflexivity.
Qed.

(** The timestamps of the records made are instants of the clock, in the
    order of the clock. *)
Lemma recorded_timestamps (evs : list event) :
  forall w,
    StronglySorted leq (clockTicks evs) ->
    StronglySorted leq (map timestampOf (recorded w evs)) /\
    (forall t, In t (map timestampOf (recorded w evs)) -> In t (clockTicks evs)).
Proof.
  induction evs as [|ev r IH]; intros w Hs; [split; [constructor | auto]|].
  destruct ev as [f | a | k | idx | env |];
    try (cbn [recorded clockTicks flat_map app] in *; apply IH; exact Hs).
  cbn [clockTicks flat_map app] in Hs. fold (clockTicks r) in Hs.
  apply StronglySorted_inv in Hs. destruct Hs as (Hs & Ha).
  destruct (IH (step w (Analyze env)) Hs) as (IH1 & IH2).
  cbn [recorded clockTicks flat_map]. fold (clockTicks r).
  destruct (entryOf env (ui w)) as [e|] eqn:E; cbn [app map].
  - rewrite (entryOf_timestamp _ _ _ E). split.
    + constructor; [exact IH1|]. apply Forall_forall. intros t Ht.
      rewrite Forall_forall in Ha. apply Ha, IH2, Ht.
    + intros t [<- | Ht]; [left; reflexivity | right; apply IH2, Ht].
  - split; [exact IH1|]. intros t Ht. right. apply IH2, Ht.
Qed.

(** X20: The history is sorted by timestamp, the newest first, as long as the
    clock does not go back between the analyses of a session: the order of
    the history is the order in which the records were made. *)
Theorem history_is_newest_first (evs : list event) :
  inSession evs = true ->
  ascending (clockTicks evs) = true ->
  exists items,
    history (ui (run (mount None) evs)) = VArr items /\
    descending (map timestampOf items) = true.
Proof.
  intros Hs Ha. eexists. split; [apply (history_of_session evs Hs)|].
  apply sorted_descending. unfold slice0. rewrite <- firstn_map, map_rev.
  apply sorted_firstn, sorted_rev.
  apply (recorded_timestamps evs (mount None)), ascending_sorted, Ha.
Qed.

Lemma history_is_newest_first_witness :
  exists items,
    history (ui (run (mount None) fullSession)) = VArr items /\
    descending (map timestampOf items) = true.
Proof.
  apply (history_is_newest_first fullSession); vm_compute; reflexivity.
Defined.

(** ** The digits of a whole number *)

Lemma digitChar_digitVal (x : ascii) : isDigit x = true -> digitChar (digitVal x) = x.
Proof.
  destruct x as [[] [] [] [] [] [] [] []]; intros H;
    first [discriminate H | reflexivity].
Qed.

Lemma digitVal_bounds (x : ascii) : isDigit x = true -> 0 <= digitVal x <= 9.
Proof.
  unfold isDigit, digitVal. intros H. apply andb_prop in H. destruct H as (A & B).
  apply Z.leb_le in A. apply Z.leb_le in B. lia.
Qed.

Lemma valDigits_nonneg (ds : text) : forallb isDigit ds = true -> 0 <= valDigits ds.
Proof.
  induction ds as [|x ds IH] using rev_ind; intros H; [unfold valDigits; simpl; lia|].
  rewrite forallb_app in H. apply andb_prop in H. destruct H as (Hd & Hx).
  cbn [forallb] in Hx. rewrite andb_true_r in Hx.
  rewrite valDigits_app. change (valDigits [x]) with (10 * 0 + digitVal x).
  pose proof (digitVal_bounds x Hx). specialize (IH Hd).
  change (Z.of_nat (List.length [x])) with 1. lia.
Qed.

(** A text of digits that does not start with zero spells a number of at
    least [10^(length - 1)]. *)
Lemma valDigits_lower (c : ascii) (r : text) :
  forallb isDigit (c :: r) = true -> Ascii.eqb c "0" = false ->
  10 ^ Z.of_nat (List.length r) <= valDigits (c :: r).
Proof.
  intros H Hc. cbn [forallb] in H. apply andb_prop in H. destruct H as (Hd & Hr).
  change (c :: r) with ([c] ++ r). rewrite valDigits_app.
  change (valDigits [c]) with (10 * 0 + digitVal c).
  pose proof (valDigits_nonneg r Hr). pose proof (digitVal_bounds c Hd).
  assert (digitVal c <> 0).
  { intros E. apply (f_equal digitChar) in E. rewrite (digitChar_digitVal c Hd) in E.
    subst c. discriminate. }
  assert (0 < 10 ^ Z.of_nat (List.length r)) by (apply Z.pow_pos_nonneg; lia).
  nia.
Qed.

(** The digits of a positive integer are the only text of digits without a
    leading zero that spells it. *)
Lemma digitsAux_unique (fuel : nat) :
  forall (n : Z) (ds : text),
    0 < n < 2 ^ Z.of_nat fuel ->
    forallb isDigit ds = true ->
    (exists c r, ds = c :: r /\ Ascii.eqb c "0" = false) ->
    valDigits ds = n ->
    ds = digitsAux fuel n [].
Proof.
  induction fuel as [|f IH]; intros n ds Hn Hd Hc Hv; [simpl in Hn; lia|].
  destruct Hc as (c & r & E & Hc).
  destruct (exists_last (l := ds)) as (ds' & x & E'); [rewrite E; discriminate|].
  rewrite E' in Hd, Hv. rewrite forallb_app in Hd. apply andb_prop in Hd.
  destruct Hd as (Hd' & Hx). cbn [forallb] in Hx. rewrite andb_true_r in Hx.
  rewrite valDigits_app in Hv. change (valDigits [x]) with (10 * 0 + digitVal x) in Hv.
  change (Z.of_nat (List.length [x])) with 1 in Hv. rewrite Z.pow_1_r in Hv.
  pose proof (digitVal_bounds x Hx) as Bx.
  pose proof (valDigits_nonneg ds' Hd') as Nn.
  assert (Hm : n mod 10 = digitVal x)
    by (symmetry; apply (Z.mod_unique _ 10 (valDigits ds')); lia).
  assert (Hq : n / 10 = valDigits ds')
    by (symmetry; apply (Z.div_unique _ 10 _ (digitVal x)); lia).
  cbn [digitsAux]. cbv zeta. rewrite Hm, (digitChar_digitVal x Hx).
  destruct ds' as [|c' r'].
  - change (valDigits []) with 0 in Hv.
    destruct (Z.ltb_spec n 10); [rewrite E'; reflexivity | lia].
  - assert (Hc' : Ascii.eqb c' "0" = false).
    { rewrite E' in E. cbn [app] in E. injection E as -> _. exact Hc. }
    pose proof (valDigits_lower c' r' Hd' Hc') as L.
    assert (0 < 10 ^ Z.of_nat (List.length r')) by (apply Z.pow_pos_nonneg; lia).
    destruct (Z.ltb_spec n 10); [lia|].
    rewrite digitsAux_app, E'. f_equal. apply IH.
    + rewrite Hq. split; [lia|].
      rewrite Nat2Z.inj_succ, Z.pow_succ_r in Hn by lia. lia.
    + exact Hd'.
    + eauto.
    + symmetry. exact Hq.
Qed.

Lemma digitsOf_unique (n : Z) (ds : text) :
  0 < n -> forallb isDigit ds = true ->
  (exists c r, ds = c :: r /\ Ascii.eqb c "0" = false) ->
  valDigits ds = n ->
  ds = digitsOf n.
Proof.
  intros Hn Hd Hc Hv. apply digitsAux_unique; auto.
  split; [exact Hn|].
  rewrite Nat2Z.inj_succ, Z2Nat.id by apply Z.log2_nonneg.
  apply Z.log2_spec, Hn.
Qed.

(** The string form of a whole number below [10^21] is its digits. *)
Lemma numToString_whole (z : Z) :
  0 <= z < 10 ^ 21 -> numToString (ofZ z) = str (digitsOf z).
Proof.
  intros Hz. unfold numToString. f_equal.
  destruct (Z.eq_dec z 0) as [-> | Hne]; [reflexivity|].
  destruct (ofZ_pos z ltac:(lia)) as (q & d & j & E & ->).
  cbn [numToText signText app].
  destruct (digitsOf_spec _ (mantissa_pos q d)) as (Hv & Hd & c & r & Hds & Hc).
  set (ds := digitsOf (mantissa q d)) in *.
  assert (Hall : forallb isDigit (ds ++ zeros (Z.of_nat j)) = true)
    by (rewrite forallb_app, Hd, zeros_digits; reflexivity).
  assert (Hval : valDigits (ds ++ zeros (Z.of_nat j)) = z).
  { rewrite valDigits_app, valDigits_zeros, length_zeros, Hv, Nat2Z.id. lia. }
  assert (Hcan : ds ++ zeros (Z.of_nat j) = digitsOf z).
  { apply digitsOf_unique; [lia | exact Hall | | exact Hval].
    rewrite Hds. cbn [app]. eauto. }
  assert (Hlen : Z.of_nat (List.length ds) + Z.of_nat j <= 21).
  { pose proof Hall as Hall'. pose proof Hval as Hval'.
    rewrite Hds in Hall', Hval'. cbn [app] in Hall', Hval'.
    pose proof (valDigits_lower c (r ++ zeros (Z.of_nat j)) Hall' Hc) as L.
    rewrite Hval' in L.
    assert (Hlt : Z.of_nat (List.length (r ++ zeros (Z.of_nat j))) < 21).
    { destruct (Z.lt_ge_cases (Z.of_nat (List.length (r ++ zeros (Z.of_nat j)))) 21)
        as [A|A]; [exact A|].
      pose proof (Z.pow_le_mono_r 10 21 _ ltac:(lia) A). lia. }
    rewrite length_app, length_zeros, Nat2Z.id in Hlt.
    rewrite Hds. cbn [List.length]. lia. }
  unfold fmtFinite. cbv zeta.
  destruct (Z.leb_spec (Z.of_nat (List.length ds)) (Z.of_nat j + Z.of_nat (List.length ds)));
    [|lia].
  destruct (Z.leb_spec (Z.of_nat j + Z.of_nat (List.length ds)) 21); [|lia].
  cbn [andb]. rewrite <- Hcan. do 2 f_equal. lia.
Qed.

(** ** The age in the prompt *)

Lemma ageArgument_digits (z : Z) :
  0 <= z -> ageArgument (str (digitsOf z)) = Some (ofZ z).
Proof.
  intros Hz. destruct (digitsOf_nonneg z Hz) as (Hv & Hd & Hn).
  unfold ageArgument. rewrite (StringToNumber_digits _ Hd Hn), Hv.
  destruct (ofZ_not_special z) as (-> & _). reflexivity.
Qed.

(** X3: The prompt names the age as it was typed: for a whole number up to
    [2^53] (the whole numbers that [Number] reads without rounding) typed
    in its usual form, zero included, the prompt has the typed digits
    between its two fixed parts; for an age text that is not a number it
    has the word [unknown], as for no age. *)
Theorem buildPrompt_states_the_age (z : Z) (a : string) :
  buildPrompt None = (dq promptHead ++ "unknown" ++ promptTail)%string /\
  (0 <= z <= 2 ^ 53 ->
   buildPrompt (Some (ofZ z)) = (dq promptHead ++ str (digitsOf z) ++ promptTail)%string /\
   buildPrompt (ageArgument (str (digitsOf z)))
   = (dq promptHead ++ str (digitsOf z) ++ promptTail)%string) /\
  (isNaN (StringToNumber a) = true ->
   buildPrompt (ageArgument a) = (dq promptHead ++ "unknown" ++ promptTail)%string).
Proof.
  split; [reflexivity|]. split.
  - intros Hz. rewrite (ageArgument_digits z) by lia.
    assert (Hz' : 0 <= z < 10 ^ 21).
    { split; [lia|]. apply Z.le_lt_trans with (m := 2 ^ 53); [lia | reflexivity]. }
    unfold buildPrompt. rewrite (numToString_whole z Hz'). split; reflexivity.
  - intros Ha. unfold ageArgument. rewrite Ha. reflexivity.
Qed.

(** ** A history that is no list *)

Lemma onAnalyze_not_a_list (env : Env) (w : World) :
  notAList (history (ui w)) = true ->
  history (ui (fst (onAnalyze env w))) = history (ui w) /\
  localStorage (fst (onAnalyze env w)) = localStorage w /\
  (forall e, entryOf env (ui w) = Some e ->
     snd (onAnalyze env w) = Some (Failed TypeError) /\
     result (ui (fst (onAnalyze env w))) = e).
Proof.
  intros Hn. unfold entryOf, onAnalyze.
  destruct (file (ui w)) as [f|]; [|repeat split; discriminate].
  rewrite ageArgument_spec.
  destruct (analyzeWithGemini env f (ageArgument (age (ui w)))) as [res|err];
    [|repeat split; discriminate].
  destruct (history (ui w)) as [| | b | n | s | items | props]; try discriminate Hn;
    cbn; (split; [reflexivity|]); (split; [reflexivity|]);
    intros e H; injection H as <-; split; reflexivity.
Qed.

Lemma step_not_a_list (w : World) (ev : event) :
  notAList (history (ui w)) = true -> inSession [ev] = true ->
  history (ui (step w ev)) = history (ui w) /\
  localStorage (step w ev) = localStorage w.
Proof.
  intros Hn Hs. destruct ev as [f | a | k | idx | env |]; cbn [step];
    try (split; reflexivity); try discriminate Hs.
  - unfold onSelect.
    destruct (history (ui w)) eqn:E; try discriminate Hn;
      (split; [exact E | reflexivity]).
  - destruct (onAnalyze_not_a_list env w Hn) as (H1 & H2 & _). auto.
Qed.

(** X16: Once the history is a value that is no list (a stored object, number
    or boolean, which [readHistory] returns as it finds it), no record can
    be added: every analysis that succeeds shows its record and then fails
    on the spread of the history with a TypeError, and neither the history
    nor the storage ever changes during the session. *)
Theorem onAnalyze_cannot_record_over_non_list (w : World) (evs : list event) :
  notAList (history (ui w)) = true ->
  inSession evs = true ->
  history (ui (run w evs)) = history (ui w) /\
  localStorage (run w evs) = localStorage w /\
  (forall env e,
     entryOf env (ui (run w evs)) = Some e ->
     snd (onAnalyze env (run w evs)) = Some (Failed TypeError) /\
     result (ui (fst (onAnalyze env (run w evs)))) = e).
Proof.
  intros Hn Hs.
  assert (G : history (ui (run w evs)) = history (ui w) /\
              localStorage (run w evs) = localStorage w).
  { revert w Hn. induction evs as [|ev r IH]; intros w Hn; [split; reflexivity|].
    cbn [inSession forallb] in Hs. apply andb_prop in Hs. destruct Hs as (Hev & Hr).
    assert (H1 : inSession [ev] = true)
      by (cbn [inSession forallb]; rewrite Hev; reflexivity).
    destruct (step_not_a_list w ev Hn H1) as (Hh & Hl).
    unfold run. cbn [fold_left]. fold (run (step w ev) r).
    destruct (IH Hr (step w ev)) as (Hh' & Hl'); [rewrite Hh; exact Hn|].
    rewrite Hh', Hl', Hh, Hl. split; reflexivity. }
  destruct G as (Gh & Gl). split; [exact Gh|]. split; [exact Gl|].
  intros env e. apply onAnalyze_not_a_list. rewrite Gh. exact Hn.
Qed.

Lemma onAnalyze_cannot_record_over_non_list_witness :
  history (ui (run (mount objectStorage) shortSession))
  = history (ui (mount objectStorage)) /\
  localStorage (run (mount objectStorage) shortSession)
  = localStorage (mount objectStorage) /\
  (forall env e,
     entryOf env (ui (run (mount objectStorage) shortSession)) = Some e ->
     snd (onAnalyze env (run (mount objectStorage) shortSession))
     = Some (Failed TypeError) /\
     result (ui (fst (onAnalyze env (run (mount objectStorage) shortSession)))) = e).
Proof.
  apply (onAnalyze_cannot_record_over_non_list (mount objectStorage) shortSession);
    reflexivity.
Defined.
